(** * De Bruijn graph assembler (debruijn/debruijn.py): model and properties

    A shallow embedding of the assembler's k-mer extraction, graph
    construction, path removal, selection policy and contig assembly,
    followed by the properties stated for them.

    Conventions of the embedding.
    - A Python [str] is a [string]; an [int] is a [Z]; a [list] is a [list].
    - A generator is the finite list of the values it yields, in order.
    - A call that may raise returns a [result]: [Ok v] or [Err e] with the
      exception class [e].
    - The graph object is mutated in place by the source; the model passes
      the graph in and returns the mutated graph.  No function of the source
      raises after it has started to mutate the graph, so on [Err] the graph
      is the one that was passed in.
    - The module-level random generator ([random.seed(9001)] at import,
      [randint] in the selection policy) is a state threaded through the
      selection policy. *)

From Stdlib Require Import List String Ascii ZArith QArith Bool Arith Lia Lqa.
Import ListNotations.

Local Open Scope string_scope.
Local Open Scope list_scope.
Local Open Scope Z_scope.

Set Implicit Arguments.

(* ================================================================== *)
(** ** Exceptions and fallible computations *)

(** The exception classes the modelled code can raise. *)
Inductive exn : Type :=
| IndexError          (* sequence index out of range *)
| ValueError          (* list.index of an absent value, empty randrange *)
| NameError           (* a name bound in no enclosing scope *)
| TypeError           (* a call with a missing positional argument *)
| StatisticsError     (* statistics.variance with fewer than two values *)
| NodeNotFound.       (* networkx: source or target not in the graph *)

Inductive result (A : Type) : Type :=
| Ok (v : A)
| Err (e : exn).

Arguments Ok {A} v.
Arguments Err {A} e.

Definition bind {A B : Type} (c : result A) (k : A -> result B) : result B :=
  match c with
  | Ok v => k v
  | Err e => Err e
  end.

Notation "x <- c ;; k" := (bind c (fun x => k))
  (at level 61, c at next level, right associativity).

(** The value [None] that a function without [return] gives back. *)
Inductive NoneType : Type := PyNone.

(* ================================================================== *)
(** ** Python sequences: indices, slices, ranges *)

Module Py.

(** Normalisation of a slice bound against a sequence of length [len]:
    a negative bound counts from the end, and every bound is clamped to
    [0 .. len]. *)
Definition clamp (len i : Z) : Z :=
  if i <? 0 then Z.max 0 (i + len) else Z.min i len.

(** [s[i:j]] on a string. *)
Definition str_slice (s : string) (i j : Z) : string :=
  let len := Z.of_nat (String.length s) in
  let lo := clamp len i in
  let hi := clamp len j in
  substring (Z.to_nat lo) (Z.to_nat (hi - lo)) s.

(** [l[i:j]] on a list. *)
Definition list_slice {A : Type} (l : list A) (i j : Z) : list A :=
  let len := Z.of_nat (List.length l) in
  let lo := clamp len i in
  let hi := clamp len j in
  firstn (Z.to_nat (hi - lo)) (skipn (Z.to_nat lo) l).

(** [l[1:]], [l[:-1]] and [l[1:-1]]: the open bound is the end it stands
    for. *)
Definition slice_from_1 {A : Type} (l : list A) : list A :=
  list_slice l 1 (Z.of_nat (List.length l)).
Definition slice_to_m1 {A : Type} (l : list A) : list A :=
  list_slice l 0 (-1).
Definition slice_1_to_m1 {A : Type} (l : list A) : list A :=
  list_slice l 1 (-1).

(** [range(lo, hi)]: empty when [hi <= lo]. *)
Definition range (lo hi : Z) : list Z :=
  map (fun i => lo + Z.of_nat i) (seq 0 (Z.to_nat (hi - lo))).

(** [len(s)] *)
Definition len_str (s : string) : Z := Z.of_nat (String.length s).
Definition len {A : Type} (l : list A) : Z := Z.of_nat (List.length l).

(** [s[-1]]: the last character; [IndexError] on the empty string. *)
Fixpoint last_char (s : string) : result ascii :=
  match s with
  | EmptyString => Err IndexError
  | String c EmptyString => Ok c
  | String _ s' => last_char s'
  end.

(** [del l[i]] for [0 <= i]: the list without its [i]-th element;
    [IndexError] when [i] is out of range.  (The source only deletes at
    indices produced by [list.index] and [randint(0, ...)], which are
    never negative.) *)
Fixpoint del_nat {A : Type} (l : list A) (i : nat) : result (list A) :=
  match l, i with
  | [], _ => Err IndexError
  | _ :: l', O => Ok l'
  | x :: l', S i' => r <- del_nat l' i' ;; Ok (x :: r)
  end.

Definition del {A : Type} (l : list A) (i : Z) : result (list A) :=
  if i <? 0 then
    if i + len l <? 0 then Err IndexError
    else del_nat l (Z.to_nat (i + len l))
  else del_nat l (Z.to_nat i).

End Py.

(* ================================================================== *)
(** ** KmerExtractor *)

(** [cut_kmer(read, kmer_size)]:
    [for i in range(0, len(read)-kmer_size+1): yield read[i:i+kmer_size]] *)
Definition cut_kmer (read : string) (kmer_size : Z) : list string :=
  map (fun i => Py.str_slice read i (i + kmer_size))
      (Py.range 0 (Py.len_str read - kmer_size + 1)).

(** [build_kmer_dict(fastq_file, kmer_size)], over the reads that
    [read_fastq] yields.  The table is a [dict], kept here in insertion
    order.  [dict.pop(kmer, None)] removes the entry and gives its count (or
    [None]); the assignment that follows inserts the k-mer again, at the end
    of the table. *)
Fixpoint dict_pop (d : list (string * Z)) (key : string)
  : option Z * list (string * Z) :=
  match d with
  | [] => (None, [])
  | (k, v) :: d' =>
      if String.eqb k key then (Some v, d')
      else let (r, d'') := dict_pop d' key in (r, (k, v) :: d'')
  end.

Definition count_kmer (d : list (string * Z)) (kmer : string)
  : list (string * Z) :=
  match dict_pop d kmer with
  | (Some occ, d') => d' ++ [(kmer, occ + 1)]
  | (None, d') => d' ++ [(kmer, 1)]
  end.

Definition build_kmer_dict (reads : list string) (kmer_size : Z)
  : list (string * Z) :=
  fold_left (fun d line => fold_left count_kmer (cut_kmer line kmer_size) d)
            reads [].

(* ================================================================== *)
(** ** The graph library (networkx.DiGraph), as far as the program uses it *)

Definition node := string.

(** [G._succ]: every node with its successors and the weight of the edge to
    each, both in insertion order.  Predecessors are read off the same
    table. *)
Definition DiGraph := list (node * list (node * Z)).

Module NX.

Definition mem (n : node) (l : list node) : bool :=
  existsb (String.eqb n) l.

(** [G.nodes()] *)
Definition nodes (g : DiGraph) : list node := map fst g.

(** [n in G] *)
Definition has_node (g : DiGraph) (n : node) : bool := mem n (nodes g).

(** [G[n]] with data *)
Fixpoint adj (g : DiGraph) (n : node) : list (node * Z) :=
  match g with
  | [] => []
  | (u, a) :: g' => if String.eqb u n then a else adj g' n
  end.

(** [G.successors(n)] *)
Definition successors (g : DiGraph) (n : node) : list node :=
  map fst (adj g n).

(** [G.predecessors(n)] *)
Definition predecessors (g : DiGraph) (n : node) : list node :=
  map fst (filter (fun entry => mem n (map fst (snd entry))) g).

(** [G.has_edge(u, v)] *)
Definition has_edge (g : DiGraph) (u v : node) : bool :=
  mem v (successors g u).

(** [G.edges(data=True)], as triples (u, v, weight) *)
Definition edges (g : DiGraph) : list (node * node * Z) :=
  flat_map (fun entry => map (fun vw => (fst entry, fst vw, snd vw))
                             (snd entry)) g.

(** [G.add_node(n)] *)
Definition add_node (g : DiGraph) (n : node) : DiGraph :=
  if has_node g n then g else g ++ [(n, [])].

Fixpoint set_weight (a : list (node * Z)) (v : node) (w : Z)
  : list (node * Z) :=
  match a with
  | [] => [(v, w)]
  | (x, wx) :: a' =>
      if String.eqb x v then (x, w) :: a' else (x, wx) :: set_weight a' v w
  end.

(** [G.add_edge(u, v, weight=w)]: both ends are added when absent, [u]
    before [v]; an existing edge gets the new weight. *)
Definition add_edge (g : DiGraph) (u v : node) (w : Z) : DiGraph :=
  map (fun entry =>
         if String.eqb (fst entry) u
         then (fst entry, set_weight (snd entry) v w)
         else entry)
      (add_node (add_node g u) v).

(** [G.remove_node(n)] without its [KeyError]: the node goes, with every
    edge from it and to it. *)
Definition remove_node (g : DiGraph) (n : node) : DiGraph :=
  map (fun entry =>
         (fst entry,
          filter (fun vw => negb (String.eqb (fst vw) n)) (snd entry)))
      (filter (fun entry => negb (String.eqb (fst entry) n)) g).

(** [G.remove_nodes_from(ns)]: each node in turn; a node that is not in
    the graph is skipped silently. *)
Definition remove_nodes_from (g : DiGraph) (ns : list node) : DiGraph :=
  fold_left remove_node ns g.

(** [G.subgraph(ns)]: the induced subgraph. *)
Definition subgraph (g : DiGraph) (ns : list node) : DiGraph :=
  map (fun entry =>
         (fst entry, filter (fun vw => mem (fst vw) ns) (snd entry)))
      (filter (fun entry => mem (fst entry) ns) g).

(** The nodes reachable from [seen] in at most [fuel] steps. *)
Fixpoint reach (fuel : nat) (g : DiGraph) (seen : list node) : list node :=
  match fuel with
  | O => seen
  | S f =>
      reach f g (nodup string_dec (seen ++ flat_map (successors g) seen))
  end.

(** [nx.has_path(G, source, target)]: [NodeNotFound] when an end is not in
    the graph, else whether [target] can be reached from [source]. *)
Definition has_path (g : DiGraph) (source target : node) : result bool :=
  if negb (has_node g source) then Err NodeNotFound
  else if negb (has_node g target) then Err NodeNotFound
  else Ok (mem target (reach (List.length g) g [source])).

(** The depth-first enumeration of [nx.all_simple_paths]: [visited] is
    the path so far, ending in [u]; at most [cutoff] more edges are
    followed; a child already on the path is skipped, the target is
    yielded and not expanded. *)
Fixpoint dfs (cutoff : nat) (g : DiGraph) (target : node)
         (visited : list node) (u : node) : list (list node) :=
  match cutoff with
  | O => []
  | S c =>
      flat_map
        (fun child =>
           if mem child visited then []
           else if String.eqb child target then [visited ++ [child]]
           else dfs c g target (visited ++ [child]) child)
        (successors g u)
  end.

(** [nx.all_simple_paths(G, source, target)] with the default cutoff
    [len(G) - 1], for a [target] that is a node of the graph, as it is at
    the one call of the program ([get_contigs] asks [has_path] first, and
    that raises [NodeNotFound] for a node that is not in the graph).  When
    [source] is [target] the releases of the library contemporary with the
    program yield nothing, later ones yield the path of one node; nothing
    is yielded here, and no property below depends on that case. *)
Definition all_simple_paths (g : DiGraph) (source target : node)
  : result (list (list node)) :=
  if negb (has_node g source) then Err NodeNotFound
  else if negb (has_node g target) then Err NodeNotFound
  else if String.eqb source target then Ok []
  else Ok (dfs (List.length g - 1) g target [source] source).

End NX.

(* ================================================================== *)
(** ** GraphBuilder *)

(** [build_graph(kmer_dict)]:
    [digraph.add_edge(kmer[:-1], kmer[1:], weight=kmer_dict[kmer])] for
    every key. *)
Definition build_graph (kmer_dict : list (string * Z)) : DiGraph :=
  fold_left
    (fun digraph kv =>
       let kmer := fst kv in
       NX.add_edge digraph
                   (Py.str_slice kmer 0 (-1))
                   (Py.str_slice kmer 1 (Py.len_str kmer))
                   (snd kv))
    kmer_dict [].

(* ================================================================== *)
(** ** The statistics module *)

Module Stat.

Definition sum (data : list Q) : Q := fold_right Qplus 0%Q data.

(** [statistics.mean] *)
Definition mean (data : list Q) : result Q :=
  match data with
  | [] => Err StatisticsError
  | _ => Ok (sum data / inject_Z (Py.len data))%Q
  end.

(** [statistics.variance]: the sample variance, computed exactly;
    [StatisticsError] with fewer than two values. *)
Definition variance (data : list Q) : result Q :=
  if Py.len data <? 2 then Err StatisticsError
  else
    let n := inject_Z (Py.len data) in
    let m := (sum data / n)%Q in
    Ok (sum (map (fun x => (x - m) * (x - m))%Q data) / (n - 1))%Q.

(** The number [sqrt(radicand)], kept symbolic. *)
Record root : Type := Sqrt { radicand : Q }.

(** [r > 0] for a square root: the radicand is positive. *)
Definition gt_0 (r : root) : bool := negb (Qle_bool (radicand r) 0).

(** [statistics.stdev]: the square root of the variance. *)
Definition stdev (data : list Q) : result root :=
  v <- variance data ;; Ok (Sqrt v).

End Stat.

(** One step of [max]: the running maximum [m] gives way to [item] only
    when [item > m]. *)
Definition keep_max (m item : Q) : Q := if Qle_bool item m then m else item.

(** [max(l)]: the first of the greatest items; [ValueError] on []. *)
Definition py_max (l : list Q) : result Q :=
  match l with
  | [] => Err ValueError
  | x :: l' => Ok (fold_left keep_max l' x)
  end.

(** [l.index(v)]: the first position holding a value equal to [v];
    [ValueError] when there is none. *)
Fixpoint py_index (l : list Q) (v : Q) : result Z :=
  match l with
  | [] => Err ValueError
  | x :: l' => if Qeq_bool x v then Ok 0 else i <- py_index l' v ;; Ok (i + 1)
  end.

(* ================================================================== *)
(** ** The random module *)

(** The generator behind the module [random]: its state, [random.seed] and
    the draw [_randbelow(n)] of a number below [n], for [0 < n]. *)
Class RandomSource : Type := {
  rng_state : Type;
  random_seed : Z -> rng_state;
  randbelow : Z -> rng_state -> Z * rng_state;
  randbelow_range :
    forall n s, 0 < n -> 0 <= fst (randbelow n s) < n
}.

(** [randint(a, b)] is [randrange(a, b+1)]: [ValueError] on an empty range,
    else [a + _randbelow(b + 1 - a)]. *)
Definition randint {R : RandomSource} (a b : Z) (s : rng_state)
  : result Z * rng_state :=
  let width := b + 1 - a in
  if 0 <? width
  then let (r, s') := randbelow width s in (Ok (a + r), s')
  else (Err ValueError, s).

(** The generator of the program: the Mersenne Twister MT19937 of the
    module [random], on 32-bit words kept as [Z] with their wrap-around
    written out. *)
Module Twister.

Definition N : nat := 624.
Definition M : nat := 397.

(** A value cut to 32 bits. *)
Definition u32 (x : Z) : Z := Z.land x 4294967295.

(** The array [mt] of 624 words and the index [mti] of the next word. *)
Record state : Type := State { mt : list Z; mti : nat }.

Fixpoint set (l : list Z) (i : nat) (v : Z) : list Z :=
  match l, i with
  | [], _ => []
  | _ :: l', O => v :: l'
  | x :: l', S i' => x :: set l' i' v
  end.

Definition get (l : list Z) (i : nat) : Z := nth i l 0.

(** [init_genrand(s)]:
    [mt[i] = 1812433253 * (mt[i-1] ^ (mt[i-1] >> 30)) + i]. *)
Fixpoint init_loop (count : nat) (i : Z) (prev : Z) : list Z :=
  match count with
  | O => []
  | S c =>
      let x := u32 (1812433253 * Z.lxor prev (Z.shiftr prev 30) + i) in
      x :: init_loop c (i + 1) x
  end.

Definition init_genrand (s : Z) : list Z :=
  u32 s :: init_loop (N - 1) 1 (u32 s).

(** [if (i >= N) { mt[0] = mt[N-1]; i = 1; }] *)
Definition wrap (l : list Z) (i : nat) : list Z * nat :=
  if (N <=? i)%nat then (set l 0 (get l (N - 1)), 1%nat) else (l, i).

(** The first loop of [init_by_array], which mixes the key in. *)
Fixpoint key_loop (count : nat) (key : list Z) (l : list Z) (i j : nat)
  : list Z * nat :=
  match count with
  | O => (l, i)
  | S c =>
      let prev := get l (i - 1) in
      let x := u32 (Z.lxor (get l i)
                           (Z.lxor prev (Z.shiftr prev 30) * 1664525)
                    + get key j + Z.of_nat j) in
      let (l', i') := wrap (set l i x) (S i) in
      let j' := if (List.length key <=? S j)%nat then O else S j in
      key_loop c key l' i' j'
  end.

(** The second loop of [init_by_array]. *)
Fixpoint mix_loop (count : nat) (l : list Z) (i : nat) : list Z :=
  match count with
  | O => l
  | S c =>
      let prev := get l (i - 1) in
      let x := u32 (Z.lxor (get l i)
                           (Z.lxor prev (Z.shiftr prev 30) * 1566083941)
                    - Z.of_nat i) in
      let (l', i') := wrap (set l i x) (S i) in
      mix_loop c l' i'
  end.

Definition init_by_array (key : list Z) : state :=
  let (l, i) := key_loop (Nat.max N (List.length key)) key
                         (init_genrand 19650218) 1 0 in
  State (set (mix_loop (N - 1) l i) 0 2147483648) N.

(** The 32-bit words of an integer, the lowest first. *)
Fixpoint words_of (count : nat) (a : Z) : list Z :=
  match count with
  | O => []
  | S c => u32 a :: words_of c (Z.shiftr a 32)
  end.

(** [random.seed(a)] for an integer: the key is the absolute value of
    [a], in 32-bit words; the state depends on nothing else. *)
Definition key_of (a : Z) : list Z :=
  let n := Z.abs a in
  words_of (if n =? 0 then 1 else S (Z.to_nat (Z.log2 n / 32))) n.

Definition seed (a : Z) : state := init_by_array (key_of a).

(** The regeneration of the 624 words, in place. *)
Fixpoint twist_loop (count : nat) (kk : nat) (l : list Z) : list Z :=
  match count with
  | O => l
  | S c =>
      let y := Z.lor (Z.land (get l kk) 2147483648)
                     (Z.land (get l (S kk mod N)) 2147483647) in
      let mag := if Z.odd y then 2567483615 else 0 in
      let x := Z.lxor (Z.lxor (get l ((kk + M) mod N)) (Z.shiftr y 1)) mag in
      twist_loop c (S kk) (set l kk x)
  end.

Definition temper (y : Z) : Z :=
  let y := Z.lxor y (Z.shiftr y 11) in
  let y := Z.lxor y (Z.land (Z.shiftl y 7) 2636928640) in
  let y := Z.lxor y (Z.land (Z.shiftl y 15) 4022730752) in
  Z.lxor y (Z.shiftr y 18).

(** [genrand_uint32] *)
Definition genrand_uint32 (s : state) : Z * state :=
  let s' :=
    if (N <=? mti s)%nat then State (twist_loop N 0 (mt s)) 0 else s in
  (u32 (temper (get (mt s') (mti s'))), State (mt s') (S (mti s'))).

(** [getrandbits(k)] for more than 32 bits: one word per 32 bits, the
    lowest first, the last cut to the bits that remain. *)
Fixpoint getrandbits_words (count : nat) (k : Z) (s : state) : Z * state :=
  match count with
  | O => (0, s)
  | S c =>
      let (r, s') := genrand_uint32 s in
      let r := if k <? 32 then Z.shiftr r (32 - k) else r in
      let (rest, s'') := getrandbits_words c (k - 32) s' in
      (r + Z.shiftl rest 32, s'')
  end.

(** [getrandbits(k)] *)
Definition getrandbits (k : Z) (s : state) : Z * state :=
  if k <=? 32 then
    let (r, s') := genrand_uint32 s in (Z.shiftr r (32 - k), s')
  else getrandbits_words (Z.to_nat ((k - 1) / 32 + 1)) k s.

(** The loop of [_randbelow(n)]:
    [r = getrandbits(k); while r >= n: r = getrandbits(k)].  The loop of
    the library has no bound; each round ends it with probability above
    one half, and the [fuel] given below is never used up in this file. *)
Fixpoint randbelow_loop (fuel : nat) (n k : Z) (s : state) : Z * state :=
  match fuel with
  | O => (0, s)
  | S f =>
      let (r, s') := getrandbits k s in
      if r <? n then (r, s') else randbelow_loop f n k s'
  end.

(** [_randbelow(n)], with [k = n.bit_length()]. *)
Definition randbelow (n : Z) (s : state) : Z * state :=
  randbelow_loop 4096 n (Z.log2 n + 1) s.

Lemma u32_nonneg (x : Z) : 0 <= u32 x.
Proof. unfold u32. apply Z.land_nonneg. right. lia. Qed.

Lemma genrand_nonneg (s : state) : 0 <= fst (genrand_uint32 s).
Proof. unfold genrand_uint32. cbn [fst]. apply u32_nonneg. Qed.

Lemma getrandbits_words_nonneg (count : nat) :
  forall k s, 0 <= fst (getrandbits_words count k s).
Proof.
  induction count as [| c IH]; intros k s; cbn [getrandbits_words].
  - cbn. lia.
  - pose proof (genrand_nonneg s) as Hr.
    destruct (genrand_uint32 s) as [r s']. cbn [fst] in Hr.
    specialize (IH (k - 32) s').
    destruct (getrandbits_words c (k - 32) s') as [rest s''].
    cbn [fst] in *.
    assert (0 <= Z.shiftl rest 32) by (apply Z.shiftl_nonneg; exact IH).
    destruct (k <? 32).
    + assert (0 <= Z.shiftr r (32 - k))
        by (apply Z.shiftr_nonneg; exact Hr).
      lia.
    + lia.
Qed.

Lemma getrandbits_nonneg (k : Z) (s : state) : 0 <= fst (getrandbits k s).
Proof.
  unfold getrandbits. destruct (k <=? 32).
  - pose proof (genrand_nonneg s) as Hr.
    destruct (genrand_uint32 s) as [r s']. cbn [fst] in *.
    apply Z.shiftr_nonneg. exact Hr.
  - apply getrandbits_words_nonneg.
Qed.

Lemma randbelow_in_range (n : Z) (s : state) :
  0 < n -> 0 <= fst (randbelow n s) < n.
Proof.
  intros Hn. unfold randbelow. generalize (Z.log2 n + 1) as k.
  generalize 4096%nat as fuel. intros fuel. revert s.
  induction fuel as [| f IH]; intros s k; cbn [randbelow_loop].
  - cbn. lia.
  - pose proof (getrandbits_nonneg k s) as Hr.
    destruct (getrandbits k s) as [r s']. cbn [fst] in Hr.
    destruct (Z.ltb_spec r n); [cbn; lia | apply IH].
Qed.

End Twister.

#[local] Instance mersenne : RandomSource := {|
  rng_state := Twister.state;
  random_seed := Twister.seed;
  randbelow := Twister.randbelow;
  randbelow_range := Twister.randbelow_in_range
|}.

(** The state of the generator once the module is imported:
    [random.seed(9001)]. *)
Definition import_state {R : RandomSource} : rng_state := random_seed 9001.

(* ================================================================== *)
(** ** PathResolver *)

(** [remove_paths(graph, path_list, delete_entry_node, delete_sink_node)].
    [removed_nodes] is the argument of [graph.remove_nodes_from] in the
    branch that the two flags select. *)
Definition removed_nodes (delete_entry_node delete_sink_node : bool)
           (path : list node) : list node :=
  if delete_entry_node && delete_sink_node then path
  else if delete_entry_node && negb delete_sink_node then Py.slice_to_m1 path
  else if negb delete_entry_node && delete_sink_node then Py.slice_from_1 path
  else Py.slice_1_to_m1 path.

Definition remove_paths (graph : DiGraph) (path_list : list (list node))
           (delete_entry_node delete_sink_node : bool) : DiGraph :=
  fold_left
    (fun graph path =>
       NX.remove_nodes_from
         graph (removed_nodes delete_entry_node delete_sink_node path))
    path_list graph.

(** [std(data)] *)
Definition std (data : list Q) : result Stat.root := Stat.stdev data.

(** The two statements that end each branch of [select_best_path]:
    [del path_list[best_index]] and the call of [remove_paths].  The [del]
    shortens the list of the caller; the shortened list is the one passed
    on, and no caller in the program reads its list again. *)
Definition drop_best_and_remove (graph : DiGraph)
           (path_list : list (list node)) (best_index : Z)
           (delete_entry_node delete_sink_node : bool) : result DiGraph :=
  path_list' <- Py.del path_list best_index ;;
  Ok (remove_paths graph path_list' delete_entry_node delete_sink_node).

(** [select_best_path(graph, path_list, path_length, weight_avg_list,
    delete_entry_node, delete_sink_node)], from the state [rs] of the random
    generator; the state after the call is returned with the result. *)
Definition select_best_path {R : RandomSource} (graph : DiGraph)
           (path_list : list (list node)) (path_length : list Z)
           (weight_avg_list : list Q)
           (delete_entry_node delete_sink_node : bool) (rs : rng_state)
  : result DiGraph * rng_state :=
  match std weight_avg_list with
  | Err e => (Err e, rs)
  | Ok sw =>
      if Stat.gt_0 sw then
        (m <- py_max weight_avg_list ;;
         best_index <- py_index weight_avg_list m ;;
         drop_best_and_remove graph path_list best_index
                              delete_entry_node delete_sink_node, rs)
      else
        match std (map inject_Z path_length) with
        | Err e => (Err e, rs)
        | Ok sl =>
            if Stat.gt_0 sl then
              (m <- py_max (map inject_Z path_length) ;;
               best_index <- py_index (map inject_Z path_length) m ;;
               drop_best_and_remove graph path_list best_index
                                    delete_entry_node delete_sink_node, rs)
            else
              let (r, rs') := randint 0 (Py.len path_list - 1) rs in
              (best_index <- r ;;
               drop_best_and_remove graph path_list best_index
                                    delete_entry_node delete_sink_node, rs')
        end
  end.

(** One call of [select_best_path]: its six arguments. *)
Record call : Type := Call {
  call_graph : DiGraph;
  call_path_list : list (list node);
  call_path_length : list Z;
  call_weight_avg_list : list Q;
  call_delete_entry_node : bool;
  call_delete_sink_node : bool
}.

Definition run_call {R : RandomSource} (c : call) (rs : rng_state)
  : result DiGraph * rng_state :=
  select_best_path (call_graph c) (call_path_list c) (call_path_length c)
                   (call_weight_avg_list c) (call_delete_entry_node c)
                   (call_delete_sink_node c) rs.

(** The calls that one run makes, in their order, on the generator of the
    module [random]: the generator is one object for the whole process,
    so each call finds it in the state in which the call before left it.
    The outcome of every call is kept, an exception as well; the run up
    to an exception that nobody catches is a prefix of such a list. *)
Fixpoint resolution_run {R : RandomSource} (calls : list call)
         (rs : rng_state) : list (result DiGraph) * rng_state :=
  match calls with
  | [] => ([], rs)
  | c :: calls' =>
      let (out, rs') := run_call c rs in
      let (outs, rs'') := resolution_run calls' rs' in
      (out :: outs, rs'')
  end.

(** A run of the program.  The interpreter creates the generator in a
    state [startup] drawn from the system, different from run to run; the
    import of the module executes [random.seed(9001)], which sets the
    whole state anew, and no other statement of the module seeds the
    generator. *)
Definition import_module {R : RandomSource} (startup : rng_state)
  : rng_state := import_state.

Definition program_run {R : RandomSource} (startup : rng_state)
           (calls : list call) : list (result DiGraph) * rng_state :=
  resolution_run calls (import_module startup).

(** Whether a call comes to the statement [randint(0, len(path_list)-1)]
    with a candidate to draw: both deviations have a value, neither is
    above 0, and the list of candidates is not empty. *)
Definition reaches_tie_break (c : call) : bool :=
  match std (call_weight_avg_list c),
        std (map inject_Z (call_path_length c)) with
  | Ok sw, Ok sl =>
      negb (Stat.gt_0 sw) && negb (Stat.gt_0 sl)
      && (0 <? Py.len (call_path_list c))
  | _, _ => false
  end.

(** [path_average_weight(graph, path)]: the mean weight over the edges of
    the subgraph induced by the nodes of [path]. *)
Definition path_average_weight (graph : DiGraph) (path : list node)
  : result Q :=
  Stat.mean (map (fun e => inject_Z (snd e))
                 (NX.edges (NX.subgraph graph path))).

(** The names bound at module level in debruijn.py: its imports, its
    dunder assignments and its functions. *)
Definition module_globals : list string :=
  [ "argparse"; "os"; "sys"; "nx"; "matplotlib"; "itemgetter"; "random";
    "randint"; "statistics";
    "__author__"; "__copyright__"; "__credits__"; "__license__";
    "__version__"; "__maintainer__"; "__email__"; "__status__";
    "isfile"; "get_arguments"; "read_fastq"; "cut_kmer"; "build_kmer_dict";
    "build_graph"; "remove_paths"; "std"; "select_best_path";
    "path_average_weight"; "solve_bubble"; "simplify_bubbles";
    "solve_entry_tips"; "solve_out_tips"; "get_starting_nodes";
    "get_sink_nodes"; "get_contigs"; "save_contigs"; "fill"; "draw_graph";
    "save_graph"; "main" ].

(** Evaluation of a name that is not a local of the running function:
    [NameError] unless the module binds it (no builtin is called
    [graphe]). *)
Definition load_global (name : string) : result unit :=
  if NX.mem name module_globals then Ok tt else Err NameError.

(** [solve_bubble(graph, ancestor_node, descendant_node)].  Its first
    statement evaluates the name [graphe], which is neither a parameter nor
    a local of the function.  Past it, the function would end in the call
    [select_best_path(graph, path_list, weight_avg_list)], one positional
    argument short of the four that [select_best_path] requires. *)
Definition solve_bubble (graph : DiGraph) (ancestor_node descendant_node : node)
  : result DiGraph :=
  _ <- load_global "graphe" ;;
  Err TypeError.

(** [simplify_bubbles(graph)]: the body is [pass]. *)
Definition simplify_bubbles (graph : DiGraph) : NoneType * DiGraph :=
  (PyNone, graph).

(** [solve_entry_tips(graph, starting_nodes)]: the body is [pass]. *)
Definition solve_entry_tips (graph : DiGraph) (starting_nodes : list node)
  : NoneType * DiGraph :=
  (PyNone, graph).

(** [solve_out_tips(graph, ending_nodes)]: the body is [pass]. *)
Definition solve_out_tips (graph : DiGraph) (ending_nodes : list node)
  : NoneType * DiGraph :=
  (PyNone, graph).

(* ================================================================== *)
(** ** ContigAssembler *)

(** [get_starting_nodes(graph)]: the nodes without predecessor. *)
Definition get_starting_nodes (graph : DiGraph) : list node :=
  filter (fun n => (Py.len (NX.predecessors graph n) =? 0))
         (NX.nodes graph).

(** [get_sink_nodes(graph)]: the nodes without successor. *)
Definition get_sink_nodes (graph : DiGraph) : list node :=
  filter (fun n => (Py.len (NX.successors graph n) =? 0))
         (NX.nodes graph).

(** A contig as [get_contigs] stores it: [[contig, len(contig)]]. *)
Definition contig_entry : Type := string * Z.

(** The loop [for i in range(1, len(n)): contig += n[i][-1]] over the nodes
    after the first. *)
Fixpoint extend_contig (contig : string) (rest : list node) : result string :=
  match rest with
  | [] => Ok contig
  | kmer :: rest' =>
      c <- Py.last_char kmer ;;
      extend_contig (contig ++ String c EmptyString) rest'
  end.

(** The contig of one path [n]: [contig = n[0]], then the loop. *)
Definition contig_of_path (n : list node) : result string :=
  match n with
  | [] => Err IndexError
  | n0 :: rest => extend_contig n0 rest
  end.

(** [for n in nx.all_simple_paths(...)]: one entry appended per path to
    the list [result] of the source, here [acc]. *)
Fixpoint contigs_of_paths (paths : list (list node))
         (acc : list contig_entry) : result (list contig_entry) :=
  match paths with
  | [] => Ok acc
  | n :: paths' =>
      contig <- contig_of_path n ;;
      contigs_of_paths paths' (acc ++ [(contig, Py.len_str contig)])
  end.

(** [for en_node in ending_nodes]: the loop is left by [break] at the
    first ending node that [st_node] has no path to. *)
Fixpoint contigs_from (graph : DiGraph) (st_node : node)
         (ending_nodes : list node) (acc : list contig_entry)
  : result (list contig_entry) :=
  match ending_nodes with
  | [] => Ok acc
  | en_node :: ending_nodes' =>
      reachable <- NX.has_path graph st_node en_node ;;
      if negb reachable then Ok acc
      else
        paths <- NX.all_simple_paths graph st_node en_node ;;
        acc' <- contigs_of_paths paths acc ;;
        contigs_from graph st_node ending_nodes' acc'
  end.

(** [for st_node in starting_nodes] *)
Fixpoint contigs_loop (graph : DiGraph)
         (starting_nodes ending_nodes : list node)
         (acc : list contig_entry) : result (list contig_entry) :=
  match starting_nodes with
  | [] => Ok acc
  | st_node :: starting_nodes' =>
      acc' <- contigs_from graph st_node ending_nodes acc ;;
      contigs_loop graph starting_nodes' ending_nodes acc'
  end.

(** [get_contigs(graph, starting_nodes, ending_nodes)] *)
Definition get_contigs (graph : DiGraph)
           (starting_nodes ending_nodes : list node)
  : result (list contig_entry) :=
  contigs_loop graph starting_nodes ending_nodes [].

(** The invariant of the list [result] of [get_contigs]. *)
Definition entry_ok (e : contig_entry) : Prop := snd e = Py.len_str (fst e).

(* ================================================================== *)
(** ** Paths in a graph *)

(** [path] is a walk of the graph: its nodes are in the graph and each is
    joined to the next by an edge. *)
Fixpoint is_path (g : DiGraph) (path : list node) : bool :=
  match path with
  | [] => true
  | u :: rest =>
      NX.has_node g u &&
      match rest with
      | [] => true
      | v :: _ => NX.has_edge g u v && is_path g rest
      end
  end.

(** The nodes of a path strictly between its two ends. *)
Definition interior (path : list node) : list node := removelast (tl path).

(** The nodes that [remove_paths] hands to [remove_nodes_from], over the
    whole list of paths. *)
Definition all_removed (path_list : list (list node))
           (delete_entry_node delete_sink_node : bool) : list node :=
  flat_map (removed_nodes delete_entry_node delete_sink_node) path_list.

(* ================================================================== *)
(** ** Sample inputs *)

Module Sample.

(** Two reads without a common k-mer, k = 3. *)
Definition two_reads : DiGraph :=
  [("AC", [("CG", 1)]); ("CG", []); ("TT", [("TA", 1)]); ("TA", [])].

(** The reads TACGAT (twice) and TACCAT, k = 3: a bubble between AC and
    AT, entered from TA. *)
Definition bubble : DiGraph :=
  [("AC", [("CG", 2); ("CC", 1)]); ("CG", [("GA", 2)]);
   ("GA", [("AT", 2)]); ("AT", []); ("TA", [("AC", 3)]);
   ("CC", [("CA", 1)]); ("CA", [("AT", 1)])].

(** The reads ACGTA (twice) and TCGT, k = 3: the entry tip TC joins the
    main path at CG. *)
Definition entry_tip : DiGraph :=
  [("AC", [("CG", 2)]); ("CG", [("GT", 3)]); ("GT", [("TA", 2)]);
   ("TA", []); ("TC", [("CG", 1)])].

(** The reads ACG (twice) and AG, k = 2: the edge A -> G runs beside the
    path A -> C -> G. *)
Definition shortcut : DiGraph :=
  [("A", [("C", 2); ("G", 1)]); ("C", [("G", 2)]); ("G", [])].

End Sample.

(* ================================================================== *)
(** ** The read source and the contig sink *)

(** [c.isspace()] for a character below 256. *)
Definition is_space (c : ascii) : bool :=
  let n := nat_of_ascii c in
  ((9 <=? n) && (n <=? 13) || (28 <=? n) && (n <=? 32)
   || (n =? 133) || (n =? 160))%nat.

(** [s.rstrip()]: [s] without its trailing white space. *)
Fixpoint rstrip (s : string) : string :=
  match s with
  | EmptyString => EmptyString
  | String c s' =>
      match rstrip s' with
      | EmptyString => if is_space c then EmptyString else String c EmptyString
      | r => String c r
      end
  end.

(** [read_fastq(fastq_file)], over the lines that iterating the open file
    gives; [i] is the counter of the source, before its increment. *)
Fixpoint read_fastq_from (i : Z) (lines : list string) : list string :=
  match lines with
  | [] => []
  | line :: lines' =>
      let i := i + 1 in
      if (i mod 2 =? 0) && negb (i mod 4 =? 0)
      then rstrip line :: read_fastq_from i lines'
      else read_fastq_from i lines'
  end.

Definition read_fastq (lines : list string) : list string :=
  read_fastq_from 0 lines.

(** [range(lo, hi, step)]: [ValueError] for a step of 0. *)
Definition range_step (lo hi step : Z) : result (list Z) :=
  if step =? 0 then Err ValueError
  else
    let n := if 0 <? step then (hi - lo + step - 1) / step
             else (lo - hi - step - 1) / (- step) in
    Ok (map (fun i => lo + Z.of_nat i * step) (seq 0 (Z.to_nat n))).

(** The lines of [fill(text, width)]:
    [text[i:i+width] for i in range(0, len(text), width)]. *)
Definition fill_lines (text : string) (width : Z) : result (list string) :=
  offsets <- range_step 0 (Py.len_str text) width ;;
  Ok (map (fun i => Py.str_slice text i (i + width)) offsets).

(** [fill(text, width)]: the lines joined by [os.linesep]. *)
Definition fill (linesep : string) (text : string) (width : Z)
  : result string :=
  lines <- fill_lines text width ;;
  Ok (String.concat linesep lines).

(* ================================================================== *)
(** ** Tables and graphs: look-up and shape *)

(** [d[key]] as [d.get(key)]. *)
Fixpoint dict_get (d : list (string * Z)) (key : string) : option Z :=
  match d with
  | [] => None
  | (k, v) :: d' => if String.eqb k key then Some v else dict_get d' key
  end.

(** [G[u][v]["weight"]], when the edge is there. *)
Definition edge_weight (g : DiGraph) (u v : node) : option Z :=
  dict_get (NX.adj g u) v.

(** The shape that the graph library keeps: every node once, every
    successor of a node once, every successor a node of the graph. *)
Definition wf (g : DiGraph) : Prop :=
  NoDup (NX.nodes g) /\
  forall u a, In (u, a) g ->
              NoDup (map fst a) /\
              forall v, In v (map fst a) -> In v (NX.nodes g).

(** The number of times [kmer] occurs in a list of k-mers. *)
Definition occurrences (kmers : list string) (kmer : string) : Z :=
  Z.of_nat (count_occ string_dec kmers kmer).

(** Both ends of the edge of a k-mer: [kmer[:-1]] and [kmer[1:]]. *)
Definition kmer_prefix (kmer : string) : node := Py.str_slice kmer 0 (-1).
Definition kmer_suffix (kmer : string) : node :=
  Py.str_slice kmer 1 (Py.len_str kmer).

(** [s] is made of white space only. *)
Fixpoint all_space (s : string) : bool :=
  match s with
  | EmptyString => true
  | String c s' => is_space c && all_space s'
  end.

(** The graph that is one path: every node of [ns] with an edge of weight
    1 to the next, in the order in which [build_graph] lays it out. *)
Fixpoint path_graph (ns : list node) : DiGraph :=
  match ns with
  | [] => []
  | n :: rest =>
      match rest with
      | [] => [(n, [])]
      | n' :: _ => (n, [(n', 1)]) :: path_graph rest
      end
  end.

(* ================================================================== *)
(** * Properties *)

(** ** Strings *)

Section StringFacts.

Lemma substring_length (s : string) :
  forall n m, (n + m <= String.length s)%nat ->
              String.length (substring n m s) = m.
Proof.
  induction s as [| c s IH]; intros n m H; simpl in H.
  - assert (n = 0%nat) by lia. assert (m = 0%nat) by lia. subst.
    reflexivity.
  - destruct n as [| n]; simpl.
    + destruct m as [| m]; simpl; [reflexivity |].
      rewrite IH by lia. reflexivity.
    + apply IH. lia.
Qed.

Lemma substring_empty (n m : nat) : substring n m EmptyString = EmptyString.
Proof. destruct n, m; reflexivity. Qed.

(** A substring of a substring is a substring of the whole. *)
Lemma substring_substring (s : string) :
  forall n m a b, (a + b <= m)%nat ->
                  substring a b (substring n m s) = substring (n + a) b s.
Proof.
  induction s as [| c s IH]; intros n m a b H.
  - rewrite !substring_empty. reflexivity.
  - destruct n as [| n].
    + destruct m as [| m].
      * assert (a = 0%nat) by lia. assert (b = 0%nat) by lia. subst.
        reflexivity.
      * cbn [substring Nat.add].
        destruct a as [| a].
        -- destruct b as [| b]; [reflexivity |].
           cbn [substring]. f_equal.
           rewrite (IH 0%nat m 0%nat b) by lia. reflexivity.
        -- cbn [substring]. rewrite (IH 0%nat m a b) by lia. reflexivity.
    + cbn [substring Nat.add]. apply IH. assumption.
Qed.

Lemma length_append (s t : string) :
  String.length (s ++ t)%string
  = (String.length s + String.length t)%nat.
Proof. induction s as [| c s IH]; simpl; [reflexivity | now rewrite IH]. Qed.

Lemma last_char_some (s : string) :
  s <> EmptyString -> exists c, Py.last_char s = Ok c.
Proof.
  induction s as [| c s IH]; intros H; [congruence |].
  destruct s as [| c' s'].
  - exists c. reflexivity.
  - destruct IH as [x Hx]; [congruence |]. exists x. exact Hx.
Qed.

End StringFacts.

(** ** KmerExtractor *)

Section CutKmer.

Lemma range_length (lo hi : Z) :
  List.length (Py.range lo hi) = Z.to_nat (hi - lo).
Proof. unfold Py.range. rewrite length_map, length_seq. reflexivity. Qed.

Lemma range_nth (lo hi : Z) (i : nat) :
  (i < Z.to_nat (hi - lo))%nat ->
  nth i (Py.range lo hi) 0 = lo + Z.of_nat i.
Proof.
  intros H. unfold Py.range.
  rewrite (nth_indep _ 0 (lo + Z.of_nat 0))
    by (rewrite length_map, length_seq; exact H).
  rewrite (map_nth (fun i => lo + Z.of_nat i)), seq_nth by exact H.
  reflexivity.
Qed.

(** Inside the read, the slice [read[i:i+k]] is the substring of [k]
    characters at offset [i]. *)
Lemma str_slice_inside (read : string) (i k : Z) :
  0 <= i -> 0 <= k -> i + k <= Py.len_str read ->
  Py.str_slice read i (i + k) = substring (Z.to_nat i) (Z.to_nat k) read.
Proof.
  intros Hi Hk Hik. unfold Py.str_slice, Py.clamp, Py.len_str in *.
  destruct (Z.ltb_spec i 0); [lia |].
  destruct (Z.ltb_spec (i + k) 0); [lia |].
  rewrite !Z.min_l by lia.
  replace (i + k - i) with k by lia. reflexivity.
Qed.

Lemma cut_kmer_length (read : string) (k : Z) :
  List.length (cut_kmer read k) = Z.to_nat (Py.len_str read - k + 1).
Proof.
  unfold cut_kmer. rewrite length_map, range_length. f_equal. lia.
Qed.

Lemma cut_kmer_nth (read : string) (k : Z) (i : nat) :
  1 <= k ->
  (i < List.length (cut_kmer read k))%nat ->
  nth i (cut_kmer read k) EmptyString = substring i (Z.to_nat k) read.
Proof.
  intros Hk Hi. rewrite cut_kmer_length in Hi. unfold cut_kmer.
  rewrite (nth_indep _ EmptyString (Py.str_slice read 0 (0 + k)))
    by (rewrite length_map, range_length; lia).
  rewrite (map_nth (fun i => Py.str_slice read i (i + k))).
  rewrite range_nth by lia.
  rewrite str_slice_inside by lia.
  f_equal. lia.
Qed.

End CutKmer.

(** C8.  For a read of length [L] and [1 <= k <= L], [cut_kmer] yields
    [L - k + 1] k-mers; the [i]-th is the substring of [k] characters at
    offset [i], so the k-mers come in offset order and each has length [k];
    the last [k - 1] characters of a k-mer are the first [k - 1] of the
    next.  For [k > L] it yields nothing. *)
Theorem cut_kmer_spec (read : string) (k : Z) :
  (1 <= k <= Py.len_str read ->
   Py.len (cut_kmer read k) = Py.len_str read - k + 1 /\
   (forall i, (i < List.length (cut_kmer read k))%nat ->
      nth i (cut_kmer read k) EmptyString = substring i (Z.to_nat k) read /\
      Py.len_str (nth i (cut_kmer read k) EmptyString) = k) /\
   (forall i, (S i < List.length (cut_kmer read k))%nat ->
      substring 1 (Z.to_nat (k - 1)) (nth i (cut_kmer read k) EmptyString) =
      substring 0 (Z.to_nat (k - 1)) (nth (S i) (cut_kmer read k) EmptyString)))
  /\
  (Py.len_str read < k -> cut_kmer read k = []).
Proof.
  split.
  - intros Hk.
    assert (Hlen : List.length (cut_kmer read k)
                   = Z.to_nat (Py.len_str read - k + 1))
      by apply cut_kmer_length.
    split; [| split].
    + unfold Py.len. rewrite Hlen. lia.
    + intros i Hi. rewrite cut_kmer_nth by lia. split; [reflexivity |].
      unfold Py.len_str in *. rewrite substring_length by lia. lia.
    + intros i Hi. rewrite !cut_kmer_nth by lia.
      rewrite !substring_substring by lia.
      f_equal. lia.
  - intros Hk. apply length_zero_iff_nil. rewrite cut_kmer_length. lia.
Qed.

Lemma cut_kmer_spec_witness :
  (Py.len (cut_kmer "ACGTA" 3) = 3 /\
   (forall i, (i < List.length (cut_kmer "ACGTA" 3))%nat ->
      nth i (cut_kmer "ACGTA" 3) EmptyString = substring i 3 "ACGTA" /\
      Py.len_str (nth i (cut_kmer "ACGTA" 3) EmptyString) = 3) /\
   (forall i, (S i < List.length (cut_kmer "ACGTA" 3))%nat ->
      substring 1 2 (nth i (cut_kmer "ACGTA" 3) EmptyString) =
      substring 0 2 (nth (S i) (cut_kmer "ACGTA" 3) EmptyString)))
  /\ cut_kmer "AC" 3 = [].
Proof.
  split.
  - apply (proj1 (cut_kmer_spec "ACGTA" 3)). vm_compute. split; discriminate.
  - apply (proj2 (cut_kmer_spec "AC" 3)). reflexivity.
Defined.

Example cut_kmer_ex1 :
  cut_kmer "ACGTA" 3 = ["ACG"; "CGT"; "GTA"].
Proof. reflexivity. Qed.

(** ** ContigAssembler *)

Section Contigs.

Lemma extend_contig_ok (rest : list node) :
  forall contig,
    Forall (fun kmer => kmer <> EmptyString) rest ->
    exists c, extend_contig contig rest = Ok c /\
              String.length c
              = (String.length contig + List.length rest)%nat.
Proof.
  induction rest as [| kmer rest IH]; intros contig Hne.
  - exists contig. split; [reflexivity | simpl; lia].
  - inversion Hne as [| ? ? Hk Hrest]; subst.
    destruct (last_char_some Hk) as [ch Hch].
    destruct (IH (contig ++ String ch EmptyString)%string Hrest) as [c [Hc Hl]].
    exists c. split.
    + simpl. rewrite Hch. simpl. exact Hc.
    + rewrite Hl, length_append. simpl. lia.
Qed.

(** On a path without repeated node whose nodes all have the same length,
    no node after the first is the empty string. *)
Lemma simple_path_tail_nonempty (n0 : node) (rest : list node) (m : nat) :
  NoDup (n0 :: rest) ->
  Forall (fun x => String.length x = m) (n0 :: rest) ->
  Forall (fun kmer => kmer <> EmptyString) rest.
Proof.
  intros Hnd Hlen. inversion Hnd as [| ? ? Hnotin _]; subst.
  inversion Hlen as [| ? ? H0 Hrest]; subst.
  rewrite Forall_forall in *. intros x Hx Hempty. subst x.
  specialize (Hrest _ Hx). simpl in Hrest.
  destruct n0; simpl in Hrest; [contradiction | discriminate].
Qed.

Lemma contigs_of_paths_inv (paths : list (list node)) :
  forall acc l,
    Forall entry_ok acc ->
    contigs_of_paths paths acc = Ok l -> Forall entry_ok l.
Proof.
  induction paths as [| n paths IH]; intros acc l Hacc H; simpl in H.
  - inversion H; subst. exact Hacc.
  - destruct (contig_of_path n) as [contig |]; simpl in H; [| discriminate].
    refine (IH _ _ _ H). apply Forall_app. split; [exact Hacc |].
    constructor; [reflexivity | constructor].
Qed.

Lemma contigs_from_inv (g : DiGraph) (st : node) (ends : list node) :
  forall acc l,
    Forall entry_ok acc ->
    contigs_from g st ends acc = Ok l -> Forall entry_ok l.
Proof.
  induction ends as [| en ends IH]; intros acc l Hacc H; simpl in H.
  - inversion H; subst. exact Hacc.
  - destruct (NX.has_path g st en) as [[|] |]; simpl in H;
      try discriminate.
    + destruct (NX.all_simple_paths g st en) as [paths |]; simpl in H;
        [| discriminate].
      destruct (contigs_of_paths paths acc) as [acc' |] eqn:Hp; simpl in H;
        [| discriminate].
      exact (IH _ _ (contigs_of_paths_inv _ Hacc Hp) H).
    + inversion H; subst. exact Hacc.
Qed.

Lemma contigs_loop_inv (g : DiGraph) (starts ends : list node) :
  forall acc l,
    Forall entry_ok acc ->
    contigs_loop g starts ends acc = Ok l -> Forall entry_ok l.
Proof.
  induction starts as [| st starts IH]; intros acc l Hacc H; simpl in H.
  - inversion H; subst. exact Hacc.
  - destruct (contigs_from g st ends acc) as [acc' |] eqn:Hf; simpl in H;
      [| discriminate].
    exact (IH _ _ (contigs_from_inv _ _ _ Hacc Hf) H).
Qed.

End Contigs.

(** C9.  Along a simple path of [n >= 1] nodes, each of length [k - 1], the
    contig is built without error, it is the entry that the loop of
    [get_contigs] appends for the path, and its length is
    [(k - 1) + (n - 1)]. *)
Theorem contig_length (path : list node) (k : Z) :
  NoDup path ->
  path <> [] ->
  Forall (fun x => Py.len_str x = k - 1) path ->
  exists contig,
    contig_of_path path = Ok contig /\
    (forall acc, contigs_of_paths [path] acc
                 = Ok (acc ++ [(contig, (k - 1) + (Py.len path - 1))])) /\
    Py.len_str contig = (k - 1) + (Py.len path - 1).
Proof.
  intros Hnd Hne Hlen.
  destruct path as [| n0 rest]; [congruence |].
  assert (Hlen' : Forall (fun x => String.length x = String.length n0)
                         (n0 :: rest)).
  { inversion Hlen as [| ? ? H0 _]; subst.
    eapply Forall_impl; [| exact Hlen].
    unfold Py.len_str in *. intros a Ha. simpl in Ha. lia. }
  pose proof (simple_path_tail_nonempty Hnd Hlen') as Htail.
  destruct (extend_contig_ok n0 Htail) as [c [Hc Hl]].
  assert (Hsize : Py.len_str c = (k - 1) + (Py.len (n0 :: rest) - 1)).
  { inversion Hlen as [| ? ? H0 _]; subst.
    unfold Py.len_str, Py.len in *. rewrite Hl. simpl List.length. lia. }
  exists c. split; [exact Hc | split; [| exact Hsize]].
  intros acc. simpl. unfold contig_of_path in Hc. simpl. rewrite Hc. simpl.
  rewrite Hsize. reflexivity.
Qed.

Lemma contig_length_witness :
  exists contig,
    contig_of_path ["ACG"; "CGT"; "GTT"] = Ok contig /\
    (forall acc, contigs_of_paths [["ACG"; "CGT"; "GTT"]] acc
                 = Ok (acc ++ [(contig,
                                (4 - 1) + (Py.len ["ACG"; "CGT"; "GTT"] - 1))]))
    /\ Py.len_str contig = (4 - 1) + (Py.len ["ACG"; "CGT"; "GTT"] - 1).
Proof.
  apply (@contig_length ["ACG"; "CGT"; "GTT"] 4).
  - repeat constructor; simpl; intuition discriminate.
  - discriminate.
  - repeat constructor.
Defined.

(** C10.  Every entry of the list that [get_contigs] returns pairs a string
    with the length of that string. *)
Theorem get_contigs_lengths (graph : DiGraph)
        (starting_nodes ending_nodes : list node) (l : list contig_entry) :
  get_contigs graph starting_nodes ending_nodes = Ok l ->
  Forall (fun e => snd e = Py.len_str (fst e)) l.
Proof.
  intros H. unfold get_contigs in H.
  exact (contigs_loop_inv _ _ _ (Forall_nil _) H).
Qed.

Example two_reads_built :
  build_graph (build_kmer_dict ["ACG"; "TTA"] 3) = Sample.two_reads.
Proof. reflexivity. Qed.

Example bubble_built :
  build_graph (build_kmer_dict ["TACGAT"; "TACGAT"; "TACCAT"] 3)
  = Sample.bubble.
Proof. reflexivity. Qed.

Example entry_tip_built :
  build_graph (build_kmer_dict ["ACGTA"; "ACGTA"; "TCGT"] 3)
  = Sample.entry_tip.
Proof. reflexivity. Qed.

Example shortcut_built :
  build_graph (build_kmer_dict ["ACG"; "ACG"; "AG"] 2) = Sample.shortcut.
Proof. reflexivity. Qed.

Lemma get_contigs_lengths_witness :
  get_contigs Sample.bubble ["TA"] ["AT"]
  = Ok [("TACGAT", 6); ("TACCAT", 6)] /\
  Forall (fun e => snd e = Py.len_str (fst e))
         [("TACGAT", 6); ("TACCAT", 6)].
Proof.
  split; [reflexivity |].
  apply (@get_contigs_lengths Sample.bubble ["TA"] ["AT"]). reflexivity.
Defined.

(** C5.  In [Sample.two_reads] the start TT reaches the sink TA, by the one
    path TT -> TA; [get_contigs] returns the contig of AC -> CG only: for
    TT the loop over the sinks stops at CG, which TT does not reach, and
    never comes to TA. *)
Theorem get_contigs_skips_reachable_sink :
  get_starting_nodes Sample.two_reads = ["AC"; "TT"] /\
  get_sink_nodes Sample.two_reads = ["CG"; "TA"] /\
  NX.has_path Sample.two_reads "TT" "CG" = Ok false /\
  NX.has_path Sample.two_reads "TT" "TA" = Ok true /\
  NX.all_simple_paths Sample.two_reads "TT" "TA" = Ok [["TT"; "TA"]] /\
  get_contigs Sample.two_reads ["AC"; "TT"] ["CG"; "TA"] = Ok [("ACG", 3)] /\
  get_contigs Sample.two_reads ["TT"] ["TA"] = Ok [("TTA", 3)].
Proof. repeat split; reflexivity. Qed.

(** ** The graph library *)

Section GraphFacts.

Lemma mem_In (n : node) (l : list node) : NX.mem n l = true <-> In n l.
Proof.
  unfold NX.mem. rewrite existsb_exists. split.
  - intros [x [Hx Heq]]. apply String.eqb_eq in Heq. subst. exact Hx.
  - intros H. exists n. split; [exact H | apply String.eqb_refl].
Qed.

Lemma mem_false (n : node) (l : list node) :
  NX.mem n l = false <-> ~ In n l.
Proof.
  rewrite <- mem_In. destruct (NX.mem n l); split; congruence.
Qed.

Lemma has_node_In (g : DiGraph) (n : node) :
  NX.has_node g n = true <-> In n (NX.nodes g).
Proof. apply mem_In. Qed.

Lemma In_nodes_remove_node (g : DiGraph) (n v : node) :
  In v (NX.nodes (NX.remove_node g n)) <-> In v (NX.nodes g) /\ v <> n.
Proof.
  unfold NX.nodes, NX.remove_node. rewrite map_map. cbn [fst].
  rewrite !in_map_iff. split.
  - intros [[u a] [Hu Hin]]. cbn [fst] in *. subst u.
    apply filter_In in Hin. destruct Hin as [Hin Hne]. cbn [fst] in Hne.
    split.
    + exists (v, a). split; [reflexivity | exact Hin].
    + intros ->. rewrite String.eqb_refl in Hne. discriminate.
  - intros [[[u a] [Hu Hin]] Hne]. cbn [fst] in *. subst u.
    exists (v, a). split; [reflexivity |].
    apply filter_In. split; [exact Hin |]. cbn [fst].
    apply String.eqb_neq in Hne. rewrite Hne. reflexivity.
Qed.

(** [remove_nodes_from] removes the listed nodes and no other. *)
Lemma In_nodes_remove_nodes_from (ns : list node) :
  forall (g : DiGraph) (v : node),
    In v (NX.nodes (NX.remove_nodes_from g ns))
    <-> In v (NX.nodes g) /\ ~ In v ns.
Proof.
  induction ns as [| n ns IH]; intros g v; unfold NX.remove_nodes_from.
  - simpl. tauto.
  - cbn [fold_left]. fold (NX.remove_nodes_from (NX.remove_node g n) ns).
    rewrite IH, In_nodes_remove_node. simpl.
    split; intros H; intuition congruence.
Qed.

Lemma filter_filter {A : Type} (f h : A -> bool) (l : list A) :
  filter f (filter h l) = filter (fun x => h x && f x) l.
Proof.
  induction l as [| x l IH]; simpl; [reflexivity |].
  destruct (h x); simpl; [destruct (f x) |]; rewrite IH; reflexivity.
Qed.

Lemma adj_remove_node (g : DiGraph) (n u : node) :
  u <> n ->
  NX.adj (NX.remove_node g n) u
  = filter (fun vw => negb (String.eqb (fst vw) n)) (NX.adj g u).
Proof.
  intros Hne. unfold NX.remove_node.
  induction g as [| [x a] g IH]; [reflexivity |].
  cbn [filter fst NX.adj].
  destruct (String.eqb_spec x n) as [-> | Hxn]; cbn [negb].
  - rewrite IH. apply String.eqb_neq in Hne.
    rewrite String.eqb_sym, Hne. reflexivity.
  - cbn [map fst snd NX.adj].
    destruct (String.eqb x u); [reflexivity | exact IH].
Qed.

(** The edges out of a node that stays are its edges to the nodes that
    stay, with their weights and in their order. *)
Lemma adj_remove_nodes_from (ns : list node) :
  forall (g : DiGraph) (u : node),
    ~ In u ns ->
    NX.adj (NX.remove_nodes_from g ns) u
    = filter (fun vw => negb (NX.mem (fst vw) ns)) (NX.adj g u).
Proof.
  induction ns as [| n ns IH]; intros g u Hu; unfold NX.remove_nodes_from.
  - simpl. induction (NX.adj g u) as [| x l IHl]; simpl; congruence.
  - cbn [fold_left]. fold (NX.remove_nodes_from (NX.remove_node g n) ns).
    simpl in Hu.
    rewrite IH by tauto. rewrite adj_remove_node by (intros ->; tauto).
    rewrite filter_filter. apply filter_ext. intros [v w]. cbn [fst].
    unfold NX.mem. cbn [existsb]. rewrite negb_orb. reflexivity.
Qed.

Lemma remove_nodes_from_app (a b : list node) (g : DiGraph) :
  NX.remove_nodes_from g (a ++ b)
  = NX.remove_nodes_from (NX.remove_nodes_from g a) b.
Proof. unfold NX.remove_nodes_from. apply fold_left_app. Qed.

Lemma has_edge_remove_nodes_from (g : DiGraph) (ns : list node)
      (u v : node) :
  ~ In u ns -> ~ In v ns ->
  NX.has_edge (NX.remove_nodes_from g ns) u v = NX.has_edge g u v.
Proof.
  intros Hu Hv. unfold NX.has_edge, NX.successors.
  rewrite adj_remove_nodes_from by exact Hu.
  apply mem_false in Hv.
  induction (NX.adj g u) as [| [x w] l IH]; [reflexivity |].
  cbn [filter fst].
  destruct (NX.mem x ns) eqn:Hx; cbn [negb map fst NX.mem existsb].
  - fold (NX.mem v (map fst (filter
             (fun vw => negb (NX.mem (fst vw) ns)) l))).
    fold (NX.mem v (map fst l)). rewrite IH.
    destruct (String.eqb_spec v x) as [-> | _]; [congruence | reflexivity].
  - fold (NX.mem v (map fst (filter
             (fun vw => negb (NX.mem (fst vw) ns)) l))).
    fold (NX.mem v (map fst l)). rewrite IH. reflexivity.
Qed.

(** A walk that avoids the removed nodes is still a walk. *)
Lemma is_path_remove_nodes_from (g : DiGraph) (ns : list node)
      (path : list node) :
  is_path g path = true ->
  (forall v, In v path -> ~ In v ns) ->
  is_path (NX.remove_nodes_from g ns) path = true.
Proof.
  induction path as [| u rest IH]; intros Hp Hav; [reflexivity |].
  cbn [is_path] in *. apply andb_true_iff in Hp. destruct Hp as [Hn Hr].
  apply andb_true_iff. split.
  - apply has_node_In, In_nodes_remove_nodes_from.
    split; [apply has_node_In; exact Hn | apply Hav; left; reflexivity].
  - destruct rest as [| v rest']; [reflexivity |].
    apply andb_true_iff in Hr. destruct Hr as [He Hr].
    apply andb_true_iff. split.
    + rewrite has_edge_remove_nodes_from; [exact He | |];
        apply Hav; simpl; tauto.
    + apply IH; [exact Hr |]. intros x Hx. apply Hav. right. exact Hx.
Qed.

(** A walk through a removed node is no walk any more. *)
Lemma is_path_through_removed (g : DiGraph) (ns : list node)
      (path : list node) (v : node) :
  In v path -> In v ns ->
  is_path (NX.remove_nodes_from g ns) path = false.
Proof.
  induction path as [| u rest IH]; intros Hv Hns; [contradiction |].
  cbn [is_path].
  destruct (NX.has_node (NX.remove_nodes_from g ns) u) eqn:Hu;
    [| reflexivity].
  apply has_node_In, In_nodes_remove_nodes_from in Hu.
  destruct Hv as [-> | Hv]; [tauto |].
  cbn [andb]. destruct rest as [| x rest']; [contradiction |].
  rewrite (IH Hv Hns). apply andb_false_r.
Qed.

End GraphFacts.

(** ** PathResolver: removal of paths *)

Section RemovePaths.

Lemma slice_from_1_tl {A : Type} (l : list A) : Py.slice_from_1 l = tl l.
Proof.
  unfold Py.slice_from_1, Py.list_slice, Py.clamp.
  destruct l as [| a l]; [reflexivity |].
  cbn [List.length tl]. change (1 <? 0) with false. cbv iota.
  destruct (Z.ltb_spec (Z.of_nat (S (List.length l))) 0); [lia |].
  rewrite !Z.min_l by lia.
  change (Z.to_nat 1) with 1%nat. cbn [skipn].
  replace (Z.to_nat (Z.of_nat (S (List.length l)) - 1))
    with (List.length l) by lia.
  apply firstn_all.
Qed.

Lemma slice_to_m1_removelast {A : Type} (l : list A) :
  Py.slice_to_m1 l = removelast l.
Proof.
  unfold Py.slice_to_m1, Py.list_slice, Py.clamp.
  change (0 <? 0) with false. change (-1 <? 0) with true. cbv iota.
  rewrite Z.min_l by lia. change (Z.to_nat 0) with 0%nat. cbn [skipn].
  rewrite removelast_firstn_len. f_equal. lia.
Qed.

Lemma slice_1_to_m1_interior (l : list node) :
  Py.slice_1_to_m1 l = interior l.
Proof.
  unfold Py.slice_1_to_m1, Py.list_slice, Py.clamp, interior.
  change (1 <? 0) with false. change (-1 <? 0) with true. cbv iota.
  destruct l as [| a l]; [reflexivity |].
  cbn [List.length tl]. rewrite Z.min_l by lia.
  change (Z.to_nat 1) with 1%nat. cbn [skipn].
  rewrite removelast_firstn_len. f_equal. lia.
Qed.

(** The slice of a path that each pair of flags removes. *)
Lemma removed_nodes_eq (e s : bool) (path : list node) :
  removed_nodes e s path
  = match e, s with
    | true, true => path
    | true, false => removelast path
    | false, true => tl path
    | false, false => interior path
    end.
Proof.
  unfold removed_nodes.
  destruct e, s; cbn [andb negb];
    auto using slice_to_m1_removelast, slice_from_1_tl,
               slice_1_to_m1_interior.
Qed.

(** [remove_paths] is one [remove_nodes_from], of all the slices. *)
Lemma remove_paths_flat (pl : list (list node)) (e s : bool) :
  forall g,
    remove_paths g pl e s = NX.remove_nodes_from g (all_removed pl e s).
Proof.
  unfold remove_paths, all_removed.
  induction pl as [| p pl IH]; intros g; [reflexivity |].
  cbn [fold_left flat_map]. rewrite IH, remove_nodes_from_app.
  reflexivity.
Qed.

Lemma In_all_removed (pl : list (list node)) (e s : bool) (v : node) :
  In v (all_removed pl e s)
  <-> exists q, In q pl /\ In v (removed_nodes e s q).
Proof. unfold all_removed. apply in_flat_map. Qed.

Lemma In_removelast {A : Type} (l : list A) (x : A) :
  In x (removelast l) -> In x l.
Proof.
  induction l as [| a l IH]; [contradiction |].
  destruct l as [| b l]; [contradiction |].
  cbn [removelast]. intros [-> | H]; [left; reflexivity |].
  right. apply IH. exact H.
Qed.

Lemma In_tl {A : Type} (l : list A) (x : A) : In x (tl l) -> In x l.
Proof. destruct l; [contradiction | intros H; right; exact H]. Qed.

(** The interior of a path is in each of the four slices. *)
Lemma interior_removed (e s : bool) (path : list node) (v : node) :
  In v (interior path) -> In v (removed_nodes e s path).
Proof.
  rewrite removed_nodes_eq. unfold interior. intros H.
  destruct e, s.
  - apply In_tl, In_removelast. exact H.
  - destruct path as [| a l]; [contradiction |]. cbn [tl] in H.
    destruct l as [| b l]; [contradiction |].
    right. exact H.
  - apply In_removelast. exact H.
  - exact H.
Qed.

Lemma hd_In_removelast (path : list node) :
  (2 <= List.length path)%nat -> In (hd EmptyString path) (removelast path).
Proof.
  destruct path as [| a [| b l]]; simpl; try lia. intros _. tauto.
Qed.

Lemma last_In_tl (path : list node) :
  (2 <= List.length path)%nat -> In (last path EmptyString) (tl path).
Proof.
  destruct path as [| a [| b l]]; cbn [List.length]; try lia. intros _.
  cbn [tl].
  change (last (a :: b :: l) EmptyString) with (last (b :: l) EmptyString).
  generalize b. induction l as [| c l IH]; intros b0.
  - left. reflexivity.
  - right. apply (IH c).
Qed.

End RemovePaths.

(** C3, as the code has it.  [remove_paths] removes from the graph the
    nodes of one slice of every listed path, the slice that the flags
    select ([path[1:-1]], [path[:-1]], [path[1:]] or [path]), and nothing
    else: every other node remains, with the edges between the nodes that
    remain and their weights.  So the interior nodes of every listed path
    are removed whatever the flags; of a listed path of two nodes or more
    the first node is removed when [delete_entry_node] is true and the last
    node when [delete_sink_node] is true; with both flags true every node
    of every listed path is removed; with both flags false a node of the
    graph, an end of a path for one, remains unless it is an interior node
    of a listed path. *)
Theorem remove_paths_contract (graph : DiGraph)
        (path_list : list (list node))
        (delete_entry_node delete_sink_node : bool) :
  let graph' :=
    remove_paths graph path_list delete_entry_node delete_sink_node in
  let removed := all_removed path_list delete_entry_node delete_sink_node in
  (forall v, In v removed
             <-> exists path,
                   In path path_list /\
                   In v (match delete_entry_node, delete_sink_node with
                         | true, true => path
                         | true, false => removelast path
                         | false, true => tl path
                         | false, false => interior path
                         end)) /\
  (forall v, In v (NX.nodes graph')
             <-> In v (NX.nodes graph) /\ ~ In v removed) /\
  (forall u, In u (NX.nodes graph') ->
             NX.adj graph' u
             = filter (fun vw => negb (NX.mem (fst vw) removed))
                      (NX.adj graph u)) /\
  (forall path v, In path path_list -> In v (interior path) ->
                  ~ In v (NX.nodes graph')) /\
  (forall path, In path path_list -> (2 <= List.length path)%nat ->
                (delete_entry_node = true ->
                 ~ In (hd EmptyString path) (NX.nodes graph')) /\
                (delete_sink_node = true ->
                 ~ In (last path EmptyString) (NX.nodes graph'))) /\
  (delete_entry_node = true -> delete_sink_node = true ->
   forall path v, In path path_list -> In v path ->
                  ~ In v (NX.nodes graph')) /\
  (delete_entry_node = false -> delete_sink_node = false ->
   forall v, In v (NX.nodes graph) ->
             (forall q, In q path_list -> ~ In v (interior q)) ->
             In v (NX.nodes graph')).
Proof.
  intros graph' removed.
  assert (Hremoved :
            forall v, In v removed
                      <-> exists path,
                            In path path_list /\
                            In v (match delete_entry_node, delete_sink_node
                                  with
                                  | true, true => path
                                  | true, false => removelast path
                                  | false, true => tl path
                                  | false, false => interior path
                                  end)).
  { intros v. unfold removed. rewrite In_all_removed.
    split; intros [path [Hin Hv]]; exists path; split; try exact Hin.
    - rewrite removed_nodes_eq in Hv. exact Hv.
    - rewrite removed_nodes_eq. exact Hv. }
  assert (Hnodes : forall v, In v (NX.nodes graph')
                             <-> In v (NX.nodes graph) /\ ~ In v removed).
  { intros v. unfold graph', removed. rewrite remove_paths_flat.
    apply In_nodes_remove_nodes_from. }
  assert (Hgone : forall path v,
             In path path_list ->
             In v (removed_nodes delete_entry_node delete_sink_node path) ->
             ~ In v (NX.nodes graph')).
  { intros path v Hin Hv Hg. apply Hnodes in Hg. destruct Hg as [_ Hg].
    apply Hg. apply In_all_removed. exists path. split; assumption. }
  split; [exact Hremoved |]. split; [exact Hnodes |].
  split; [| split; [| split; [| split]]].
  - intros u Hu. apply Hnodes in Hu. destruct Hu as [_ Hu].
    unfold graph', removed. rewrite remove_paths_flat.
    apply adj_remove_nodes_from. exact Hu.
  - intros path v Hin Hv. apply (Hgone path v Hin).
    apply interior_removed. exact Hv.
  - intros path Hin Hlen. split.
    + intros ->. apply (Hgone path _ Hin). rewrite removed_nodes_eq.
      destruct delete_sink_node.
      * destruct path; [simpl in Hlen; lia | left; reflexivity].
      * apply hd_In_removelast. exact Hlen.
    + intros ->. apply (Hgone path _ Hin). rewrite removed_nodes_eq.
      destruct delete_entry_node.
      * apply In_tl, last_In_tl. exact Hlen.
      * apply last_In_tl. exact Hlen.
  - intros -> -> path v Hin Hv. apply (Hgone path v Hin).
    rewrite removed_nodes_eq. exact Hv.
  - intros -> -> v Hv Hint. apply Hnodes. split; [exact Hv |].
    intros Hr. apply In_all_removed in Hr. destruct Hr as [q [Hq Hvq]].
    rewrite removed_nodes_eq in Hvq. exact (Hint q Hq Hvq).
Qed.

Lemma remove_paths_contract_witness :
  let path_list := [["AC"; "CC"; "CA"; "AT"]] in
  let graph' := remove_paths Sample.bubble path_list false false in
  ~ In "CC" (NX.nodes graph') /\
  In "AC" (NX.nodes graph') /\
  In "AT" (NX.nodes graph').
Proof.
  destruct (@remove_paths_contract
              Sample.bubble [["AC"; "CC"; "CA"; "AT"]] false false)
    as [_ [_ [_ [Hinterior [_ [_ Hends]]]]]].
  split; [| split].
  - apply (Hinterior ["AC"; "CC"; "CA"; "AT"] "CC").
    + left. reflexivity.
    + left. reflexivity.
  - apply (Hends eq_refl eq_refl "AC").
    + left. reflexivity.
    + intros q [<- | []] Hin. cbn in Hin. intuition discriminate.
  - apply (Hends eq_refl eq_refl "AT").
    + cbn. tauto.
    + intros q [<- | []] Hin. cbn in Hin. intuition discriminate.
Defined.

(** C3 as stated fails on two inputs.  With [delete_entry_node] true and
    [delete_sink_node] false, the first node of a listed path of one node
    is not removed.  With both flags false, an end of a listed path that is
    an interior node of another listed path does not remain. *)
Lemma remove_paths_contract_counterexample :
  (In ["AC"] [["AC"]] /\
   hd EmptyString ["AC"] = "AC" /\
   NX.has_node (remove_paths Sample.two_reads [["AC"]] true false) "AC"
   = true) /\
  (In ["CG"; "GA"; "AT"] [["AC"; "CG"; "GA"]; ["CG"; "GA"; "AT"]] /\
   hd EmptyString ["CG"; "GA"; "AT"] = "CG" /\
   NX.has_node Sample.bubble "CG" = true /\
   NX.has_node
     (remove_paths Sample.bubble
                   [["AC"; "CG"; "GA"]; ["CG"; "GA"; "AT"]] false false)
     "CG" = false).
Proof.
  split.
  - split; [left; reflexivity | split; reflexivity].
  - split; [right; left; reflexivity | repeat split; reflexivity].
Qed.

(** ** PathResolver: the selection policy *)

Section Selection.

Local Open Scope Q_scope.

Lemma fold_max_spec (l : list Q) :
  forall m0,
    let m := fold_left keep_max l m0 in
    (m = m0 \/ In m l) /\ m0 <= m /\ (forall x, In x l -> x <= m).
Proof.
  induction l as [| item l IH]; intros m0; cbn [fold_left].
  - split; [left; reflexivity |]. split; [apply Qle_refl |].
    intros x [].
  - destruct (IH (keep_max m0 item)) as [Hin [Hle Hall]].
    assert (Hstep : m0 <= keep_max m0 item /\ item <= keep_max m0 item).
    { unfold keep_max. destruct (Qle_bool item m0) eqn:Hb.
      - split; [apply Qle_refl | apply Qle_bool_iff; exact Hb].
      - split; [| apply Qle_refl].
        destruct (Qlt_le_dec m0 item) as [Hlt | Hge].
        + apply Qlt_le_weak. exact Hlt.
        + apply Qle_bool_iff in Hge. congruence. }
    destruct Hstep as [H0 Hitem].
    split; [| split].
    + destruct Hin as [Heq | Hin]; [| right; right; exact Hin].
      rewrite Heq. unfold keep_max.
      destruct (Qle_bool item m0); [left | right; left]; reflexivity.
    + eapply Qle_trans; [exact H0 | exact Hle].
    + intros x [<- | Hx]; [| apply Hall; exact Hx].
      eapply Qle_trans; [exact Hitem | exact Hle].
Qed.

(** [max] of a list that is not empty: one of its items, and no item is
    greater. *)
Lemma py_max_spec (l : list Q) :
  l <> [] ->
  exists m, py_max l = Ok m /\ In m l /\ (forall x, In x l -> x <= m).
Proof.
  destruct l as [| x l]; [congruence |]. intros _.
  destruct (fold_max_spec l x) as [Hin [Hle Hall]].
  exists (fold_left keep_max l x). split; [reflexivity |]. split.
  - destruct Hin as [-> | Hin]; [left; reflexivity | right; exact Hin].
  - intros y [<- | Hy]; [exact Hle | apply Hall; exact Hy].
Qed.

(** [index] of a value that the list holds: the first position of it. *)
Lemma py_index_spec (l : list Q) (v : Q) :
  In v l ->
  exists i : nat,
    py_index l v = Ok (Z.of_nat i) /\
    (i < List.length l)%nat /\
    nth i l 0 == v /\
    (forall j, (j < i)%nat -> ~ nth j l 0 == v).
Proof.
  induction l as [| x l IH]; intros Hin; [contradiction |].
  cbn [py_index]. destruct (Qeq_bool x v) eqn:Hx.
  - exists 0%nat. split; [reflexivity |]. split; [simpl; lia |].
    split; [apply Qeq_bool_iff; exact Hx | intros j Hj; lia].
  - assert (Hin' : In v l).
    { destruct Hin as [-> | Hin]; [| exact Hin].
      rewrite (proj2 (Qeq_bool_iff v v) (Qeq_refl v)) in Hx.
      discriminate. }
    destruct (IH Hin') as [i [Hi [Hlt [Hnth Hfirst]]]].
    exists (S i). split; [| split; [| split]].
    + rewrite Hi. cbn [bind]. f_equal. lia.
    + simpl. lia.
    + exact Hnth.
    + intros [| j] Hj; cbn [nth].
      * intros Heq. apply Qeq_bool_iff in Heq. congruence.
      * apply Hfirst. lia.
Qed.

Lemma del_nat_spec {A : Type} (l : list A) :
  forall i, (i < List.length l)%nat ->
            Py.del_nat l i = Ok (firstn i l ++ skipn (S i) l).
Proof.
  induction l as [| x l IH]; intros i Hi; [simpl in Hi; lia |].
  destruct i as [| i]; [reflexivity |].
  cbn [Py.del_nat]. rewrite IH by (simpl in Hi; lia). reflexivity.
Qed.

(** [del l[i]] inside the list. *)
Lemma del_spec {A : Type} (l : list A) (i : nat) :
  (i < List.length l)%nat ->
  Py.del l (Z.of_nat i) = Ok (firstn i l ++ skipn (S i) l).
Proof.
  intros Hi. unfold Py.del.
  destruct (Z.ltb_spec (Z.of_nat i) 0); [lia |].
  rewrite Nat2Z.id. apply del_nat_spec. exact Hi.
Qed.

(** [del] on the empty list raises, whatever the index. *)
Lemma del_nil {A : Type} (i : Z) : Py.del (@nil A) i = Err IndexError.
Proof.
  unfold Py.del. destruct (i <? 0)%Z; [| reflexivity].
  destruct (i + Py.len (@nil A) <? 0)%Z; reflexivity.
Qed.

(** With fewer than two values there is no standard deviation. *)
Lemma std_ok_length (data : list Q) (r : Stat.root) :
  std data = Ok r -> (2 <= List.length data)%nat.
Proof.
  unfold std, Stat.stdev, Stat.variance, Py.len.
  destruct (Z.ltb_spec (Z.of_nat (List.length data)) 2);
    [discriminate | lia].
Qed.

(** Every slice that [remove_paths] removes is made of nodes of the
    path. *)
Lemma removed_nodes_subset (e s : bool) (path : list node) (v : node) :
  In v (removed_nodes e s path) -> In v path.
Proof.
  rewrite removed_nodes_eq. unfold interior. destruct e, s; intros H.
  - exact H.
  - apply In_removelast. exact H.
  - apply In_tl. exact H.
  - apply In_tl, In_removelast. exact H.
Qed.

End Selection.

(** C1, as the code has it.  When the average weights have a standard
    deviation above 0, [select_best_path] keeps out of the removal the
    first path of greatest average weight, at [best_index], and hands the
    other candidates to [remove_paths]; the random generator is not used.
    The graph loses the slices of the other candidates that the flags
    select (their interior nodes, with the default flags) and nothing else.
    So the authoritative path is still a walk of the graph when none of its
    nodes is in such a slice, and another candidate is no walk of the graph
    any more as soon as its slice is not empty (with the default flags, as
    soon as it has three nodes or more). *)
Theorem select_best_path_by_weight {R : RandomSource} (graph : DiGraph)
        (path_list : list (list node)) (path_length : list Z)
        (weight_avg_list : list Q)
        (delete_entry_node delete_sink_node : bool) (rs : rng_state)
        (sw : Stat.root) :
  List.length path_list = List.length weight_avg_list ->
  std weight_avg_list = Ok sw ->
  Stat.gt_0 sw = true ->
  exists (best_index : nat) (m : Q),
    (best_index < List.length path_list)%nat /\
    py_max weight_avg_list = Ok m /\
    (forall x, In x weight_avg_list -> (x <= m)%Q) /\
    (nth best_index weight_avg_list 0 == m)%Q /\
    (forall j, (j < best_index)%nat -> ~ (nth j weight_avg_list 0 == m)%Q) /\
    let best := nth best_index path_list [] in
    let others :=
      firstn best_index path_list ++ skipn (S best_index) path_list in
    let graph' :=
      remove_paths graph others delete_entry_node delete_sink_node in
    let removed := all_removed others delete_entry_node delete_sink_node in
    select_best_path graph path_list path_length weight_avg_list
                     delete_entry_node delete_sink_node rs
    = (Ok graph', rs) /\
    (forall v, In v (NX.nodes graph')
               <-> In v (NX.nodes graph) /\ ~ In v removed) /\
    (is_path graph best = true ->
     (forall v, In v best -> ~ In v removed) ->
     is_path graph' best = true) /\
    (forall p, In p others ->
               removed_nodes delete_entry_node delete_sink_node p <> [] ->
               is_path graph' p = false) /\
    (delete_entry_node = false -> delete_sink_node = false ->
     forall p, In p others -> (3 <= List.length p)%nat ->
               is_path graph' p = false).
Proof.
  intros Hlen Hstd Hpos.
  pose proof (std_ok_length _ Hstd) as Hsize.
  assert (Hne : weight_avg_list <> [])
    by (destruct weight_avg_list; [simpl in Hsize; lia | discriminate]).
  destruct (py_max_spec Hne) as [m [Hmax [Hin Hall]]].
  destruct (py_index_spec _ _ Hin) as [i [Hidx [Hlt [Hnth Hfirst]]]].
  exists i, m.
  assert (Hdeleted :
            forall p,
              In p (firstn i path_list ++ skipn (S i) path_list) ->
              removed_nodes delete_entry_node delete_sink_node p <> [] ->
              is_path (remove_paths graph
                         (firstn i path_list ++ skipn (S i) path_list)
                         delete_entry_node delete_sink_node) p = false).
  { intros p Hp Hslice. rewrite remove_paths_flat.
    destruct (removed_nodes delete_entry_node delete_sink_node p)
      as [| v slice] eqn:Hs; [congruence |].
    assert (Hv : In v (removed_nodes delete_entry_node delete_sink_node p))
      by (rewrite Hs; left; reflexivity).
    apply (@is_path_through_removed _ _ _ v).
    - apply (removed_nodes_subset _ _ _ _ Hv).
    - apply In_all_removed. exists p. split; assumption. }
  split; [lia |]. split; [exact Hmax |]. split; [exact Hall |].
  split; [exact Hnth |]. split; [exact Hfirst |].
  cbv zeta. split; [| split; [| split; [| split]]].
  - unfold select_best_path. rewrite Hstd, Hpos, Hmax. cbn [bind].
    rewrite Hidx. cbn [bind]. unfold drop_best_and_remove.
    rewrite del_spec by lia. reflexivity.
  - intros v. rewrite remove_paths_flat.
    apply In_nodes_remove_nodes_from.
  - intros Hp Hav. rewrite remove_paths_flat.
    apply is_path_remove_nodes_from; assumption.
  - exact Hdeleted.
  - intros -> -> p Hp Hsize3. apply Hdeleted; [exact Hp |].
    rewrite removed_nodes_eq. unfold interior.
    destruct p as [| a [| b [| c p]]]; simpl in Hsize3; try lia.
    discriminate.
Qed.

Lemma select_best_path_by_weight_witness :
  exists (best_index : nat) (m : Q),
    (best_index
     < List.length [["AC"; "CG"; "GA"; "AT"]; ["AC"; "CC"; "CA"; "AT"]])%nat /\
    py_max [2; 1]%Q = Ok m /\
    (forall x, In x [2; 1]%Q -> (x <= m)%Q) /\
    (nth best_index [2; 1]%Q 0 == m)%Q /\
    (forall j, (j < best_index)%nat -> ~ (nth j [2; 1]%Q 0 == m)%Q) /\
    let path_list := [["AC"; "CG"; "GA"; "AT"]; ["AC"; "CC"; "CA"; "AT"]] in
    let best := nth best_index path_list [] in
    let others :=
      firstn best_index path_list ++ skipn (S best_index) path_list in
    let graph' := remove_paths Sample.bubble others false false in
    let removed := all_removed others false false in
    select_best_path (R := mersenne) Sample.bubble path_list [4; 4]%Z [2; 1]%Q
                     false false import_state
    = (Ok graph', import_state) /\
    (forall v, In v (NX.nodes graph')
               <-> In v (NX.nodes Sample.bubble) /\ ~ In v removed) /\
    (is_path Sample.bubble best = true ->
     (forall v, In v best -> ~ In v removed) ->
     is_path graph' best = true) /\
    (forall p, In p others ->
               removed_nodes false false p <> [] ->
               is_path graph' p = false) /\
    (false = false -> false = false ->
     forall p, In p others -> (3 <= List.length p)%nat ->
               is_path graph' p = false).
Proof.
  eapply (@select_best_path_by_weight
            mersenne Sample.bubble
            [["AC"; "CG"; "GA"; "AT"]; ["AC"; "CC"; "CA"; "AT"]]
            [4; 4]%Z [2; 1]%Q false false import_state).
  - reflexivity.
  - vm_compute. reflexivity.
  - reflexivity.
Defined.

(** C1 as stated fails on two inputs, both with two candidates whose
    average weights differ.  In [Sample.shortcut] the candidate A -> G has
    no interior node and is still in the graph after the call.  In
    [Sample.bubble], between TA and AT, the two candidates share the
    interior node AC, which goes with the weaker one: the path of greatest
    average weight is not in the graph after the call. *)
Lemma select_best_path_by_weight_counterexample :
  (NX.all_simple_paths Sample.shortcut "A" "G"
   = Ok [["A"; "C"; "G"]; ["A"; "G"]] /\
   path_average_weight Sample.shortcut ["A"; "C"; "G"] = Ok (5 # 3) /\
   path_average_weight Sample.shortcut ["A"; "G"] = Ok (1 # 1) /\
   bind (std [5 # 3; 1 # 1]) (fun r => Ok (Stat.gt_0 r)) = Ok true /\
   exists graph',
     fst (select_best_path (R := mersenne) Sample.shortcut
                           [["A"; "C"; "G"]; ["A"; "G"]] [3; 2]%Z
                           [5 # 3; 1 # 1] false false import_state)
     = Ok graph' /\
     is_path graph' ["A"; "G"] = true) /\
  (NX.all_simple_paths Sample.bubble "TA" "AT"
   = Ok [["TA"; "AC"; "CG"; "GA"; "AT"]; ["TA"; "AC"; "CC"; "CA"; "AT"]] /\
   path_average_weight Sample.bubble ["TA"; "AC"; "CG"; "GA"; "AT"]
   = Ok (9 # 4) /\
   path_average_weight Sample.bubble ["TA"; "AC"; "CC"; "CA"; "AT"]
   = Ok (6 # 4) /\
   bind (std [9 # 4; 6 # 4]) (fun r => Ok (Stat.gt_0 r)) = Ok true /\
   exists graph',
     fst (select_best_path (R := mersenne) Sample.bubble
                           [["TA"; "AC"; "CG"; "GA"; "AT"];
                            ["TA"; "AC"; "CC"; "CA"; "AT"]] [5; 5]%Z
                           [9 # 4; 6 # 4] false false import_state)
     = Ok graph' /\
     is_path Sample.bubble ["TA"; "AC"; "CG"; "GA"; "AT"] = true /\
     is_path graph' ["TA"; "AC"; "CG"; "GA"; "AT"] = false).
Proof.
  split.
  - repeat (split; [reflexivity |]).
    eexists. split; [vm_compute; reflexivity | reflexivity].
  - repeat (split; [reflexivity |]).
    eexists. split; [vm_compute; reflexivity | split; reflexivity].
Qed.

(** C4.  With an empty list of candidates [select_best_path] raises,
    whatever the other arguments: [StatisticsError] when the lists of
    lengths and weights are empty as well.  The graph is not touched.
    [remove_paths] alone, on an empty list, returns the graph as it is. *)
Theorem select_best_path_empty_raises {R : RandomSource} (graph : DiGraph)
        (path_length : list Z) (weight_avg_list : list Q)
        (delete_entry_node delete_sink_node : bool) (rs : rng_state) :
  (exists err rs',
      select_best_path graph [] path_length weight_avg_list
                       delete_entry_node delete_sink_node rs
      = (Err err, rs')) /\
  select_best_path graph [] [] [] delete_entry_node delete_sink_node rs
  = (Err StatisticsError, rs) /\
  remove_paths graph [] delete_entry_node delete_sink_node = graph.
Proof.
  split; [| split; reflexivity].
  assert (Hdrop : forall i,
             drop_best_and_remove graph [] i
                                  delete_entry_node delete_sink_node
             = Err IndexError).
  { intros i. unfold drop_best_and_remove. rewrite del_nil. reflexivity. }
  assert (Hby : forall l : list Q,
             exists err,
               (m <- py_max l ;; best_index <- py_index l m ;;
                drop_best_and_remove graph [] best_index
                                     delete_entry_node delete_sink_node)
               = Err err).
  { intros l. destruct (py_max l) as [m |]; cbn [bind]; [| eauto].
    destruct (py_index l m) as [i |]; cbn [bind]; [| eauto].
    rewrite Hdrop. eauto. }
  unfold select_best_path.
  destruct (std weight_avg_list) as [sw |]; [| eauto].
  destruct (Stat.gt_0 sw).
  - destruct (Hby weight_avg_list) as [err Herr]. rewrite Herr. eauto.
  - destruct (std (map inject_Z path_length)) as [sl |]; [| eauto].
    destruct (Stat.gt_0 sl).
    + destruct (Hby (map inject_Z path_length)) as [err Herr].
      rewrite Herr. eauto.
    + unfold randint. cbn. eauto.
Qed.

(** ** PathResolver: bubbles and tips *)

(** C2.  [simplify_bubbles] returns [None] and leaves every graph as it
    is: the two paths of the bubble of [Sample.bubble] between AC and AT
    are both there after the call.  [solve_bubble] raises [NameError] on
    every input, before it looks at the graph. *)
Theorem simplify_bubbles_keeps_bubble :
  (forall graph, simplify_bubbles graph = (PyNone, graph)) /\
  NX.all_simple_paths Sample.bubble "AC" "AT"
  = Ok [["AC"; "CG"; "GA"; "AT"]; ["AC"; "CC"; "CA"; "AT"]] /\
  NX.all_simple_paths (snd (simplify_bubbles Sample.bubble)) "AC" "AT"
  = Ok [["AC"; "CG"; "GA"; "AT"]; ["AC"; "CC"; "CA"; "AT"]] /\
  (forall graph ancestor_node descendant_node,
      solve_bubble graph ancestor_node descendant_node = Err NameError).
Proof. repeat split; reflexivity. Qed.

(** C6.  [solve_entry_tips] returns [None] and leaves every graph as it
    is.  In [Sample.entry_tip] the node TC has no predecessor, its path
    TC -> CG joins the main path at CG with average weight 1 against 2 for
    AC -> CG, and TC is still in the graph after the call.  The selection
    policy, called on the two paths with [delete_entry_node] true, does
    remove TC and keeps the junction CG. *)
Theorem solve_entry_tips_keeps_tip :
  (forall graph starting_nodes,
      solve_entry_tips graph starting_nodes = (PyNone, graph)) /\
  get_starting_nodes Sample.entry_tip = ["AC"; "TC"] /\
  path_average_weight Sample.entry_tip ["TC"; "CG"] = Ok (1 # 1) /\
  path_average_weight Sample.entry_tip ["AC"; "CG"] = Ok (2 # 1) /\
  NX.has_node (snd (solve_entry_tips Sample.entry_tip ["AC"; "TC"])) "TC"
  = true /\
  fst (select_best_path (R := mersenne) Sample.entry_tip
                        [["AC"; "CG"]; ["TC"; "CG"]] [2; 2]
                        [2 # 1; 1 # 1] true false import_state)
  = Ok [("AC", [("CG", 2)]); ("CG", [("GT", 3)]); ("GT", [("TA", 2)]);
        ("TA", [])].
Proof. repeat split; reflexivity. Qed.

(** ** PathResolver: determinism *)

Section Determinism.

Context {R : RandomSource}.

(** [randint(0, n - 1)] on a range that is not empty: one draw below
    [n]. *)
Lemma randint_below (n : Z) (rs : rng_state) :
  0 < n ->
  randint 0 (n - 1) rs
  = (Ok (fst (randbelow n rs)), snd (randbelow n rs)).
Proof.
  intros Hn. unfold randint.
  replace (n - 1 + 1 - 0) with n by lia.
  destruct (Z.ltb_spec 0 n); [| lia].
  destruct (randbelow n rs) as [r rs']. reflexivity.
Qed.


(** A call that comes to the tie-break draws once, below the number of
    candidates, spares the candidate at the position drawn and hands the
    others to [remove_paths]. *)
Lemma run_call_tie_break (c : call) (rs : rng_state) :
  reaches_tie_break c = true ->
  let draw := randbelow (Py.len (call_path_list c)) rs in
  let best_index := Z.to_nat (fst draw) in
  (best_index < List.length (call_path_list c))%nat /\
  run_call c rs
  = (Ok (remove_paths (call_graph c)
           (firstn best_index (call_path_list c)
            ++ skipn (S best_index) (call_path_list c))
           (call_delete_entry_node c) (call_delete_sink_node c)),
     snd draw).
Proof.
  intros H draw best_index.
  unfold reaches_tie_break in H. unfold run_call, select_best_path.
  destruct (std (call_weight_avg_list c)) as [sw |]; [| discriminate].
  destruct (std (map inject_Z (call_path_length c))) as [sl |];
    [| discriminate].
  apply andb_prop in H. destruct H as [H Hpos].
  apply andb_prop in H. destruct H as [Hw Hl].
  apply negb_true_iff in Hw, Hl. apply Z.ltb_lt in Hpos.
  rewrite Hw, Hl, (@randint_below _ rs Hpos). fold draw.
  pose proof (@randbelow_range R (Py.len (call_path_list c)) rs Hpos)
    as Hrange.
  fold draw in Hrange.
  assert (Hin : (best_index < List.length (call_path_list c))%nat)
    by (unfold best_index, Py.len in *; lia).
  split; [exact Hin |].
  cbn [bind]. unfold drop_best_and_remove.
  replace (fst draw) with (Z.of_nat best_index)
    by (unfold best_index; lia).
  rewrite del_spec by exact Hin. reflexivity.
Qed.





End Determinism.



(** The first tie-break after the import draws 0: the first candidate is
    spared and [CC] and [CA], of the second, are removed. *)
Example tie_break_seed_9001 :
  fst (select_best_path (R := mersenne) Sample.bubble
         [["AC"; "CG"; "GA"; "AT"]; ["AC"; "CC"; "CA"; "AT"]]
         [4; 4] [1 # 1; 1 # 1] false false import_state)
  = Ok [("AC", [("CG", 2)]); ("CG", [("GA", 2)]); ("GA", [("AT", 2)]);
        ("AT", []); ("TA", [("AC", 3)])].
Proof. vm_compute. reflexivity. Qed.

(** The draws of [randint(0, 1)], [randint(0, 2)] and [randint(0, 4)]
    that follow [random.seed(9001)]. *)
Example draws_seed_9001 :
  let draws (n : Z) (count : nat) :=
    fst (fold_left
           (fun acc _ =>
              let (r, rs) := randint (R := mersenne) 0 (n - 1) (snd acc) in
              (fst acc ++ [r], rs))
           (repeat tt count) ([], import_state)) in
  draws 2 8%nat = map Ok [0; 1; 1; 0; 1; 0; 1; 1] /\
  draws 3 8%nat = map Ok [0; 1; 1; 0; 2; 1; 2; 2] /\
  draws 5 8%nat = map Ok [0; 2; 2; 0; 4; 2; 4; 4].
Proof. vm_compute. repeat split; reflexivity. Qed.

(** The generator is one for the run: the same tied bubble, resolved
    twice in one run, keeps the first candidate the first time and the
    second candidate the second time. *)
Example tie_breaks_in_one_run :
  forall startup : Twister.state,
    let path_list := [["AC"; "CG"; "GA"; "AT"]; ["AC"; "CC"; "CA"; "AT"]] in
    let tie := Call Sample.bubble path_list [4; 4] [1 # 1; 1 # 1]
                    false false in
    fst (program_run (R := mersenne) startup [tie; tie])
    = [Ok (remove_paths Sample.bubble [["AC"; "CC"; "CA"; "AT"]]
                        false false);
       Ok (remove_paths Sample.bubble [["AC"; "CG"; "GA"; "AT"]]
                        false false)].
Proof. intros startup. vm_compute. reflexivity. Qed.

(** Without the seed of the import the outcome would depend on the state
    in which the generator starts. *)
Example unseeded_runs_differ :
  let tie := Call Sample.bubble
                  [["AC"; "CG"; "GA"; "AT"]; ["AC"; "CC"; "CA"; "AT"]]
                  [4; 4] [1 # 1; 1 # 1] false false in
  fst (resolution_run (R := mersenne) [tie] (Twister.seed 9001))
  <> fst (resolution_run (R := mersenne) [tie] (Twister.seed 5)).
Proof. vm_compute. discriminate. Qed.

(** ** ContigAssembler: when [get_contigs] returns *)

Section ContigsTotal.

Variable g : DiGraph.

(** No edge of the graph leads to the empty string. *)
Hypothesis successors_nonempty :
  forall x y, In y (NX.successors g x) -> y <> EmptyString.

(** A path that the enumeration yields extends the path so far, by nodes
    that are successors in the graph. *)
Lemma dfs_shape (cutoff : nat) :
  forall (target : node) (visited : list node) (u : node) (p : list node),
    In p (NX.dfs cutoff g target visited u) ->
    exists rest,
      p = visited ++ rest /\ Forall (fun v => v <> EmptyString) rest.
Proof.
  induction cutoff as [| c IH]; intros target visited u p Hp;
    [contradiction |].
  cbn [NX.dfs] in Hp. apply in_flat_map in Hp.
  destruct Hp as [child [Hchild Hp]].
  destruct (NX.mem child visited); [contradiction |].
  assert (Hne : child <> EmptyString)
    by (eapply successors_nonempty; exact Hchild).
  destruct (String.eqb child target).
  - destruct Hp as [<- | []]. exists [child]. split; [reflexivity |].
    constructor; [exact Hne | constructor].
  - destruct (IH _ _ _ _ Hp) as [rest [-> Hrest]].
    exists (child :: rest). split.
    + rewrite <- app_assoc. reflexivity.
    + constructor; assumption.
Qed.

Lemma contigs_of_paths_total (source : node) (paths : list (list node)) :
  Forall (fun p => exists rest,
              p = source :: rest /\ Forall (fun v => v <> EmptyString) rest)
         paths ->
  forall acc, exists l, contigs_of_paths paths acc = Ok l.
Proof.
  induction 1 as [| p paths [rest [-> Hrest]] _ IH]; intros acc.
  - exists acc. reflexivity.
  - destruct (extend_contig_ok source Hrest) as [c [Hc _]].
    cbn [contigs_of_paths contig_of_path]. rewrite Hc. cbn [bind].
    apply IH.
Qed.

Lemma contigs_from_total (st : node) (ends : list node) :
  NX.has_node g st = true ->
  Forall (fun n => NX.has_node g n = true) ends ->
  forall acc, exists l, contigs_from g st ends acc = Ok l.
Proof.
  intros Hst. induction 1 as [| en ends Hen _ IH]; intros acc.
  - exists acc. reflexivity.
  - cbn [contigs_from]. unfold NX.has_path, NX.all_simple_paths.
    rewrite Hst, Hen. cbn [negb bind].
    destruct (NX.mem en (NX.reach (List.length g) g [st]));
      cbn [negb]; [| exists acc; reflexivity].
    destruct (String.eqb st en); cbn [bind contigs_of_paths]; [apply IH |].
    destruct (@contigs_of_paths_total
                st (NX.dfs (List.length g - 1) g en [st] st)) with (acc := acc)
      as [acc' Hacc'].
    + apply Forall_forall. intros p Hp.
      destruct (dfs_shape _ _ _ _ _ Hp) as [rest [-> Hrest]].
      exists rest. split; [reflexivity | exact Hrest].
    + rewrite Hacc'. cbn [bind]. apply IH.
Qed.

(** [get_contigs] returns a list when the starting and ending nodes are
    nodes of the graph. *)
Lemma get_contigs_total (starts ends : list node) :
  Forall (fun n => NX.has_node g n = true) starts ->
  Forall (fun n => NX.has_node g n = true) ends ->
  exists l, get_contigs g starts ends = Ok l.
Proof.
  intros Hs He. unfold get_contigs. generalize (@nil contig_entry).
  induction Hs as [| st starts Hst _ IH]; intros acc.
  - exists acc. reflexivity.
  - cbn [contigs_loop].
    destruct (@contigs_from_total st ends Hst He acc) as [acc' Hacc'].
    rewrite Hacc'. cbn [bind]. apply IH.
Qed.

End ContigsTotal.

(* ================================================================== *)
(** * Further properties of the code *)

(** ** The read source *)

Section ReadFastq.

Lemma read_fastq_from_group (i : Z) (a b c d : string) (rest : list string) :
  i mod 4 = 0 ->
  read_fastq_from i (a :: b :: c :: d :: rest)
  = rstrip b :: read_fastq_from (i + 4) rest.
Proof.
  intros Hi. cbn [read_fastq_from].
  assert (H1 : ((i + 1) mod 2 =? 0) = false)
    by (apply Z.eqb_neq; Z.to_euclidean_division_equations; lia).
  assert (H2 : ((i + 1 + 1) mod 2 =? 0) = true)
    by (apply Z.eqb_eq; Z.to_euclidean_division_equations; lia).
  assert (H2' : ((i + 1 + 1) mod 4 =? 0) = false)
    by (apply Z.eqb_neq; Z.to_euclidean_division_equations; lia).
  assert (H3 : ((i + 1 + 1 + 1) mod 2 =? 0) = false)
    by (apply Z.eqb_neq; Z.to_euclidean_division_equations; lia).
  assert (H4 : ((i + 1 + 1 + 1 + 1) mod 4 =? 0) = true)
    by (apply Z.eqb_eq; Z.to_euclidean_division_equations; lia).
  rewrite H1, H2, H2', H3, H4. cbn [andb negb].
  rewrite andb_false_r. f_equal. f_equal. lia.
Qed.

Lemma read_fastq_from_short (i : Z) (lines : list string) :
  i mod 4 = 0 ->
  (List.length lines < 4)%nat ->
  read_fastq_from i lines
  = match lines with
    | _ :: b :: _ => [rstrip b]
    | _ => []
    end.
Proof.
  intros Hi Hlen.
  assert (H1 : ((i + 1) mod 2 =? 0) = false)
    by (apply Z.eqb_neq; Z.to_euclidean_division_equations; lia).
  assert (H2 : ((i + 1 + 1) mod 2 =? 0) = true)
    by (apply Z.eqb_eq; Z.to_euclidean_division_equations; lia).
  assert (H2' : ((i + 1 + 1) mod 4 =? 0) = false)
    by (apply Z.eqb_neq; Z.to_euclidean_division_equations; lia).
  assert (H3 : ((i + 1 + 1 + 1) mod 2 =? 0) = false)
    by (apply Z.eqb_neq; Z.to_euclidean_division_equations; lia).
  destruct lines as [| a [| b [| c [| d rest]]]]; cbn [read_fastq_from];
    rewrite ?H1, ?H2, ?H2', ?H3; cbn [andb negb]; try reflexivity.
  simpl in Hlen. lia.
Qed.

Lemma read_fastq_from_nth (k : nat) :
  forall (i : Z) (lines : list string),
    i mod 4 = 0 ->
    nth_error (read_fastq_from i lines) k
    = option_map rstrip (nth_error lines (4 * k + 1)).
Proof.
  induction k as [| k IH]; intros i lines Hi.
  - destruct lines as [| a [| b [| c [| d rest]]]];
      try (rewrite read_fastq_from_short by (simpl; lia || exact Hi);
           reflexivity).
    rewrite read_fastq_from_group by exact Hi. reflexivity.
  - destruct lines as [| a [| b [| c [| d rest]]]];
      try (rewrite read_fastq_from_short by (simpl; lia || exact Hi);
           rewrite (proj2 (nth_error_None _ (4 * S k + 1)))
             by (simpl; lia);
           destruct k; reflexivity).
    rewrite read_fastq_from_group by exact Hi.
    cbn [nth_error]. rewrite IH
      by (Z.to_euclidean_division_equations; lia).
    replace (4 * S k + 1)%nat with (S (S (S (S (4 * k + 1))))) by lia.
    reflexivity.
Qed.

End ReadFastq.

(** X1.  [read_fastq] yields the second line of every group of four lines,
    the groups taken from the first line on, each without its trailing
    white space: its read number [k] (from 0) is line number [4k + 1] (from
    0) of the file, and there is no read number [k] when the file has no
    such line. *)
Theorem read_fastq_lines (lines : list string) (k : nat) :
  nth_error (read_fastq lines) k
  = option_map rstrip (nth_error lines (4 * k + 1)).
Proof. apply read_fastq_from_nth. reflexivity. Qed.

(** [rstrip] cuts a run of white space off the end of the string and
    nothing else, and what it leaves does not end in white space. *)
Lemma rstrip_cut (s : string) :
  exists ws,
    s = (rstrip s ++ ws)%string /\
    all_space ws = true /\
    (forall c, Py.last_char (rstrip s) = Ok c -> is_space c = false).
Proof.
  induction s as [| c s [ws [Heq [Hws Hlast]]]].
  - exists EmptyString. repeat split. intros c H. discriminate.
  - cbn [rstrip]. destruct (rstrip s) as [| c' r] eqn:Hr.
    + destruct (is_space c) eqn:Hc.
      * exists (String c ws). split; [| split].
        -- cbn. rewrite Heq at 1. reflexivity.
        -- cbn. rewrite Hc, Hws. reflexivity.
        -- intros x H. discriminate.
      * exists ws. split; [| split].
        -- cbn. rewrite Heq at 1. reflexivity.
        -- exact Hws.
        -- intros x H. cbn in H. inversion H; subst. exact Hc.
    + exists ws. split; [| split].
      * cbn. rewrite Heq at 1. reflexivity.
      * exact Hws.
      * intros x H. apply Hlast. exact H.
Qed.

(** X2.  Every read that [read_fastq] yields is a line of the file without
    a run of white space at its end, and does not end in white space. *)
Theorem read_fastq_stripped (lines : list string) (read : string) :
  In read (read_fastq lines) ->
  exists line ws,
    In line lines /\
    line = (read ++ ws)%string /\
    all_space ws = true /\
    (forall c, Py.last_char read = Ok c -> is_space c = false).
Proof.
  intros Hin. apply In_nth_error in Hin. destruct Hin as [k Hk].
  unfold read_fastq in Hk. rewrite read_fastq_from_nth in Hk by reflexivity.
  destruct (nth_error lines (4 * k + 1)) as [line |] eqn:Hline;
    [| discriminate].
  cbn [option_map] in Hk. inversion Hk; subst read.
  destruct (rstrip_cut line) as [ws [Heq [Hws Hlast]]].
  exists line, ws. split; [| tauto].
  apply (nth_error_In _ _ Hline).
Qed.

Lemma read_fastq_stripped_witness :
  exists line ws,
    In line ["@r1"; "TACGAT  "; "+"; "IIIIII"] /\
    line = ("TACGAT" ++ ws)%string /\
    all_space ws = true /\
    (forall c, Py.last_char "TACGAT" = Ok c -> is_space c = false).
Proof.
  apply (@read_fastq_stripped ["@r1"; "TACGAT  "; "+"; "IIIIII"] "TACGAT").
  left. reflexivity.
Defined.

(** ** The table of k-mers *)

Section KmerDict.

Lemma dict_get_In (d : list (string * Z)) (key : string) (v : Z) :
  NoDup (map fst d) ->
  (In (key, v) d <-> dict_get d key = Some v).
Proof.
  induction d as [| [k x] d IH]; intros Hnd; cbn [dict_get].
  - split; [contradiction | discriminate].
  - inversion Hnd as [| ? ? Hk Hd]; subst.
    destruct (String.eqb_spec k key) as [-> | Hne].
    + split.
      * intros [H | H]; [congruence |].
        exfalso. apply Hk. apply (in_map fst) in H. exact H.
      * intros H. left. congruence.
    + rewrite <- (IH Hd). split.
      * intros [H | H]; [congruence | exact H].
      * intros H. right. exact H.
Qed.

Lemma dict_get_None (d : list (string * Z)) (key : string) :
  dict_get d key = None <-> ~ In key (map fst d).
Proof.
  induction d as [| [k x] d IH]; cbn [dict_get map fst In].
  - tauto.
  - destruct (String.eqb_spec k key) as [-> | Hne].
    + split; [discriminate | tauto].
    + rewrite IH. tauto.
Qed.

Lemma dict_pop_fst (d : list (string * Z)) (key : string) :
  fst (dict_pop d key) = dict_get d key.
Proof.
  induction d as [| [k x] d IH]; cbn [dict_pop dict_get]; [reflexivity |].
  destruct (String.eqb k key); [reflexivity |].
  destruct (dict_pop d key). exact IH.
Qed.

Lemma dict_pop_keys (d : list (string * Z)) (key k : string) :
  In k (map fst (snd (dict_pop d key))) -> In k (map fst d).
Proof.
  induction d as [| [k0 x] d IH]; cbn [dict_pop]; [tauto |].
  destruct (String.eqb k0 key); cbn [snd map fst In]; [tauto |].
  destruct (dict_pop d key) as [r d']. cbn [snd map fst In] in *. tauto.
Qed.

Lemma dict_pop_NoDup (d : list (string * Z)) (key : string) :
  NoDup (map fst d) -> NoDup (map fst (snd (dict_pop d key))).
Proof.
  induction d as [| [k0 x] d IH]; intros Hnd; cbn [dict_pop];
    [constructor |].
  inversion Hnd as [| ? ? Hk Hd]; subst.
  destruct (String.eqb k0 key); cbn [snd]; [exact Hd |].
  pose proof (@dict_pop_keys d key k0) as Hkeys.
  destruct (dict_pop d key) as [r d']. cbn [snd map fst] in *.
  constructor; [tauto | apply IH; exact Hd].
Qed.

Lemma dict_pop_get (d : list (string * Z)) (key k : string) :
  NoDup (map fst d) ->
  dict_get (snd (dict_pop d key)) k
  = if String.eqb k key then None else dict_get d k.
Proof.
  induction d as [| [k0 x] d IH]; intros Hnd; cbn [dict_pop dict_get].
  - destruct (String.eqb k key); reflexivity.
  - inversion Hnd as [| ? ? Hk Hd]; subst.
    destruct (String.eqb_spec k0 key) as [-> | Hne]; cbn [snd].
    + destruct (String.eqb_spec k key) as [Heq | Hne'].
      * rewrite Heq. apply dict_get_None. exact Hk.
      * destruct (String.eqb_spec key k); [congruence | reflexivity].
    + specialize (IH Hd). destruct (dict_pop d key) as [r d'].
      cbn [snd dict_get] in *.
      destruct (String.eqb_spec k0 k) as [-> | Hne'].
      * destruct (String.eqb_spec k key); [congruence | reflexivity].
      * exact IH.
Qed.

Lemma dict_get_snoc (d : list (string * Z)) (key k : string) (v : Z) :
  dict_get (d ++ [(key, v)]) k
  = match dict_get d k with
    | Some x => Some x
    | None => if String.eqb key k then Some v else None
    end.
Proof.
  induction d as [| [k0 x] d IH]; cbn [app dict_get]; [reflexivity |].
  destruct (String.eqb k0 k); [reflexivity | exact IH].
Qed.

(** Counting one k-mer: its count goes up by one, from 0 when it is new;
    the other counts stay. *)
Lemma count_kmer_get (d : list (string * Z)) (kmer k : string) :
  NoDup (map fst d) ->
  dict_get (count_kmer d kmer) k
  = if String.eqb k kmer
    then Some (match dict_get d kmer with Some c => c + 1 | None => 1 end)
    else dict_get d k.
Proof.
  intros Hnd. unfold count_kmer.
  pose proof (dict_pop_fst d kmer) as Hfst.
  pose proof (@dict_pop_get d kmer k Hnd) as Hget.
  destruct (dict_pop d kmer) as [r d']. cbn [fst snd] in *. subst r.
  destruct (dict_get d kmer) as [occ |]; rewrite dict_get_snoc, Hget;
    rewrite (String.eqb_sym kmer k);
    destruct (String.eqb k kmer); try reflexivity;
    destruct (dict_get d k); reflexivity.
Qed.

Lemma count_kmer_NoDup (d : list (string * Z)) (kmer : string) :
  NoDup (map fst d) -> NoDup (map fst (count_kmer d kmer)).
Proof.
  intros Hnd. unfold count_kmer.
  pose proof (@dict_pop_NoDup d kmer Hnd) as Hnd'.
  pose proof (@dict_pop_get d kmer kmer Hnd) as Hget.
  rewrite String.eqb_refl in Hget. apply dict_get_None in Hget.
  destruct (dict_pop d kmer) as [r d']. cbn [snd] in *.
  assert (H : forall v, NoDup (map fst (d' ++ [(kmer, v)]))).
  { intros v. rewrite map_app. cbn [map fst].
    apply NoDup_app; [exact Hnd' | repeat constructor; tauto |].
    intros x Hx [<- | []]. tauto. }
  destruct r; apply H.
Qed.

Lemma fold_count_kmer (kmers : list string) :
  forall d k,
    NoDup (map fst d) ->
    NoDup (map fst (fold_left count_kmer kmers d)) /\
    dict_get (fold_left count_kmer kmers d) k
    = match dict_get d k with
      | Some c => Some (c + occurrences kmers k)
      | None => if occurrences kmers k =? 0 then None
                else Some (occurrences kmers k)
      end.
Proof.
  unfold occurrences.
  induction kmers as [| kmer kmers IH]; intros d k Hnd; cbn [fold_left].
  - split; [exact Hnd |]. cbn. destruct (dict_get d k); f_equal; lia.
  - destruct (IH (count_kmer d kmer) k (@count_kmer_NoDup d kmer Hnd))
      as [Hnd' Hget].
    split; [exact Hnd' |]. rewrite Hget, count_kmer_get by exact Hnd.
    cbn [count_occ].
    destruct (string_dec kmer k) as [-> | Hne].
    + rewrite String.eqb_refl.
      destruct (dict_get d k) as [c |].
      * f_equal. lia.
      * destruct (Z.eqb_spec (Z.of_nat (S (count_occ string_dec kmers k))) 0);
          [lia |]. f_equal. lia.
    + destruct (String.eqb_spec k kmer); [congruence | reflexivity].
Qed.

Lemma fold_left_flat_map {A B C : Type} (f : A -> C -> A) (h : B -> list C)
      (l : list B) :
  forall a,
    fold_left (fun a x => fold_left f (h x) a) l a
    = fold_left f (flat_map h l) a.
Proof.
  induction l as [| x l IH]; intros a; cbn [fold_left flat_map];
    [reflexivity |].
  rewrite fold_left_app. apply IH.
Qed.

End KmerDict.

Lemma build_kmer_dict_table (reads : list string) (kmer_size : Z) :
  let table := build_kmer_dict reads kmer_size in
  let kmers := flat_map (fun read => cut_kmer read kmer_size) reads in
  NoDup (map fst table) /\
  forall kmer count,
    In (kmer, count) table
    <-> In kmer kmers /\ count = occurrences kmers kmer.
Proof.
  cbv zeta. unfold build_kmer_dict. rewrite fold_left_flat_map.
  set (kmers := flat_map (fun read => cut_kmer read kmer_size) reads).
  assert (Hnil : NoDup (map fst (@nil (string * Z)))) by constructor.
  split; [apply (@fold_count_kmer kmers [] EmptyString Hnil) |].
  intros kmer count.
  destruct (@fold_count_kmer kmers [] kmer Hnil) as [Hnd Hget].
  rewrite (@dict_get_In _ kmer count Hnd), Hget. cbn [dict_get].
  unfold occurrences.
  pose proof (count_occ_In string_dec kmers kmer) as Hin.
  destruct (Z.eqb_spec (Z.of_nat (count_occ string_dec kmers kmer)) 0).
  - split; [discriminate |]. intros [H _]. apply Hin in H. lia.
  - split.
    + intros H. inversion H. split; [apply Hin; lia | reflexivity].
    + intros [_ ->]. reflexivity.
Qed.

(** X3.  The table of [build_kmer_dict] holds every k-mer of the reads
    once, with the number of its occurrences over all the reads, and holds
    nothing else. *)
Theorem build_kmer_dict_counts (reads : list string) (kmer_size : Z) :
  let table := build_kmer_dict reads kmer_size in
  let kmers := flat_map (fun read => cut_kmer read kmer_size) reads in
  NoDup (map fst table) /\
  forall kmer count,
    In (kmer, count) table
    <-> In kmer kmers /\ count = occurrences kmers kmer.
Proof. apply build_kmer_dict_table. Qed.

(** ** The ends of a k-mer *)

Section KmerEnds.

Lemma substring_all (s : string) : substring 0 (String.length s) s = s.
Proof. induction s as [| c s IH]; cbn; [reflexivity | now rewrite IH]. Qed.

Lemma kmer_prefix_eq (s : string) :
  kmer_prefix s = substring 0 (String.length s - 1) s.
Proof.
  unfold kmer_prefix, Py.str_slice, Py.clamp.
  change (0 <? 0) with false. change (-1 <? 0) with true. cbv iota.
  rewrite Z.min_l by lia. change (Z.to_nat 0) with 0%nat.
  f_equal. lia.
Qed.

Lemma kmer_suffix_eq (s : string) :
  kmer_suffix s = substring 1 (String.length s - 1) s.
Proof.
  unfold kmer_suffix, Py.str_slice, Py.clamp, Py.len_str.
  change (1 <? 0) with false. cbv iota.
  destruct (Z.ltb_spec (Z.of_nat (String.length s)) 0); [lia |].
  rewrite Z.min_id.
  destruct s as [| c s]; [reflexivity |].
  rewrite Z.min_l by (cbn [String.length]; lia).
  change (Z.to_nat 1) with 1%nat. f_equal. lia.
Qed.

Lemma kmer_suffix_cons (c : ascii) (s : string) :
  kmer_suffix (String c s) = s.
Proof.
  rewrite kmer_suffix_eq.
  replace (String.length (String c s) - 1)%nat with (String.length s)
    by (cbn [String.length]; lia).
  cbn [substring]. apply substring_all.
Qed.

Lemma kmer_prefix_length (s : string) :
  String.length (kmer_prefix s) = (String.length s - 1)%nat.
Proof. rewrite kmer_prefix_eq. apply substring_length. lia. Qed.

Lemma kmer_suffix_length (s : string) :
  String.length (kmer_suffix s) = (String.length s - 1)%nat.
Proof.
  destruct s as [| c s]; [reflexivity |].
  rewrite kmer_suffix_cons. cbn. lia.
Qed.

(** The two ends of a k-mer share its middle. *)
Lemma kmer_ends_overlap (s : string) :
  kmer_suffix (kmer_prefix s) = kmer_prefix (kmer_suffix s).
Proof.
  rewrite (kmer_suffix_eq (kmer_prefix s)), (kmer_prefix_eq (kmer_suffix s)).
  rewrite kmer_prefix_length, kmer_suffix_length.
  rewrite kmer_prefix_eq, kmer_suffix_eq.
  destruct (Nat.le_gt_cases 2 (String.length s)) as [Hlen | Hlen].
  - rewrite !substring_substring by lia. reflexivity.
  - destruct s as [| c [| c' s]]; [reflexivity | reflexivity |].
    cbn [String.length] in Hlen. lia.
Qed.

(** A k-mer of two characters or more is known by its two ends. *)
Lemma kmer_ends_inj (a b : string) :
  (2 <= String.length a)%nat ->
  (2 <= String.length b)%nat ->
  kmer_prefix a = kmer_prefix b ->
  kmer_suffix a = kmer_suffix b ->
  a = b.
Proof.
  intros Ha Hb Hp Hs. rewrite !kmer_prefix_eq in Hp.
  destruct a as [| c s]; [cbn in Ha; lia |].
  destruct b as [| c' s']; [cbn in Hb; lia |].
  rewrite !kmer_suffix_cons in Hs. subst s'.
  cbn [String.length] in *.
  destruct (String.length s) as [| n] eqn:Hn; [lia |].
  cbn in Hp. inversion Hp. reflexivity.
Qed.

Lemma In_cut_kmer_length (read : string) (k : Z) (kmer : string) :
  1 <= k -> In kmer (cut_kmer read k) -> Py.len_str kmer = k.
Proof.
  intros Hk Hin. apply (In_nth _ _ EmptyString) in Hin.
  destruct Hin as [i [Hi <-]].
  rewrite cut_kmer_nth by assumption.
  rewrite cut_kmer_length in Hi.
  unfold Py.len_str in *. rewrite substring_length by lia. lia.
Qed.

End KmerEnds.

(** ** GraphBuilder *)

Section GraphBuild.

Lemma adj_app_isolated (g : DiGraph) (n x : node) :
  NX.adj (g ++ [(n, [])]) x = NX.adj g x.
Proof.
  induction g as [| [k a] g IH]; cbn [app NX.adj].
  - destruct (String.eqb n x); reflexivity.
  - destruct (String.eqb k x); [reflexivity | exact IH].
Qed.

Lemma adj_add_node (g : DiGraph) (n x : node) :
  NX.adj (NX.add_node g n) x = NX.adj g x.
Proof.
  unfold NX.add_node. destruct (NX.has_node g n); [reflexivity |].
  apply adj_app_isolated.
Qed.

Lemma nodes_add_node (g : DiGraph) (n x : node) :
  In x (NX.nodes (NX.add_node g n)) <-> In x (NX.nodes g) \/ x = n.
Proof.
  unfold NX.add_node. destruct (NX.has_node g n) eqn:Hn.
  - apply has_node_In in Hn. split; [tauto |].
    intros [H | ->]; assumption.
  - unfold NX.nodes. rewrite map_app, in_app_iff. cbn. intuition.
Qed.

Lemma In_add_node (g : DiGraph) (n k : node) (b : list (node * Z)) :
  In (k, b) (NX.add_node g n) -> In (k, b) g \/ b = [].
Proof.
  unfold NX.add_node. destruct (NX.has_node g n); [tauto |].
  rewrite in_app_iff. intros [H | [H | []]]; [tauto |].
  inversion H. tauto.
Qed.

Lemma add_node_NoDup (g : DiGraph) (n : node) :
  NoDup (NX.nodes g) -> NoDup (NX.nodes (NX.add_node g n)).
Proof.
  intros Hnd. unfold NX.add_node. destruct (NX.has_node g n) eqn:Hn;
    [exact Hnd |].
  unfold NX.nodes. rewrite map_app. cbn [map fst].
  apply NoDup_app; [exact Hnd | repeat constructor; tauto |].
  intros x Hx [Heq | []]. subst x.
  assert (NX.has_node g n = true) by (apply has_node_In; exact Hx).
  congruence.
Qed.

(** The update of the entry of [u] that ends [add_edge]. *)
Let update (u v : node) (w : Z) (entry : node * list (node * Z)) :=
  if String.eqb (fst entry) u
  then (fst entry, NX.set_weight (snd entry) v w)
  else entry.

Lemma nodes_update (u v : node) (w : Z) (g : DiGraph) :
  NX.nodes (map (update u v w) g) = NX.nodes g.
Proof.
  unfold NX.nodes. rewrite map_map. apply map_ext. intros [k a].
  unfold update. cbn [fst]. destruct (String.eqb k u); reflexivity.
Qed.

Lemma adj_update_other (u v : node) (w : Z) (g : DiGraph) (x : node) :
  x <> u -> NX.adj (map (update u v w) g) x = NX.adj g x.
Proof.
  intros Hne. induction g as [| [k a] g IH]; [reflexivity |].
  cbn [map]. unfold update at 1. cbn [fst snd].
  destruct (String.eqb_spec k u) as [-> | Hku]; cbn [NX.adj].
  - destruct (String.eqb_spec u x); [congruence | exact IH].
  - destruct (String.eqb k x); [reflexivity | exact IH].
Qed.

Lemma adj_update_same (u v : node) (w : Z) (g : DiGraph) :
  In u (NX.nodes g) ->
  NX.adj (map (update u v w) g) u = NX.set_weight (NX.adj g u) v w.
Proof.
  induction g as [| [k a] g IH]; intros Hin; [contradiction |].
  cbn [map]. unfold update at 1. cbn [fst snd].
  destruct (String.eqb_spec k u) as [-> | Hku]; cbn [NX.adj].
  - rewrite String.eqb_refl. reflexivity.
  - destruct (String.eqb_spec k u); [congruence |].
    apply IH. destruct Hin as [H | H]; [cbn in H; congruence | exact H].
Qed.

Lemma dict_get_set_weight (a : list (node * Z)) (v y : node) (w : Z) :
  dict_get (NX.set_weight a v w) y
  = if String.eqb y v then Some w else dict_get a y.
Proof.
  induction a as [| [x wx] a IH]; cbn [NX.set_weight dict_get].
  - rewrite (String.eqb_sym v y). reflexivity.
  - destruct (String.eqb_spec x v) as [-> | Hxv]; cbn [dict_get].
    + rewrite (String.eqb_sym v y). destruct (String.eqb y v); reflexivity.
    + destruct (String.eqb_spec x y) as [-> | Hxy]; [| exact IH].
      destruct (String.eqb_spec y v); [congruence | reflexivity].
Qed.

Lemma keys_set_weight (a : list (node * Z)) (v : node) (w : Z) :
  map fst (NX.set_weight a v w)
  = if NX.mem v (map fst a) then map fst a else map fst a ++ [v].
Proof.
  induction a as [| [x wx] a IH]; [reflexivity |].
  cbn [NX.set_weight map fst NX.mem existsb].
  fold (NX.mem v (map fst a)).
  rewrite (String.eqb_sym v x).
  destruct (String.eqb_spec x v) as [-> | Hxv]; cbn [orb map fst];
    [reflexivity |].
  rewrite IH. destruct (NX.mem v (map fst a)); reflexivity.
Qed.

Lemma add_edge_eq (g : DiGraph) (u v : node) (w : Z) :
  NX.add_edge g u v w
  = map (update u v w) (NX.add_node (NX.add_node g u) v).
Proof. reflexivity. Qed.

Lemma nodes_add_edge (g : DiGraph) (u v : node) (w : Z) (x : node) :
  In x (NX.nodes (NX.add_edge g u v w))
  <-> In x (NX.nodes g) \/ x = u \/ x = v.
Proof.
  rewrite add_edge_eq, nodes_update, !nodes_add_node. tauto.
Qed.

(** [add_edge] sets the weight of its edge and leaves the others. *)
Lemma edge_weight_add_edge (g : DiGraph) (u v : node) (w : Z) (x y : node) :
  edge_weight (NX.add_edge g u v w) x y
  = if String.eqb x u && String.eqb y v then Some w else edge_weight g x y.
Proof.
  unfold edge_weight. rewrite add_edge_eq.
  destruct (String.eqb_spec x u) as [-> | Hne]; cbn [andb].
  - rewrite adj_update_same
      by (apply nodes_add_node; left; apply nodes_add_node; tauto).
    rewrite dict_get_set_weight, !adj_add_node. reflexivity.
  - rewrite adj_update_other by exact Hne.
    rewrite !adj_add_node. reflexivity.
Qed.

Lemma add_edge_wf (g : DiGraph) (u v : node) (w : Z) :
  wf g -> wf (NX.add_edge g u v w).
Proof.
  intros [Hnd Hadj]. split.
  - rewrite add_edge_eq, nodes_update.
    apply add_node_NoDup, add_node_NoDup. exact Hnd.
  - intros x a Hin.
    assert (Hnodes : forall y, In y (NX.nodes g) \/ y = u \/ y = v ->
                               In y (NX.nodes (NX.add_edge g u v w)))
      by (intros y; apply nodes_add_edge).
    rewrite add_edge_eq in Hin. apply in_map_iff in Hin.
    destruct Hin as [[k b] [Hupd Hin]]. unfold update in Hupd.
    assert (Hb : NoDup (map fst b) /\
                 forall y, In y (map fst b) -> In y (NX.nodes g)).
    { apply In_add_node in Hin. destruct Hin as [Hin | ->];
        [| split; [constructor | contradiction]].
      apply In_add_node in Hin. destruct Hin as [Hin | ->];
        [| split; [constructor | contradiction]].
      apply (Hadj _ _ Hin). }
    destruct Hb as [Hbnd Hbin].
    cbn [fst snd] in Hupd. destruct (String.eqb k u).
    + inversion Hupd; subst. rewrite keys_set_weight.
      destruct (NX.mem v (map fst b)) eqn:Hv.
      * split; [exact Hbnd |]. intros y Hy. apply Hnodes. left.
        apply Hbin. exact Hy.
      * apply mem_false in Hv. split.
        -- apply NoDup_app; [exact Hbnd | repeat constructor; tauto |].
           intros y Hy [<- | []]. tauto.
        -- intros y Hy. apply in_app_iff in Hy. apply Hnodes.
           destruct Hy as [Hy | [<- | []]]; [left; apply Hbin; exact Hy |].
           tauto.
    + inversion Hupd; subst. split; [exact Hbnd |].
      intros y Hy. apply Hnodes. left. apply Hbin. exact Hy.
Qed.

End GraphBuild.

Section BuildGraph.

Lemma build_graph_snoc (d : list (string * Z)) (kmer : string) (w : Z) :
  build_graph (d ++ [(kmer, w)])
  = NX.add_edge (build_graph d) (kmer_prefix kmer) (kmer_suffix kmer) w.
Proof. unfold build_graph. rewrite fold_left_app. reflexivity. Qed.

Lemma has_edge_weight (g : DiGraph) (u v : node) :
  NX.has_edge g u v = true <-> exists w, edge_weight g u v = Some w.
Proof.
  unfold NX.has_edge, NX.successors, edge_weight.
  induction (NX.adj g u) as [| [x wx] a IH]; cbn [map fst NX.mem existsb].
  - split; [discriminate | intros [w H]; discriminate].
  - fold (NX.mem v (map fst a)). cbn [dict_get].
    rewrite (String.eqb_sym v x). destruct (String.eqb x v); cbn [orb].
    + split; [eauto | reflexivity].
    + exact IH.
Qed.

(** Every edge of the built graph is the edge of a k-mer of the table, with
    the count of that k-mer for weight. *)
Lemma build_graph_edge_origin (d : list (string * Z)) :
  forall u v w,
    edge_weight (build_graph d) u v = Some w ->
    exists kmer,
      In (kmer, w) d /\ kmer_prefix kmer = u /\ kmer_suffix kmer = v.
Proof.
  induction d as [| [kmer c] d IH] using rev_ind; intros u v w H.
  - discriminate.
  - rewrite build_graph_snoc, edge_weight_add_edge in H.
    destruct (String.eqb_spec u (kmer_prefix kmer)) as [-> | Hu];
      cbn [andb] in H.
    + destruct (String.eqb_spec v (kmer_suffix kmer)) as [-> | Hv].
      * inversion H; subst. exists kmer. rewrite in_app_iff. cbn. tauto.
      * destruct (IH _ _ _ H) as [km [Hin Hends]]. exists km.
        rewrite in_app_iff. tauto.
    + destruct (IH _ _ _ H) as [km [Hin Hends]]. exists km.
      rewrite in_app_iff. tauto.
Qed.

(** The nodes of the built graph are the ends of the k-mers. *)
Lemma build_graph_nodes (d : list (string * Z)) (n : node) :
  In n (NX.nodes (build_graph d))
  <-> exists kmer c,
        In (kmer, c) d /\ (n = kmer_prefix kmer \/ n = kmer_suffix kmer).
Proof.
  induction d as [| [kmer c] d IH] using rev_ind.
  - cbn. split; [contradiction | intros [k [c [[] _]]]].
  - rewrite build_graph_snoc, nodes_add_edge, IH. split.
    + intros [[km [c' [Hin Hn]]] | Hn].
      * exists km, c'. rewrite in_app_iff. tauto.
      * exists kmer, c. rewrite in_app_iff. cbn. tauto.
    + intros [km [c' [Hin Hn]]]. apply in_app_iff in Hin.
      destruct Hin as [Hin | [Heq | []]].
      * left. exists km, c'. tauto.
      * inversion Heq; subst. right. exact Hn.
Qed.

Lemma build_graph_wf (d : list (string * Z)) : wf (build_graph d).
Proof.
  induction d as [| [kmer c] d IH] using rev_ind.
  - split; [constructor | intros u a []].
  - rewrite build_graph_snoc. apply add_edge_wf. exact IH.
Qed.

End BuildGraph.

Lemma build_graph_edge_iff (kmer_dict : list (string * Z)) (u v : node)
      (w : Z) :
  NoDup (map fst kmer_dict) ->
  (forall kmer c, In (kmer, c) kmer_dict -> 2 <= Py.len_str kmer) ->
  (edge_weight (build_graph kmer_dict) u v = Some w
   <-> exists kmer,
         In (kmer, w) kmer_dict /\
         kmer_prefix kmer = u /\ kmer_suffix kmer = v).
Proof.
  intros Hnd Hlen. split; [apply build_graph_edge_origin |].
  revert Hnd Hlen.
  induction kmer_dict as [| [km c] d IH] using rev_ind;
    intros Hnd Hlen [kmer [Hin [Hu Hv]]]; [contradiction |].
  rewrite build_graph_snoc, edge_weight_add_edge.
  rewrite map_app in Hnd. cbn [map fst] in Hnd.
  apply in_app_iff in Hin. destruct Hin as [Hin | [Heq | []]].
  - assert (Hne : kmer <> km).
    { intros ->. apply NoDup_remove_2 in Hnd. apply Hnd.
      rewrite app_nil_r. apply (in_map fst) in Hin. exact Hin. }
    assert (Hends : (String.eqb u (kmer_prefix km)
                     && String.eqb v (kmer_suffix km)) = false).
    { apply andb_false_iff.
      destruct (String.eqb_spec u (kmer_prefix km)) as [Hp |]; [| tauto].
      destruct (String.eqb_spec v (kmer_suffix km)) as [Hs |]; [| tauto].
      exfalso. apply Hne. unfold Py.len_str in Hlen.
      apply kmer_ends_inj; try congruence.
      - specialize (Hlen kmer w). rewrite in_app_iff in Hlen.
        specialize (Hlen (or_introl Hin)). lia.
      - specialize (Hlen km c). rewrite in_app_iff in Hlen. cbn in Hlen.
        specialize (Hlen (or_intror (or_introl eq_refl))). lia. }
    rewrite Hends. apply IH.
    + apply NoDup_remove_1 in Hnd. rewrite app_nil_r in Hnd. exact Hnd.
    + intros k c' Hk. apply (Hlen k c'). apply in_app_iff. tauto.
    + exists kmer. tauto.
  - inversion Heq; subst. rewrite !String.eqb_refl. reflexivity.
Qed.

(** X4.  For a table of distinct k-mers of two characters or more, the
    built graph has, for every k-mer of the table, the edge from the k-mer
    without its last character to the k-mer without its first character,
    weighted by the count of the k-mer, and it has no other edge. *)
Theorem build_graph_edges (kmer_dict : list (string * Z)) (u v : node)
        (w : Z) :
  NoDup (map fst kmer_dict) ->
  (forall kmer c, In (kmer, c) kmer_dict -> 2 <= Py.len_str kmer) ->
  (edge_weight (build_graph kmer_dict) u v = Some w
   <-> exists kmer,
         In (kmer, w) kmer_dict /\
         kmer_prefix kmer = u /\ kmer_suffix kmer = v).
Proof. apply build_graph_edge_iff. Qed.

Lemma build_graph_edges_witness :
  edge_weight (build_graph [("ABCDE", 2); ("BCDEF", 1)]) "ABCD" "BCDE"
  = Some 2
  <-> exists kmer,
        In (kmer, 2) [("ABCDE", 2); ("BCDEF", 1)] /\
        kmer_prefix kmer = "ABCD" /\ kmer_suffix kmer = "BCDE".
Proof.
  apply (@build_graph_edges [("ABCDE", 2); ("BCDEF", 1)] "ABCD" "BCDE" 2).
  - repeat constructor; cbn; intuition discriminate.
  - intros kmer c [H | [H | []]]; inversion H; subst; vm_compute;
      discriminate.
Defined.

(** X5.  In the graph built from a table of k-mers of one length [k >= 1]:
    no node and no successor is listed twice and every successor is a
    node; every node is an end of a k-mer and has length [k - 1]; along
    every edge the source without its first character is the target
    without its last character. *)
Theorem build_graph_shape (kmer_dict : list (string * Z)) (k : Z) :
  1 <= k ->
  (forall kmer c, In (kmer, c) kmer_dict -> Py.len_str kmer = k) ->
  let graph := build_graph kmer_dict in
  wf graph /\
  (forall n, In n (NX.nodes graph) -> Py.len_str n = k - 1) /\
  (forall u v, NX.has_edge graph u v = true ->
               kmer_suffix u = kmer_prefix v).
Proof.
  intros Hk Hlen graph. split; [apply build_graph_wf |]. split.
  - intros n Hn. apply build_graph_nodes in Hn.
    destruct Hn as [kmer [c [Hin Hn]]]. specialize (Hlen _ _ Hin).
    unfold Py.len_str in *.
    destruct Hn as [-> | ->];
      rewrite ?kmer_prefix_length, ?kmer_suffix_length; lia.
  - intros u v He. apply has_edge_weight in He. destruct He as [w Hw].
    apply build_graph_edge_origin in Hw.
    destruct Hw as [kmer [_ [<- <-]]]. apply kmer_ends_overlap.
Qed.

Lemma build_graph_shape_witness :
  let graph := build_graph [("ABCDE", 2); ("BCDEF", 1)] in
  wf graph /\
  (forall n, In n (NX.nodes graph) -> Py.len_str n = 5 - 1) /\
  (forall u v, NX.has_edge graph u v = true ->
               kmer_suffix u = kmer_prefix v).
Proof.
  apply (@build_graph_shape [("ABCDE", 2); ("BCDEF", 1)] 5).
  - lia.
  - intros kmer c [H | [H | []]]; inversion H; subst; reflexivity.
Defined.

(** X6.  From reads to graph, for [k >= 2]: the graph built from the table
    of the reads has an edge for every k-mer that occurs in the reads,
    weighted by the number of its occurrences, and no other edge. *)
Theorem reads_to_graph_edges (reads : list string) (k : Z) (u v : node)
        (w : Z) :
  2 <= k ->
  let kmers := flat_map (fun read => cut_kmer read k) reads in
  (edge_weight (build_graph (build_kmer_dict reads k)) u v = Some w
   <-> exists kmer,
         In kmer kmers /\ w = occurrences kmers kmer /\
         kmer_prefix kmer = u /\ kmer_suffix kmer = v).
Proof.
  intros Hk kmers.
  destruct (build_kmer_dict_table reads k) as [Hnd Hcount].
  fold kmers in Hcount.
  rewrite build_graph_edge_iff.
  - split; intros [kmer [Hin Hends]]; exists kmer.
    + apply Hcount in Hin. tauto.
    + split; [apply Hcount |]; tauto.
  - exact Hnd.
  - intros kmer c Hin. apply Hcount in Hin. destruct Hin as [Hin _].
    unfold kmers in Hin. apply in_flat_map in Hin.
    destruct Hin as [read [_ Hin]].
    rewrite (@In_cut_kmer_length read k kmer); [lia | lia | exact Hin].
Qed.

Lemma reads_to_graph_edges_witness :
  let kmers :=
    flat_map (fun read => cut_kmer read 3) ["TACGAT"; "TACGAT"; "TACCAT"] in
  edge_weight
    (build_graph (build_kmer_dict ["TACGAT"; "TACGAT"; "TACCAT"] 3))
    "TA" "AC" = Some 3
  <-> exists kmer,
        In kmer kmers /\ 3 = occurrences kmers kmer /\
        kmer_prefix kmer = "TA" /\ kmer_suffix kmer = "AC".
Proof.
  apply (@reads_to_graph_edges ["TACGAT"; "TACGAT"; "TACCAT"] 3 "TA" "AC" 3).
  lia.
Defined.

(** ** The standard deviation *)

Section Deviation.

Local Open Scope Q_scope.

Let sq (m x : Q) : Q := (x - m) * (x - m).

Lemma sq_nonneg (m x : Q) : 0 <= sq m x.
Proof.
  unfold sq. set (d := x - m). destruct (Qlt_le_dec d 0); nra.
Qed.

Lemma sq_zero (m x : Q) : sq m x <= 0 -> x == m.
Proof.
  unfold sq. set (d := x - m). intros H.
  assert (Hd : d == 0)
    by (destruct (Qlt_le_dec d 0); [| destruct (Qlt_le_dec 0 d)]; nra).
  unfold d in Hd. lra.
Qed.

Lemma sum_sq_nonneg (m : Q) (data : list Q) :
  0 <= Stat.sum (map (sq m) data).
Proof.
  induction data as [| x data IH]; cbn; [lra |].
  pose proof (sq_nonneg m x). fold (Stat.sum (map (sq m) data)). lra.
Qed.

Lemma sum_sq_le_0 (m : Q) (data : list Q) :
  Stat.sum (map (sq m) data) <= 0 -> forall x, In x data -> x == m.
Proof.
  induction data as [| x data IH]; intros H y Hy; [contradiction |].
  cbn in H. fold (Stat.sum (map (sq m) data)) in H.
  pose proof (sq_nonneg m x). pose proof (sum_sq_nonneg m data).
  destruct Hy as [<- | Hy].
  - apply sq_zero. lra.
  - apply IH; [lra | exact Hy].
Qed.

Lemma sum_sq_constant (m : Q) (data : list Q) :
  (forall x, In x data -> x == m) -> Stat.sum (map (sq m) data) == 0.
Proof.
  induction data as [| x data IH]; intros H; cbn; [reflexivity |].
  fold (Stat.sum (map (sq m) data)).
  rewrite IH by (intros y Hy; apply H; right; exact Hy).
  assert (Hx : x == m) by (apply H; left; reflexivity).
  unfold sq. rewrite Hx. ring.
Qed.

Lemma sum_constant (c : Q) (data : list Q) :
  (forall x, In x data -> x == c) ->
  Stat.sum data == inject_Z (Py.len data) * c.
Proof.
  unfold Py.len.
  induction data as [| x data IH]; intros H.
  - cbn. ring.
  - cbn [Stat.sum fold_right List.length]. fold (Stat.sum data).
    rewrite IH by (intros y Hy; apply H; right; exact Hy).
    rewrite (H x) by (left; reflexivity).
    rewrite Nat2Z.inj_succ. unfold Z.succ. rewrite inject_Z_plus. ring.
Qed.

End Deviation.

(** In the exact arithmetic of the model, the deviation of two values or
    more is 0 exactly when the values are all equal. *)
Lemma deviation_zero_iff_constant (data : list Q) (r : Stat.root) :
  std data = Ok r ->
  (Stat.gt_0 r = false
   <-> forall x y, In x data -> In y data -> (x == y)%Q).
Proof.
  intros Hstd. pose proof (std_ok_length _ Hstd) as Hlen.
  unfold std, Stat.stdev, Stat.variance in Hstd.
  destruct (Py.len data <? 2)%Z; [discriminate |].
  cbn [bind] in Hstd. inversion Hstd as [Hr]. clear Hstd Hr.
  unfold Stat.gt_0. cbn [Stat.radicand].
  set (n := inject_Z (Py.len data)).
  set (m := (Stat.sum data / n)%Q).
  set (ss := Stat.sum (map (fun x => ((x - m) * (x - m))%Q) data)).
  assert (Hn : (1 < n)%Q).
  { unfold n, Py.len. change 1%Q with (inject_Z 1).
    rewrite <- Zlt_Qlt. lia. }
  assert (Hss : (0 <= ss)%Q) by apply (sum_sq_nonneg m data).
  rewrite negb_false_iff, Qle_bool_iff. split.
  - intros Hvar x y Hx Hy.
    assert (Hle : (ss <= 0)%Q).
    { assert (E : (ss == ss / (n - 1) * (n - 1))%Q) by (field; lra).
      rewrite E. nra. }
    rewrite (sum_sq_le_0 m data Hle x Hx), (sum_sq_le_0 m data Hle y Hy).
    reflexivity.
  - intros Hall.
    destruct data as [| x0 data']; [cbn in Hlen; lia |].
    set (data := x0 :: data') in *.
    assert (Hx0 : forall x, In x data -> (x == x0)%Q)
      by (intros x Hx; apply Hall; [exact Hx | left; reflexivity]).
    assert (Hm : (m == x0)%Q).
    { unfold m. rewrite (@sum_constant x0 data Hx0). fold n. field. lra. }
    assert (Hzero : (ss == 0)%Q).
    { apply (@sum_sq_constant m data). intros x Hx.
      rewrite Hm. apply Hx0. exact Hx. }
    rewrite Hzero. unfold Qdiv. rewrite Qmult_0_l. lra.
Qed.

(** Two values or more have a deviation. *)
Lemma std_defined (data : list Q) :
  (2 <= List.length data)%nat -> exists r, std data = Ok r.
Proof.
  intros Hlen. unfold std, Stat.stdev, Stat.variance, Py.len.
  destruct (Z.ltb_spec (Z.of_nat (List.length data)) 2); [lia |].
  eexists. reflexivity.
Qed.

(** For integers, such as the lengths of the paths: the deviation is 0
    exactly when they are all the same number. *)
Lemma lengths_deviation (lengths : list Z) (r : Stat.root) :
  std (map inject_Z lengths) = Ok r ->
  (Stat.gt_0 r = false
   <-> forall x y, In x lengths -> In y lengths -> x = y).
Proof.
  intros Hstd. rewrite (deviation_zero_iff_constant _ Hstd). split.
  - intros H x y Hx Hy. apply inject_Z_injective.
    apply H; apply in_map; assumption.
  - intros H x y Hx Hy.
    apply in_map_iff in Hx. destruct Hx as [x' [Ex Hx]].
    apply in_map_iff in Hy. destruct Hy as [y' [Ey Hy]].
    subst x y. rewrite (H x' y' Hx Hy). reflexivity.
Qed.

(** ** PathResolver: the other branches of the selection policy *)

Section SelectionBranches.

Context {R : RandomSource}.

(** The position that [l.index(max(l))] gives: in the list, holding a
    greatest value, and the first to do so. *)
Lemma index_of_max (l : list Q) :
  l <> [] ->
  exists (i : nat) (m : Q),
    py_max l = Ok m /\
    py_index l m = Ok (Z.of_nat i) /\
    (i < List.length l)%nat /\
    (nth i l 0 == m)%Q /\
    (forall x, In x l -> (x <= m)%Q) /\
    (forall j, (j < i)%nat -> ~ (nth j l 0 == m)%Q).
Proof.
  intros Hne. destruct (py_max_spec Hne) as [m [Hmax [Hin Hall]]].
  destruct (py_index_spec _ _ Hin) as [i [Hidx [Hlt [Hnth Hfirst]]]].
  exists i, m. tauto.
Qed.

Lemma nth_inject_Z (l : list Z) (j : nat) :
  nth j (map inject_Z l) 0%Q = inject_Z (nth j l 0%Z).
Proof. apply (map_nth inject_Z). Qed.

Lemma index_of_max_Z (l : list Z) :
  l <> [] ->
  exists (i : nat) (m : Q),
    py_max (map inject_Z l) = Ok m /\
    py_index (map inject_Z l) m = Ok (Z.of_nat i) /\
    (i < List.length l)%nat /\
    (forall j, (j < List.length l)%nat -> nth j l 0 <= nth i l 0)%Z /\
    (forall j, (j < i)%nat -> nth j l 0 < nth i l 0)%Z.
Proof.
  intros Hne.
  destruct (@index_of_max (map inject_Z l)) as
    [i [m [Hmax [Hidx [Hlt [Hnth [Hall Hfirst]]]]]]].
  { destruct l; [congruence | discriminate]. }
  rewrite length_map in Hlt. rewrite nth_inject_Z in Hnth.
  assert (Hle : forall j, (j < List.length l)%nat ->
                          (nth j l 0 <= nth i l 0)%Z).
  { intros j Hj. rewrite Zle_Qle, Hnth. apply Hall.
    rewrite <- nth_inject_Z. apply nth_In. rewrite length_map. exact Hj. }
  exists i, m. repeat (split; [assumption |]).
  intros j Hj. specialize (Hle j ltac:(lia)).
  assert (Hneq : nth j l 0%Z <> nth i l 0%Z).
  { intros Heq. apply (Hfirst j Hj). rewrite nth_inject_Z, Heq. exact Hnth. }
  lia.
Qed.

End SelectionBranches.

(** X8.  When the average weights are all equal and the lengths are not,
    [select_best_path] keeps out of the removal the first of the longest
    paths and hands the other candidates to [remove_paths]; it does not
    raise and does not use the random generator. *)
Theorem select_best_path_by_length {R : RandomSource} (graph : DiGraph)
        (path_list : list (list node)) (path_length : list Z)
        (weight_avg_list : list Q)
        (delete_entry_node delete_sink_node : bool) (rs : rng_state)
        (sw sl : Stat.root) :
  List.length path_list = List.length path_length ->
  std weight_avg_list = Ok sw ->
  Stat.gt_0 sw = false ->
  std (map inject_Z path_length) = Ok sl ->
  Stat.gt_0 sl = true ->
  exists best_index : nat,
    (best_index < List.length path_list)%nat /\
    (forall j, (j < List.length path_length)%nat ->
               nth j path_length 0 <= nth best_index path_length 0) /\
    (forall j, (j < best_index)%nat ->
               nth j path_length 0 < nth best_index path_length 0) /\
    select_best_path graph path_list path_length weight_avg_list
                     delete_entry_node delete_sink_node rs
    = (Ok (remove_paths graph
             (firstn best_index path_list
              ++ skipn (S best_index) path_list)
             delete_entry_node delete_sink_node),
       rs).
Proof.
  intros Hlen Hsw Hw Hsl Hl.
  pose proof (std_ok_length _ Hsl) as Hsize. rewrite length_map in Hsize.
  destruct (@index_of_max_Z path_length)
    as [i [m [Hmax [Hidx [Hlt [Hle Hfirst]]]]]].
  { destruct path_length; [simpl in Hsize; lia | discriminate]. }
  exists i. split; [lia |]. split; [exact Hle |]. split; [exact Hfirst |].
  unfold select_best_path. rewrite Hsw, Hw, Hsl, Hl, Hmax. cbn [bind].
  rewrite Hidx. cbn [bind]. unfold drop_best_and_remove.
  rewrite del_spec by lia. reflexivity.
Qed.

Lemma select_best_path_by_length_witness :
  exists best_index : nat,
    (best_index < List.length [["A"; "C"; "G"]; ["A"; "G"]])%nat /\
    (forall j, (j < List.length [3; 2])%nat ->
               nth j [3; 2] 0 <= nth best_index [3; 2] 0) /\
    (forall j, (j < best_index)%nat ->
               nth j [3; 2] 0 < nth best_index [3; 2] 0) /\
    select_best_path (R := mersenne) Sample.shortcut
                     [["A"; "C"; "G"]; ["A"; "G"]] [3; 2] [1 # 1; 1 # 1]
                     false false import_state
    = (Ok (remove_paths Sample.shortcut
             (firstn best_index [["A"; "C"; "G"]; ["A"; "G"]]
              ++ skipn (S best_index) [["A"; "C"; "G"]; ["A"; "G"]])
             false false),
       import_state).
Proof.
  eapply (@select_best_path_by_length
            mersenne Sample.shortcut [["A"; "C"; "G"]; ["A"; "G"]] [3; 2]
            [1 # 1; 1 # 1] false false import_state).
  - reflexivity.
  - vm_compute. reflexivity.
  - reflexivity.
  - vm_compute. reflexivity.
  - reflexivity.
Defined.

(** X9.  When neither the average weights nor the lengths differ and there
    is a candidate, [select_best_path] draws once from the generator, a
    position inside the list of candidates, keeps the path at that position
    out of the removal and hands the others to [remove_paths]; it does not
    raise. *)
Theorem select_best_path_tie_break {R : RandomSource} (graph : DiGraph)
        (path_list : list (list node)) (path_length : list Z)
        (weight_avg_list : list Q)
        (delete_entry_node delete_sink_node : bool) (rs : rng_state)
        (sw sl : Stat.root) :
  path_list <> [] ->
  std weight_avg_list = Ok sw ->
  Stat.gt_0 sw = false ->
  std (map inject_Z path_length) = Ok sl ->
  Stat.gt_0 sl = false ->
  let draw := randbelow (Py.len path_list) rs in
  let best_index := Z.to_nat (fst draw) in
  (best_index < List.length path_list)%nat /\
  select_best_path graph path_list path_length weight_avg_list
                   delete_entry_node delete_sink_node rs
  = (Ok (remove_paths graph
           (firstn best_index path_list ++ skipn (S best_index) path_list)
           delete_entry_node delete_sink_node),
     snd draw).
Proof.
  intros Hne Hsw Hw Hsl Hl draw best_index.
  assert (Hpos : 0 < Py.len path_list).
  { unfold Py.len. destruct path_list; [congruence | cbn; lia]. }
  pose proof (@randbelow_range R (Py.len path_list) rs Hpos) as Hrange.
  fold draw in Hrange.
  assert (Hin : (best_index < List.length path_list)%nat)
    by (unfold best_index, Py.len in *; lia).
  split; [exact Hin |].
  unfold select_best_path. rewrite Hsw, Hw, Hsl, Hl. unfold randint.
  replace (Py.len path_list - 1 + 1 - 0) with (Py.len path_list) by lia.
  destruct (Z.ltb_spec 0 (Py.len path_list)); [| lia].
  fold draw. destruct draw as [r rs'] eqn:Hdraw. cbn [fst snd bind] in *.
  unfold drop_best_and_remove.
  replace (0 + r) with (Z.of_nat best_index)
    by (unfold best_index; lia).
  rewrite del_spec by exact Hin. reflexivity.
Qed.

Lemma select_best_path_tie_break_witness :
  let path_list := [["AC"; "CG"; "GA"; "AT"]; ["AC"; "CC"; "CA"; "AT"]] in
  let draw :=
    randbelow (RandomSource := mersenne) (Py.len path_list) import_state in
  let best_index := Z.to_nat (fst draw) in
  (best_index < List.length path_list)%nat /\
  select_best_path (R := mersenne) Sample.bubble path_list [4; 4]
                   [1 # 1; 1 # 1] false false import_state
  = (Ok (remove_paths Sample.bubble
           (firstn best_index path_list ++ skipn (S best_index) path_list)
           false false),
     snd draw).
Proof.
  eapply (@select_best_path_tie_break
            mersenne Sample.bubble
            [["AC"; "CG"; "GA"; "AT"]; ["AC"; "CC"; "CA"; "AT"]] [4; 4]
            [1 # 1; 1 # 1] false false import_state).
  - discriminate.
  - vm_compute. reflexivity.
  - reflexivity.
  - vm_compute. reflexivity.
  - reflexivity.
Defined.

(** X7.  The test of [select_best_path] on the lengths, read on the
    lengths themselves.  The average weights have a deviation that is not
    above 0; the lengths are integers, one for each candidate, two or
    more, from 0 to below 2^31 (numbers on which [statistics.stdev] decides
    without rounding whether the deviation is 0).  If two of the lengths
    differ, [select_best_path] spares the first of the longest candidates
    and leaves the generator alone; if the lengths are all the same, it
    draws once and spares the candidate at the position drawn.  It does
    not raise in either case. *)
Theorem select_best_path_on_lengths {R : RandomSource} (graph : DiGraph)
        (path_list : list (list node)) (path_length : list Z)
        (weight_avg_list : list Q)
        (delete_entry_node delete_sink_node : bool) (rs : rng_state)
        (sw : Stat.root) :
  List.length path_list = List.length path_length ->
  (2 <= List.length path_length)%nat ->
  Forall (fun n => 0 <= n < 2 ^ 31) path_length ->
  std weight_avg_list = Ok sw ->
  Stat.gt_0 sw = false ->
  ((exists x y, In x path_length /\ In y path_length /\ x <> y) ->
   exists best_index : nat,
     (best_index < List.length path_list)%nat /\
     (forall j, (j < List.length path_length)%nat ->
                nth j path_length 0 <= nth best_index path_length 0) /\
     (forall j, (j < best_index)%nat ->
                nth j path_length 0 < nth best_index path_length 0) /\
     select_best_path graph path_list path_length weight_avg_list
                      delete_entry_node delete_sink_node rs
     = (Ok (remove_paths graph
              (firstn best_index path_list
               ++ skipn (S best_index) path_list)
              delete_entry_node delete_sink_node),
        rs)) /\
  ((forall x y, In x path_length -> In y path_length -> x = y) ->
   let draw := randbelow (Py.len path_list) rs in
   let best_index := Z.to_nat (fst draw) in
   (best_index < List.length path_list)%nat /\
   select_best_path graph path_list path_length weight_avg_list
                    delete_entry_node delete_sink_node rs
   = (Ok (remove_paths graph
            (firstn best_index path_list ++ skipn (S best_index) path_list)
            delete_entry_node delete_sink_node),
      snd draw)).
Proof.
  intros Hlen Hsize _ Hsw Hw.
  destruct (@std_defined (map inject_Z path_length)) as [sl Hsl];
    [rewrite length_map; exact Hsize |].
  pose proof (lengths_deviation _ Hsl) as Hdev.
  split.
  - intros [x [y [Hx [Hy Hxy]]]].
    destruct (Stat.gt_0 sl) eqn:Hl;
      [| exfalso; apply Hxy; apply (proj1 Hdev eq_refl); assumption].
    destruct (@index_of_max_Z path_length)
      as [i [m [Hmax [Hidx [Hlt [Hle Hfirst]]]]]].
    { destruct path_length; [simpl in Hsize; lia | discriminate]. }
    exists i. split; [lia |]. split; [exact Hle |].
    split; [exact Hfirst |].
    unfold select_best_path. rewrite Hsw, Hw, Hsl, Hl, Hmax. cbn [bind].
    rewrite Hidx. cbn [bind]. unfold drop_best_and_remove.
    rewrite del_spec by lia. reflexivity.
  - intros Hall. apply (proj2 Hdev) in Hall.
    apply (@run_call_tie_break
             R (Call graph path_list path_length weight_avg_list
                     delete_entry_node delete_sink_node) rs).
    unfold reaches_tie_break.
    cbn [call_weight_avg_list call_path_length call_path_list].
    rewrite Hsw, Hsl, Hw, Hall. cbn [negb andb].
    apply Z.ltb_lt. unfold Py.len. lia.
Qed.

Lemma select_best_path_on_lengths_witness :
  let path_list := [["A"; "C"; "G"]; ["A"; "G"]] in
  (exists x y, In x [3; 2] /\ In y [3; 2] /\ x <> y) /\
  exists best_index : nat,
    (best_index < List.length path_list)%nat /\
    (forall j, (j < List.length [3; 2])%nat ->
               nth j [3; 2] 0 <= nth best_index [3; 2] 0) /\
    (forall j, (j < best_index)%nat ->
               nth j [3; 2] 0 < nth best_index [3; 2] 0) /\
    select_best_path (R := mersenne) Sample.shortcut path_list [3; 2]
                     [1 # 1; 1 # 1] false false import_state
    = (Ok (remove_paths Sample.shortcut
             (firstn best_index path_list
              ++ skipn (S best_index) path_list)
             false false),
       import_state).
Proof.
  intros path_list.
  assert (Hdiffer : exists x y, In x [3; 2] /\ In y [3; 2] /\ x <> y).
  { exists 3, 2. split; [left; reflexivity |].
    split; [right; left; reflexivity | discriminate]. }
  split; [exact Hdiffer |].
  refine (proj1 (@select_best_path_on_lengths
                   mersenne Sample.shortcut path_list [3; 2]
                   [1 # 1; 1 # 1] false false import_state _
                   _ _ _ _ _) Hdiffer).
  - reflexivity.
  - simpl. lia.
  - repeat constructor; lia.
  - vm_compute. reflexivity.
  - reflexivity.
Defined.

(** X10.  With fewer than two average weights, a single candidate for one,
    [select_best_path] raises [StatisticsError], whatever the other
    arguments; the graph is not touched and the generator is not used. *)
Theorem select_best_path_single_candidate {R : RandomSource}
        (graph : DiGraph) (path_list : list (list node))
        (path_length : list Z) (weight_avg_list : list Q)
        (delete_entry_node delete_sink_node : bool) (rs : rng_state) :
  (List.length weight_avg_list < 2)%nat ->
  select_best_path graph path_list path_length weight_avg_list
                   delete_entry_node delete_sink_node rs
  = (Err StatisticsError, rs).
Proof.
  intros Hlen. unfold select_best_path, std, Stat.stdev, Stat.variance.
  destruct (Z.ltb_spec (Py.len weight_avg_list) 2) as [_ | Hge];
    [reflexivity |].
  unfold Py.len in Hge. lia.
Qed.

Lemma select_best_path_single_candidate_witness :
  select_best_path (R := mersenne) Sample.bubble [["AC"; "CG"; "GA"; "AT"]] [4]
                   [2 # 1] false false import_state
  = (Err StatisticsError, import_state).
Proof.
  apply (@select_best_path_single_candidate
           mersenne Sample.bubble [["AC"; "CG"; "GA"; "AT"]] [4] [2 # 1]
           false false import_state).
  simpl. lia.
Defined.

(** ** Well-formed graphs *)

Section WellFormed.

Lemma adj_In (g : DiGraph) (u : node) (a : list (node * Z)) :
  NoDup (NX.nodes g) -> In (u, a) g -> NX.adj g u = a.
Proof.
  induction g as [| [k b] g IH]; intros Hnd Hin; [contradiction |].
  cbn [NX.nodes map fst] in Hnd. inversion Hnd as [| ? ? Hk Hg]; subst.
  cbn [NX.adj]. destruct Hin as [Heq | Hin].
  - inversion Heq; subst. rewrite String.eqb_refl. reflexivity.
  - destruct (String.eqb_spec k u) as [-> | Hne].
    + exfalso. apply Hk. apply (in_map fst) in Hin. exact Hin.
    + apply IH; assumption.
Qed.

Lemma In_adj (g : DiGraph) (u : node) :
  In u (NX.nodes g) -> In (u, NX.adj g u) g.
Proof.
  induction g as [| [k b] g IH]; intros Hin; [contradiction |].
  cbn [NX.adj]. destruct (String.eqb_spec k u) as [-> | Hne].
  - left. reflexivity.
  - right. apply IH. destruct Hin as [H | H]; [cbn in H; congruence |].
    exact H.
Qed.

Lemma adj_not_node (g : DiGraph) (u : node) :
  ~ In u (NX.nodes g) -> NX.adj g u = [].
Proof.
  induction g as [| [k b] g IH]; intros Hin; [reflexivity |].
  cbn [NX.adj]. cbn [NX.nodes map fst In] in Hin.
  destruct (String.eqb_spec k u) as [-> | Hne]; [tauto |].
  apply IH. tauto.
Qed.

Lemma has_edge_In (g : DiGraph) (u v : node) :
  NX.has_edge g u v = true <-> In v (map fst (NX.adj g u)).
Proof. apply mem_In. Qed.

Lemma has_edge_nodes (g : DiGraph) (u v : node) :
  wf g -> NX.has_edge g u v = true ->
  In u (NX.nodes g) /\ In v (NX.nodes g).
Proof.
  intros [Hnd Hadj] He. apply has_edge_In in He.
  destruct (in_dec string_dec u (NX.nodes g)) as [Hu | Hu].
  - split; [exact Hu |].
    apply (proj2 (Hadj _ _ (In_adj _ _ Hu))). exact He.
  - rewrite adj_not_node in He by exact Hu. contradiction.
Qed.

(** Dropping entries of a table leaves its keys distinct. *)
Lemma keys_filter_NoDup {K V : Type} (keep : K * V -> bool)
      (entries : list (K * V)) :
  NoDup (map fst entries) -> NoDup (map fst (filter keep entries)).
Proof.
  induction entries as [| [k v] entries IH]; intros Hkeys; [constructor |].
  cbn [map fst] in Hkeys. apply NoDup_cons_iff in Hkeys.
  destruct Hkeys as [Hk Hrest]. cbn [filter].
  destruct (keep (k, v)); [| apply IH; exact Hrest].
  cbn [map fst]. apply NoDup_cons; [| apply IH; exact Hrest].
  intros Hin. apply Hk. apply in_map_iff in Hin.
  destruct Hin as [[k' v'] [Heq Hin]]. cbn [fst] in Heq. subst k'.
  apply filter_In in Hin. apply in_map_iff. exists (k, v'). tauto.
Qed.

Lemma remove_node_wf (g : DiGraph) (n : node) :
  wf g -> wf (NX.remove_node g n).
Proof.
  intros [Hnd Hadj]. split.
  - unfold NX.remove_node, NX.nodes. rewrite map_map. cbn [fst].
    apply keys_filter_NoDup. exact Hnd.
  - intros u a Hin. unfold NX.remove_node in Hin.
    apply in_map_iff in Hin. destruct Hin as [[k b] [Heq Hin]].
    cbn [fst snd] in Heq. inversion Heq; subst.
    apply filter_In in Hin. destruct Hin as [Hin _].
    destruct (Hadj _ _ Hin) as [Hb Hsucc]. split.
    + apply keys_filter_NoDup. exact Hb.
    + intros v Hv. apply in_map_iff in Hv.
      destruct Hv as [[x wx] [Hx Hv]]. cbn [fst] in Hx. subst x.
      apply filter_In in Hv. destruct Hv as [Hv Hne]. cbn [fst] in Hne.
      apply In_nodes_remove_node. split.
      * apply Hsucc. apply (in_map fst) in Hv. exact Hv.
      * intros ->. rewrite String.eqb_refl in Hne. discriminate.
Qed.

Lemma remove_nodes_from_wf (ns : list node) :
  forall g, wf g -> wf (NX.remove_nodes_from g ns).
Proof.
  unfold NX.remove_nodes_from.
  induction ns as [| n ns IH]; intros g Hwf; [exact Hwf |].
  cbn [fold_left]. apply IH, remove_node_wf. exact Hwf.
Qed.

Lemma filter_all {A : Type} (p : A -> bool) (l : list A) :
  (forall x, In x l -> p x = true) -> filter p l = l.
Proof.
  induction l as [| x l IH]; intros H; [reflexivity |].
  cbn [filter]. rewrite (H x) by (left; reflexivity).
  f_equal. apply IH. intros y Hy. apply H. right. exact Hy.
Qed.

(** Removing what is not there changes nothing. *)
Lemma remove_node_absent (g : DiGraph) (n : node) :
  wf g -> ~ In n (NX.nodes g) -> NX.remove_node g n = g.
Proof.
  intros [Hnd Hadj] Hn. unfold NX.remove_node.
  rewrite filter_all.
  - rewrite <- (map_id g) at 2. apply map_ext_in. intros [u a] Hin.
    cbn [fst snd]. f_equal. apply filter_all. intros [v w] Hv. cbn [fst].
    apply negb_true_iff, String.eqb_neq. intros ->. apply Hn.
    apply (proj2 (Hadj _ _ Hin)). apply (in_map fst) in Hv. exact Hv.
  - intros [u a] Hin. cbn [fst].
    apply negb_true_iff, String.eqb_neq. intros ->. apply Hn.
    apply (in_map fst) in Hin. exact Hin.
Qed.

Lemma remove_nodes_from_absent (ns : list node) :
  forall g, wf g -> (forall n, In n ns -> ~ In n (NX.nodes g)) ->
            NX.remove_nodes_from g ns = g.
Proof.
  unfold NX.remove_nodes_from.
  induction ns as [| n ns IH]; intros g Hwf Habs; [reflexivity |].
  cbn [fold_left]. rewrite remove_node_absent.
  - apply IH; [exact Hwf |]. intros x Hx. apply Habs. right. exact Hx.
  - exact Hwf.
  - apply Habs. left. reflexivity.
Qed.

End WellFormed.

(** X11.  [remove_paths] keeps the shape of the graph (no node or successor
    twice, every successor a node), and removing the same paths a second
    time changes nothing. *)
Theorem remove_paths_idempotent (graph : DiGraph)
        (path_list : list (list node))
        (delete_entry_node delete_sink_node : bool) :
  wf graph ->
  let graph' :=
    remove_paths graph path_list delete_entry_node delete_sink_node in
  wf graph' /\
  remove_paths graph' path_list delete_entry_node delete_sink_node = graph'.
Proof.
  intros Hwf graph'. unfold graph'. rewrite !remove_paths_flat.
  assert (Hwf' : wf (NX.remove_nodes_from
                       graph
                       (all_removed path_list delete_entry_node
                                    delete_sink_node)))
    by (apply remove_nodes_from_wf; exact Hwf).
  split; [exact Hwf' |].
  apply remove_nodes_from_absent; [exact Hwf' |].
  intros n Hn Hin. apply In_nodes_remove_nodes_from in Hin. tauto.
Qed.

Lemma remove_paths_idempotent_witness :
  let graph' :=
    remove_paths Sample.bubble [["AC"; "CC"; "CA"; "AT"]] false false in
  wf graph' /\
  remove_paths graph' [["AC"; "CC"; "CA"; "AT"]] false false = graph'.
Proof.
  apply (@remove_paths_idempotent Sample.bubble [["AC"; "CC"; "CA"; "AT"]]
                                  false false).
  apply (build_graph_wf
           (build_kmer_dict ["TACGAT"; "TACGAT"; "TACCAT"] 3)).
Defined.

(** ** The average weight of a path *)

Section AverageWeight.


Lemma filter_nil {A : Type} (p : A -> bool) (l : list A) :
  filter p l = [] <-> forall x, In x l -> p x = false.
Proof.
  induction l as [| x l IH]; cbn [filter].
  - split; [intros _ y [] | reflexivity].
  - destruct (p x) eqn:Hx.
    + split; [discriminate |]. intros H.
      rewrite (H x) in Hx by (left; reflexivity). discriminate.
    + rewrite IH. split.
      * intros H y [<- | Hy]; [exact Hx | apply H; exact Hy].
      * intros H y Hy. apply H. right. exact Hy.
Qed.




Lemma map_nil {A B : Type} (f : A -> B) (l : list A) :
  map f l = [] <-> l = [].
Proof. destruct l; cbn; split; congruence. Qed.


End AverageWeight.



(** ** Starting and sink nodes *)

Section StartSink.

Lemma len_zero {A : Type} (l : list A) : (Py.len l =? 0) = true <-> l = [].
Proof.
  unfold Py.len. rewrite Z.eqb_eq. destruct l; cbn [List.length].
  - split; reflexivity.
  - split; [lia | discriminate].
Qed.

Lemma no_member (l : list node) :
  l = [] <-> forall v, NX.mem v l = false.
Proof.
  split.
  - intros -> v. reflexivity.
  - intros H. destruct l as [| x l]; [reflexivity |].
    specialize (H x). cbn in H. rewrite String.eqb_refl in H. discriminate.
Qed.

Lemma predecessors_nil (g : DiGraph) (n : node) :
  NoDup (NX.nodes g) ->
  (NX.predecessors g n = [] <-> forall u, NX.has_edge g u n = false).
Proof.
  intros Hnd. unfold NX.predecessors. rewrite map_nil, filter_nil. split.
  - intros H u. destruct (in_dec string_dec u (NX.nodes g)) as [Hu | Hu].
    + specialize (H _ (In_adj _ _ Hu)). exact H.
    + unfold NX.has_edge, NX.successors.
      rewrite adj_not_node by exact Hu. reflexivity.
  - intros H [u a] Hin. cbn [snd]. specialize (H u).
    unfold NX.has_edge, NX.successors in H.
    rewrite (@adj_In g u a Hnd Hin) in H. exact H.
Qed.

End StartSink.

(** X13.  [get_starting_nodes] returns the nodes of the graph that no edge
    enters, [get_sink_nodes] the nodes that no edge leaves, both in the
    order of the nodes of the graph. *)
Theorem starting_and_sink_nodes (graph : DiGraph) :
  wf graph ->
  (forall n, In n (get_starting_nodes graph)
             <-> In n (NX.nodes graph) /\
                 forall u, NX.has_edge graph u n = false) /\
  (forall n, In n (get_sink_nodes graph)
             <-> In n (NX.nodes graph) /\
                 forall v, NX.has_edge graph n v = false) /\
  (exists keep,
      get_starting_nodes graph = filter keep (NX.nodes graph)) /\
  (exists keep, get_sink_nodes graph = filter keep (NX.nodes graph)).
Proof.
  intros [Hnd _]. split; [| split; [| split; eexists; reflexivity]].
  - intros n. unfold get_starting_nodes. rewrite filter_In, len_zero.
    rewrite (@predecessors_nil graph n Hnd). reflexivity.
  - intros n. unfold get_sink_nodes. rewrite filter_In, len_zero.
    rewrite no_member. reflexivity.
Qed.

Lemma starting_and_sink_nodes_witness :
  (forall n, In n (get_starting_nodes Sample.entry_tip)
             <-> In n (NX.nodes Sample.entry_tip) /\
                 forall u, NX.has_edge Sample.entry_tip u n = false) /\
  (forall n, In n (get_sink_nodes Sample.entry_tip)
             <-> In n (NX.nodes Sample.entry_tip) /\
                 forall v, NX.has_edge Sample.entry_tip n v = false) /\
  (exists keep,
      get_starting_nodes Sample.entry_tip
      = filter keep (NX.nodes Sample.entry_tip)) /\
  (exists keep,
      get_sink_nodes Sample.entry_tip
      = filter keep (NX.nodes Sample.entry_tip)).
Proof.
  apply (@starting_and_sink_nodes Sample.entry_tip).
  apply (build_graph_wf (build_kmer_dict ["ACGTA"; "ACGTA"; "TCGT"] 3)).
Defined.

(** ** ContigAssembler: the loops of [get_contigs] *)

Section ContigLoops.

Variable g : DiGraph.

(** Each loop appends to the list it is given. *)
Lemma contigs_of_paths_acc (paths : list (list node)) :
  forall acc,
    contigs_of_paths paths acc
    = (l <- contigs_of_paths paths [] ;; Ok (acc ++ l)).
Proof.
  induction paths as [| n paths IH]; intros acc; cbn [contigs_of_paths].
  - cbn. rewrite app_nil_r. reflexivity.
  - destruct (contig_of_path n) as [c |]; cbn [bind]; [| reflexivity].
    rewrite IH. rewrite (IH ([] ++ _)).
    destruct (contigs_of_paths paths []) as [l |]; cbn [bind];
      [| reflexivity].
    rewrite <- app_assoc. reflexivity.
Qed.

Lemma contigs_from_acc (st : node) (ends : list node) :
  forall acc,
    contigs_from g st ends acc
    = (l <- contigs_from g st ends [] ;; Ok (acc ++ l)).
Proof.
  induction ends as [| en ends IH]; intros acc; cbn [contigs_from].
  - cbn. rewrite app_nil_r. reflexivity.
  - destruct (NX.has_path g st en) as [[|] |]; cbn [bind negb];
      [| rewrite app_nil_r; reflexivity | reflexivity].
    destruct (NX.all_simple_paths g st en) as [paths |]; cbn [bind];
      [| reflexivity].
    rewrite contigs_of_paths_acc.
    destruct (contigs_of_paths paths []) as [l |]; cbn [bind];
      [| reflexivity].
    rewrite IH. rewrite (IH l).
    destruct (contigs_from g st ends []) as [l' |]; cbn [bind];
      [| reflexivity].
    rewrite app_assoc. reflexivity.
Qed.

Lemma contigs_loop_acc (starts ends : list node) :
  forall acc,
    contigs_loop g starts ends acc
    = (l <- contigs_loop g starts ends [] ;; Ok (acc ++ l)).
Proof.
  induction starts as [| st starts IH]; intros acc; cbn [contigs_loop].
  - cbn. rewrite app_nil_r. reflexivity.
  - rewrite contigs_from_acc.
    destruct (contigs_from g st ends []) as [l |]; cbn [bind];
      [| reflexivity].
    rewrite IH. rewrite (IH l).
    destruct (contigs_loop g starts ends []) as [l' |]; cbn [bind];
      [| reflexivity].
    rewrite app_assoc. reflexivity.
Qed.

Lemma contigs_loop_app (s1 s2 ends : list node) :
  forall acc,
    contigs_loop g (s1 ++ s2) ends acc
    = (acc' <- contigs_loop g s1 ends acc ;; contigs_loop g s2 ends acc').
Proof.
  induction s1 as [| st s1 IH]; intros acc; cbn [app contigs_loop].
  - reflexivity.
  - destruct (contigs_from g st ends acc) as [acc' |]; cbn [bind];
      [apply IH | reflexivity].
Qed.

(** The loop over the ending nodes never goes past a node without path. *)
Lemma contigs_from_break (st en : node) (ends1 ends2 : list node) :
  NX.has_path g st en = Ok false ->
  forall acc,
    contigs_from g st (ends1 ++ en :: ends2) acc
    = contigs_from g st ends1 acc.
Proof.
  intros Hno. induction ends1 as [| e ends1 IH]; intros acc;
    cbn [app contigs_from].
  - rewrite Hno. reflexivity.
  - destruct (NX.has_path g st e) as [[|] |]; cbn [bind negb];
      [| reflexivity | reflexivity].
    destruct (NX.all_simple_paths g st e) as [paths |]; cbn [bind];
      [| reflexivity].
    destruct (contigs_of_paths paths acc) as [acc' |]; cbn [bind];
      [apply IH | reflexivity].
Qed.

End ContigLoops.

(** X14.  An ending node that no starting node has a path to hides every
    ending node listed after it: [get_contigs] returns what it returns for
    the ending nodes listed before it. *)
Theorem get_contigs_break (graph : DiGraph) (starting_nodes : list node)
        (en_node : node) (before after : list node) :
  Forall (fun st_node => NX.has_path graph st_node en_node = Ok false)
         starting_nodes ->
  get_contigs graph starting_nodes (before ++ en_node :: after)
  = get_contigs graph starting_nodes before.
Proof.
  intros Hno. unfold get_contigs. generalize (@nil contig_entry).
  induction Hno as [| st starts Hst _ IH]; intros acc; cbn [contigs_loop].
  - reflexivity.
  - rewrite (@contigs_from_break graph st en_node before after Hst).
    destruct (contigs_from graph st before acc) as [acc' |]; cbn [bind];
      [apply IH | reflexivity].
Qed.

Lemma get_contigs_break_witness :
  get_contigs Sample.two_reads ["TT"] ([] ++ "CG" :: ["TA"])
  = get_contigs Sample.two_reads ["TT"] [].
Proof.
  apply (@get_contigs_break Sample.two_reads ["TT"] "CG" [] ["TA"]).
  repeat constructor.
Defined.

(** X15.  The contigs come starting node by starting node: for two lists
    of starting nodes one after the other, [get_contigs] returns the
    contigs of the first list followed by those of the second, and raises
    when it raises for either. *)
Theorem get_contigs_app (graph : DiGraph) (starts1 starts2 ends : list node) :
  get_contigs graph (starts1 ++ starts2) ends
  = (l1 <- get_contigs graph starts1 ends ;;
     l2 <- get_contigs graph starts2 ends ;;
     Ok (l1 ++ l2)).
Proof.
  unfold get_contigs. rewrite contigs_loop_app.
  destruct (contigs_loop graph starts1 ends []) as [l1 |]; cbn [bind];
    [| reflexivity].
  apply contigs_loop_acc.
Qed.

(** X16.  [get_contigs] returns the empty list when either list of nodes
    is empty, whatever the other holds; with both lists non-empty it raises
    [NodeNotFound] when the first starting node or the first ending node is
    not a node of the graph. *)
Theorem get_contigs_edge_cases (graph : DiGraph) :
  (forall ending_nodes, get_contigs graph [] ending_nodes = Ok []) /\
  (forall starting_nodes, get_contigs graph starting_nodes [] = Ok []) /\
  (forall st_node starting_nodes en_node ending_nodes,
      NX.has_node graph st_node = false \/
      NX.has_node graph en_node = false ->
      get_contigs graph (st_node :: starting_nodes)
                  (en_node :: ending_nodes)
      = Err NodeNotFound).
Proof.
  split; [reflexivity |]. split.
  - intros starts. unfold get_contigs.
    induction starts as [| st starts IH]; [reflexivity | exact IH].
  - intros st starts en ends H. unfold get_contigs.
    cbn [contigs_loop contigs_from]. unfold NX.has_path.
    destruct (NX.has_node graph st); cbn [negb bind]; [| reflexivity].
    destruct H as [H | H]; [discriminate |].
    rewrite H. reflexivity.
Qed.

(** ** ContigAssembler: what a contig is made of *)

Section ContigText.

Lemma last_char_append (s : string) (ch : ascii) :
  Py.last_char (s ++ String ch EmptyString) = Ok ch.
Proof.
  induction s as [| c s IH]; [reflexivity |].
  cbn [append Py.last_char]. rewrite IH.
  destruct (s ++ String ch EmptyString)%string eqn:Hs; [| reflexivity].
  destruct s; discriminate.
Qed.

Lemma append_assoc (a b c : string) :
  ((a ++ b) ++ c = a ++ (b ++ c))%string.
Proof. induction a as [| x a IH]; cbn; [reflexivity | now rewrite IH]. Qed.

(** The loop of [get_contigs] over the nodes after the first appends one
    character per node, the last character of the node. *)
Lemma extend_contig_text (rest : list node) :
  forall contig c,
    extend_contig contig rest = Ok c ->
    exists tail,
      c = (contig ++ tail)%string /\
      String.length tail = List.length rest /\
      (forall en rest', rest = rest' ++ [en] ->
                        Py.last_char c = Py.last_char en).
Proof.
  induction rest as [| kmer rest IH]; intros contig c H; cbn in H.
  - inversion H; subst. exists EmptyString. split; [| split].
    + clear. induction c as [| x c IH]; cbn; [reflexivity |].
      rewrite <- IH. reflexivity.
    + reflexivity.
    + intros en rest' Hr. destruct rest'; discriminate.
  - destruct (Py.last_char kmer) as [ch |] eqn:Hch; cbn [bind] in H;
      [| discriminate].
    destruct (IH _ _ H) as [tail [Hc [Hlen Hlast]]].
    exists (String ch tail). split; [| split].
    + rewrite Hc, append_assoc. reflexivity.
    + cbn. rewrite Hlen. reflexivity.
    + intros en rest' Hr. destruct rest' as [| x rest''].
      * cbn in Hr. inversion Hr; subst. cbn in H. inversion H; subst.
        rewrite last_char_append. symmetry. exact Hch.
      * cbn in Hr. inversion Hr; subst. apply (Hlast en rest'').
        reflexivity.
Qed.

(** Every path that the enumeration yields ends in the target. *)
Lemma dfs_target (g : DiGraph) (cutoff : nat) :
  forall (target : node) (visited : list node) (u : node) (p : list node),
    In p (NX.dfs cutoff g target visited u) ->
    exists rest, p = visited ++ rest ++ [target].
Proof.
  induction cutoff as [| c IH]; intros target visited u p Hp;
    [contradiction |].
  cbn [NX.dfs] in Hp. apply in_flat_map in Hp.
  destruct Hp as [child [Hchild Hp]].
  destruct (NX.mem child visited); [contradiction |].
  destruct (String.eqb_spec child target) as [-> | Hne].
  - destruct Hp as [<- | []]. exists []. reflexivity.
  - destruct (IH _ _ _ _ Hp) as [rest ->].
    exists (child :: rest). rewrite <- app_assoc. reflexivity.
Qed.

Lemma all_simple_paths_ends (g : DiGraph) (st en : node)
      (paths : list (list node)) (p : list node) :
  NX.all_simple_paths g st en = Ok paths ->
  In p paths ->
  exists rest, p = st :: rest ++ [en].
Proof.
  unfold NX.all_simple_paths.
  destruct (NX.has_node g st); cbn [negb]; [| discriminate].
  destruct (NX.has_node g en); cbn [negb]; [| discriminate].
  destruct (String.eqb st en); intros H Hp; inversion H; subst;
    [contradiction |].
  destruct (dfs_target _ _ _ _ _ _ Hp) as [rest ->]. exists rest.
  reflexivity.
Qed.

(** What [get_contigs] promises of a contig, for given lists of nodes. *)
Let made_of (starts ends : list node) (e : contig_entry) : Prop :=
  exists st en tail,
    In st starts /\ In en ends /\
    fst e = (st ++ tail)%string /\
    Py.last_char (fst e) = Py.last_char en.

Lemma contigs_of_paths_made_of (starts ends : list node) (st en : node)
      (paths : list (list node)) :
  In st starts -> In en ends ->
  (forall p, In p paths -> exists rest, p = st :: rest ++ [en]) ->
  forall acc l,
    Forall (made_of starts ends) acc ->
    contigs_of_paths paths acc = Ok l ->
    Forall (made_of starts ends) l.
Proof.
  intros Hst Hen. induction paths as [| p paths IH];
    intros Hp acc l Hacc H; cbn [contigs_of_paths] in H.
  - inversion H; subst. exact Hacc.
  - destruct (contig_of_path p) as [c |] eqn:Hc; cbn [bind] in H;
      [| discriminate].
    refine (IH _ _ _ _ H).
    + intros q Hq. apply Hp. right. exact Hq.
    + apply Forall_app. split; [exact Hacc |].
      constructor; [| constructor].
      destruct (Hp p (or_introl eq_refl)) as [rest ->].
      cbn [contig_of_path] in Hc.
      destruct (extend_contig_text _ _ Hc) as [tail [Heq [_ Hlast]]].
      exists st, en, tail. cbn [fst].
      repeat (split; [assumption |]). apply (Hlast en rest). reflexivity.
Qed.

Lemma contigs_from_made_of (g : DiGraph) (starts all_ends : list node)
      (st : node) (ends : list node) :
  In st starts -> incl ends all_ends ->
  forall acc l,
    Forall (made_of starts all_ends) acc ->
    contigs_from g st ends acc = Ok l ->
    Forall (made_of starts all_ends) l.
Proof.
  intros Hst. induction ends as [| en ends IH]; intros Hincl acc l Hacc H;
    cbn [contigs_from] in H.
  - inversion H; subst. exact Hacc.
  - destruct (NX.has_path g st en) as [[|] |]; cbn [bind negb] in H;
      [| inversion H; subst; exact Hacc | discriminate].
    destruct (NX.all_simple_paths g st en) as [paths |] eqn:Hpaths;
      cbn [bind] in H; [| discriminate].
    destruct (contigs_of_paths paths acc) as [acc' |] eqn:Hacc';
      cbn [bind] in H; [| discriminate].
    refine (IH _ _ _ _ H).
    + intros x Hx. apply Hincl. right. exact Hx.
    + refine (@contigs_of_paths_made_of starts all_ends st en paths
                Hst _ _ acc acc' Hacc Hacc').
      * apply Hincl. left. reflexivity.
      * intros p Hp.
        apply (@all_simple_paths_ends g st en paths p Hpaths Hp).
Qed.

Lemma contigs_loop_made_of (g : DiGraph) (all_starts ends : list node)
      (starts : list node) :
  incl starts all_starts ->
  forall acc l,
    Forall (made_of all_starts ends) acc ->
    contigs_loop g starts ends acc = Ok l ->
    Forall (made_of all_starts ends) l.
Proof.
  induction starts as [| st starts IH]; intros Hincl acc l Hacc H;
    cbn [contigs_loop] in H.
  - inversion H; subst. exact Hacc.
  - destruct (contigs_from g st ends acc) as [acc' |] eqn:Hacc';
      cbn [bind] in H; [| discriminate].
    refine (IH _ _ _ _ H).
    + intros x Hx. apply Hincl. right. exact Hx.
    + refine (@contigs_from_made_of g all_starts ends st ends _ _
                acc acc' Hacc Hacc').
      * apply Hincl. left. reflexivity.
      * apply incl_refl.
Qed.

End ContigText.

(** X17.  Every contig that [get_contigs] returns begins with the whole
    text of one of the starting nodes and ends with the last character of
    one of the ending nodes. *)
Theorem get_contigs_text (graph : DiGraph)
        (starting_nodes ending_nodes : list node) (l : list contig_entry) :
  get_contigs graph starting_nodes ending_nodes = Ok l ->
  forall contig n,
    In (contig, n) l ->
    exists st_node en_node tail,
      In st_node starting_nodes /\ In en_node ending_nodes /\
      contig = (st_node ++ tail)%string /\
      Py.last_char contig = Py.last_char en_node.
Proof.
  intros H contig n Hin. unfold get_contigs in H.
  pose proof (@contigs_loop_made_of graph starting_nodes ending_nodes
                starting_nodes (incl_refl _) [] l (Forall_nil _) H) as Hall.
  rewrite Forall_forall in Hall. exact (Hall _ Hin).
Qed.

Lemma get_contigs_text_witness :
  get_contigs Sample.bubble ["TA"] ["AT"]
  = Ok [("TACGAT", 6); ("TACCAT", 6)] /\
  forall contig n,
    In (contig, n) [("TACGAT", 6); ("TACCAT", 6)] ->
    exists st_node en_node tail,
      In st_node ["TA"] /\ In en_node ["AT"] /\
      contig = (st_node ++ tail)%string /\
      Py.last_char contig = Py.last_char en_node.
Proof.
  split; [reflexivity |].
  apply (@get_contigs_text Sample.bubble ["TA"] ["AT"]). reflexivity.
Defined.

(** ** The contig sink: lines of fixed width *)

Section Fill.

Lemma substring_length_min (s : string) :
  forall n m,
    String.length (substring n m s)
    = Nat.min m (String.length s - n).
Proof.
  induction s as [| c s IH]; intros n m.
  - rewrite substring_empty. cbn. lia.
  - destruct n as [| n].
    + destruct m as [| m]; [reflexivity |].
      cbn [substring String.length]. rewrite IH. lia.
    + cbn [substring String.length]. rewrite IH. reflexivity.
Qed.

(** A substring asked beyond the end of the string stops at the end. *)
Lemma substring_trunc (s : string) :
  forall n m,
    substring n (Nat.min m (String.length s - n)) s = substring n m s.
Proof.
  induction s as [| c s IH]; intros n m.
  - rewrite !substring_empty. reflexivity.
  - destruct n as [| n].
    + destruct m as [| m]; [reflexivity |].
      cbn [String.length Nat.sub Nat.min substring].
      f_equal. rewrite <- (IH 0%nat m). rewrite Nat.sub_0_r. reflexivity.
    + cbn [String.length Nat.sub substring]. apply IH.
Qed.

Lemma substring_app (s : string) :
  forall off a b,
    (substring off a s ++ substring (off + a) b s)%string
    = substring off (a + b) s.
Proof.
  induction s as [| c s IH]; intros off a b.
  - rewrite !substring_empty. reflexivity.
  - destruct off as [| off].
    + destruct a as [| a]; [reflexivity |].
      cbn [Nat.add substring append]. f_equal. apply (IH 0%nat).
    + cbn [Nat.add substring]. apply IH.
Qed.

Lemma concat_empty_cons (x : string) (l : list string) :
  String.concat EmptyString (x :: l)
  = (x ++ String.concat EmptyString l)%string.
Proof.
  destruct l as [| y l]; cbn [String.concat append]; [| reflexivity].
  clear. induction x as [| c x IH]; cbn; [reflexivity | now rewrite <- IH].
Qed.

Lemma substring_zero (s : string) :
  forall off, substring off 0 s = EmptyString.
Proof.
  induction s as [| c s IH]; intros [| off]; cbn [substring];
    try reflexivity.
  apply IH.
Qed.

(** Consecutive pieces of [w] characters, put end to end. *)
Lemma concat_pieces (text : string) (w : nat) (n : nat) :
  forall off,
    String.concat EmptyString
                  (map (fun i => substring (off + i * w) w text) (seq 0 n))
    = substring off (n * w) text.
Proof.
  induction n as [| n IH]; intros off.
  - cbn. rewrite substring_zero. reflexivity.
  - cbn [seq map]. rewrite <- seq_shift, map_map.
    rewrite concat_empty_cons.
    rewrite (map_ext _ (fun i => substring (off + w + i * w) w text))
      by (intros i; f_equal; lia).
    rewrite IH. replace (off + 0 * w)%nat with off by lia.
    rewrite substring_app. f_equal.
Qed.

(** A slice that starts inside the string. *)
Lemma str_slice_from (text : string) (i k : Z) :
  0 <= i <= Py.len_str text -> 0 <= k ->
  Py.str_slice text i (i + k) = substring (Z.to_nat i) (Z.to_nat k) text.
Proof.
  intros Hi Hk. unfold Py.str_slice, Py.clamp, Py.len_str in *.
  destruct (Z.ltb_spec i 0); [lia |].
  destruct (Z.ltb_spec (i + k) 0); [lia |].
  rewrite (Z.min_l i) by lia.
  rewrite <- (substring_trunc text (Z.to_nat i) (Z.to_nat k)).
  f_equal. lia.
Qed.

Lemma fill_lines_pieces (text : string) (width : Z) :
  1 <= width ->
  fill_lines text width
  = Ok (map (fun i => substring (i * Z.to_nat width) (Z.to_nat width) text)
            (seq 0 (Z.to_nat ((Py.len_str text + width - 1) / width)))).
Proof.
  intros Hw. unfold fill_lines, range_step.
  destruct (Z.eqb_spec width 0); [lia |].
  destruct (Z.ltb_spec 0 width); [| lia].
  cbn [bind]. rewrite map_map. f_equal.
  replace (Py.len_str text - 0 + width - 1)
    with (Py.len_str text + width - 1) by lia.
  apply map_ext_in. intros i Hi. apply in_seq in Hi.
  assert (Hoff : 0 <= 0 + Z.of_nat i * width <= Py.len_str text).
  { unfold Py.len_str in *.
    assert (Z.of_nat i < (Z.of_nat (String.length text) + width - 1) / width)
      by lia.
    split; [nia |].
    assert (Z.of_nat i + 1
            <= (Z.of_nat (String.length text) + width - 1) / width) by lia.
    assert ((Z.of_nat i + 1) * width
            <= Z.of_nat (String.length text) + width - 1).
    { pose proof (Z.mul_div_le
                    (Z.of_nat (String.length text) + width - 1) width).
      nia. }
    nia. }
  rewrite str_slice_from by lia. f_equal. lia.
Qed.

End Fill.

(** X18.  For a width of 1 or more, [fill] cuts the text into lines that,
    put end to end, are the text: [ceil(len(text) / width)] lines, none
    empty, none longer than the width, all but the last of exactly the
    width; [fill] joins them by the line separator. *)
Theorem fill_lines_spec (linesep text : string) (width : Z) :
  1 <= width ->
  exists lines,
    fill_lines text width = Ok lines /\
    fill linesep text width = Ok (String.concat linesep lines) /\
    String.concat EmptyString lines = text /\
    Py.len lines = (Py.len_str text + width - 1) / width /\
    Forall (fun line => 1 <= Py.len_str line <= width) lines /\
    (forall i, (S i < List.length lines)%nat ->
               Py.len_str (nth i lines EmptyString) = width).
Proof.
  intros Hw. pose proof (fill_lines_pieces text Hw) as Hlines.
  set (w := Z.to_nat width) in *.
  set (n := Z.to_nat ((Py.len_str text + width - 1) / width)) in *.
  set (L := String.length text).
  assert (Hn : (n * w >= L)%nat /\ (forall i, (i < n)%nat -> i * w < L)%nat).
  { unfold n, w, L, Py.len_str.
    assert (Hdiv : 0 <= (Z.of_nat (String.length text) + width - 1) / width)
      by (apply Z.div_pos; lia).
    split.
    - assert (Z.of_nat (String.length text)
              <= (Z.of_nat (String.length text) + width - 1) / width * width).
      { pose proof (Z.mul_succ_div_gt
                      (Z.of_nat (String.length text) + width - 1) width).
        nia. }
      nia.
    - intros i Hi.
      assert (Z.of_nat i + 1
              <= (Z.of_nat (String.length text) + width - 1) / width)
        by lia.
      assert ((Z.of_nat i + 1) * width
              <= Z.of_nat (String.length text) + width - 1).
      { pose proof (Z.mul_div_le
                      (Z.of_nat (String.length text) + width - 1) width).
        nia. }
      nia. }
  destruct Hn as [Hcover Hinside].
  eexists. split; [exact Hlines |]. split; [| split; [| split; [| split]]].
  - unfold fill. rewrite Hlines. reflexivity.
  - rewrite (map_ext _ (fun i => substring (0 + i * w) w text))
      by reflexivity.
    rewrite concat_pieces.
    rewrite <- (substring_trunc text 0 (n * w)).
    replace (Nat.min (n * w) (String.length text - 0))
      with (String.length text) by (fold L; lia).
    apply substring_all.
  - unfold Py.len. rewrite length_map, length_seq. unfold n.
    rewrite Z2Nat.id; [reflexivity |].
    apply Z.div_pos; unfold Py.len_str; lia.
  - apply Forall_forall. intros line Hin. apply in_map_iff in Hin.
    destruct Hin as [i [<- Hi]]. apply in_seq in Hi.
    unfold Py.len_str. rewrite substring_length_min. fold L.
    specialize (Hinside i ltac:(lia)). unfold w in *. lia.
  - intros i Hi. rewrite length_map, length_seq in Hi.
    rewrite (nth_indep _ EmptyString (substring (0 * w) w text))
      by (rewrite length_map, length_seq; lia).
    rewrite (map_nth (fun i => substring (i * w) w text)).
    rewrite seq_nth by lia. cbn [Nat.add].
    unfold Py.len_str. rewrite substring_length_min. fold L.
    specialize (Hinside (S i) Hi). unfold w in *. lia.
Qed.

Lemma fill_lines_spec_witness :
  exists lines,
    fill_lines "TACGATTACA" 4 = Ok lines /\
    fill "|" "TACGATTACA" 4 = Ok (String.concat "|" lines) /\
    String.concat EmptyString lines = "TACGATTACA" /\
    Py.len lines = (Py.len_str "TACGATTACA" + 4 - 1) / 4 /\
    Forall (fun line => 1 <= Py.len_str line <= 4) lines /\
    (forall i, (S i < List.length lines)%nat ->
               Py.len_str (nth i lines EmptyString) = 4).
Proof. apply (@fill_lines_spec "|" "TACGATTACA" 4). lia. Defined.

Example fill_ex :
  fill "|" "TACGATTACA" 4 = Ok "TACG|ATTA|CA".
Proof. reflexivity. Qed.

(** X19.  [fill] raises [ValueError] for a width of 0 and returns the
    empty string for a negative width, whatever the text. *)
Theorem fill_width_not_positive (linesep text : string) (width : Z) :
  (width = 0 -> fill linesep text width = Err ValueError) /\
  (width < 0 -> fill linesep text width = Ok EmptyString).
Proof.
  split; intros Hw; unfold fill, fill_lines, range_step.
  - subst. reflexivity.
  - destruct (Z.eqb_spec width 0); [lia |].
    destruct (Z.ltb_spec 0 width); [lia |]. cbn [bind].
    replace (Z.to_nat ((0 - Py.len_str text - width - 1) / - width))
      with 0%nat; [reflexivity |].
    unfold Py.len_str.
    assert ((0 - Z.of_nat (String.length text) - width - 1) / - width <= 0).
    { apply Z.lt_succ_r. apply Z.div_lt_upper_bound; lia. }
    lia.
Qed.

Lemma fill_width_not_positive_witness :
  fill "|" "TACG" 0 = Err ValueError /\
  fill "|" "TACG" (-3) = Ok EmptyString.
Proof.
  split.
  - apply (proj1 (@fill_width_not_positive "|" "TACG" 0)). reflexivity.
  - apply (proj2 (@fill_width_not_positive "|" "TACG" (-3))). reflexivity.
Defined.

(** ** From a read to its contig *)

Section RoundTrip.

Lemma cut_kmer_pieces (read : string) (k : Z) :
  1 <= k <= Py.len_str read ->
  cut_kmer read k
  = map (fun i => substring i (Z.to_nat k) read)
        (seq 0 (String.length read - Z.to_nat k + 1)).
Proof.
  intros Hk. unfold cut_kmer, Py.range. rewrite map_map.
  unfold Py.len_str in *.
  replace (Z.to_nat (Z.of_nat (String.length read) - k + 1 - 0))
    with (String.length read - Z.to_nat k + 1)%nat by lia.
  apply map_ext_in. intros i Hi. apply in_seq in Hi.
  rewrite str_slice_inside by (unfold Py.len_str; lia).
  f_equal. lia.
Qed.

(** The last character of a piece of the string. *)
Lemma last_char_substring (s : string) (n m : nat) :
  (1 <= m)%nat -> (n + m <= String.length s)%nat ->
  exists c,
    Py.last_char (substring n m s) = Ok c /\
    substring (n + m - 1) 1 s = String c EmptyString.
Proof.
  intros Hm Hlen.
  pose proof (substring_app s n (m - 1) 1) as Happ.
  replace (m - 1 + 1)%nat with m in Happ by lia.
  replace (n + (m - 1))%nat with (n + m - 1)%nat in Happ by lia.
  pose proof (substring_length s (n + m - 1) 1 ltac:(lia)) as Hone.
  destruct (substring (n + m - 1) 1 s) as [| c [| c' t]] eqn:Hs;
    cbn in Hone; try lia.
  exists c. split; [| reflexivity].
  rewrite <- Happ. apply last_char_append.
Qed.

(** Extending the first [k + j] characters of the read by the pieces that
    follow gives the read. *)
Lemma extend_contig_pieces (read : string) (k : nat) (count : nat) :
  forall j,
    (1 <= k)%nat ->
    (j + k + count = String.length read)%nat ->
    extend_contig (substring 0 (j + k) read)
                  (map (fun i => substring i k read) (seq (S j) count))
    = Ok read.
Proof.
  induction count as [| count IH]; intros j Hk Hlen.
  - cbn. f_equal. replace (j + k)%nat with (String.length read) by lia.
    apply substring_all.
  - cbn [seq map extend_contig].
    destruct (@last_char_substring read (S j) k Hk ltac:(lia))
      as [c [Hc Hone]].
    rewrite Hc. cbn [bind]. rewrite <- Hone.
    replace (S j + k - 1)%nat with (0 + (j + k))%nat by lia.
    rewrite substring_app.
    replace (j + k + 1)%nat with (S j + k)%nat by lia.
    apply IH; lia.
Qed.

Lemma contig_of_pieces (read : string) (k : Z) :
  1 <= k <= Py.len_str read ->
  contig_of_path (cut_kmer read k) = Ok read.
Proof.
  intros Hk. rewrite cut_kmer_pieces by exact Hk.
  unfold Py.len_str in Hk.
  replace (String.length read - Z.to_nat k + 1)%nat
    with (S (String.length read - Z.to_nat k)) by lia.
  cbn [seq map contig_of_path].
  apply (@extend_contig_pieces read (Z.to_nat k)
           (String.length read - Z.to_nat k) 0%nat); lia.
Qed.

End RoundTrip.

(** X20.  Round trip: the contig rebuilt along the successive pieces of
    [k] characters of a read, as [cut_kmer] yields them, is the read.  (The
    walk of a read in the graph of its (k+1)-mers goes through exactly
    these pieces.) *)
Theorem contig_of_cut_kmer (read : string) (k : Z) :
  1 <= k <= Py.len_str read ->
  contig_of_path (cut_kmer read k) = Ok read.
Proof. apply contig_of_pieces. Qed.

Lemma contig_of_cut_kmer_witness :
  contig_of_path (cut_kmer "TACGAT" 2) = Ok "TACGAT".
Proof.
  apply (@contig_of_cut_kmer "TACGAT" 2). vm_compute.
  split; discriminate.
Defined.

(** ** The graph of one read without repeat *)

Section PathGraph.

Lemma nodes_path_graph (ns : list node) : NX.nodes (path_graph ns) = ns.
Proof.
  induction ns as [| n [| n' rest] IH]; [reflexivity | reflexivity |].
  change (path_graph (n :: n' :: rest))
    with ((n, [(n', 1)]) :: path_graph (n' :: rest)).
  cbn [NX.nodes map fst]. f_equal. exact IH.
Qed.

Lemma In_path_graph_edge (pre post : list node) (u v : node) :
  In (u, [(v, 1)]) (path_graph (pre ++ u :: v :: post)).
Proof.
  induction pre as [| n pre IH].
  - left. reflexivity.
  - cbn [app].
    destruct (pre ++ u :: v :: post) as [| x l] eqn:Hl;
      [destruct pre; discriminate |].
    change (path_graph (n :: x :: l))
      with ((n, [(x, 1)]) :: path_graph (x :: l)).
    right. exact IH.
Qed.

Lemma In_path_graph_last (pre : list node) (u : node) :
  In (u, []) (path_graph (pre ++ [u])).
Proof.
  induction pre as [| n pre IH].
  - left. reflexivity.
  - cbn [app].
    destruct (pre ++ [u]) as [| x l] eqn:Hl; [destruct pre; discriminate |].
    change (path_graph (n :: x :: l))
      with ((n, [(x, 1)]) :: path_graph (x :: l)).
    right. exact IH.
Qed.

Lemma adj_path_graph_edge (pre post : list node) (u v : node) :
  NoDup (pre ++ u :: v :: post) ->
  NX.adj (path_graph (pre ++ u :: v :: post)) u = [(v, 1)].
Proof.
  intros Hnd. apply adj_In.
  - rewrite nodes_path_graph. exact Hnd.
  - apply In_path_graph_edge.
Qed.

Lemma adj_path_graph_last (pre : list node) (u : node) :
  NoDup (pre ++ [u]) -> NX.adj (path_graph (pre ++ [u])) u = [].
Proof.
  intros Hnd. apply adj_In.
  - rewrite nodes_path_graph. exact Hnd.
  - apply In_path_graph_last.
Qed.

(** Every entry of the path graph is an edge to the next node, or the
    last node. *)
Lemma path_graph_entries (ns : list node) (u : node) (a : list (node * Z)) :
  In (u, a) (path_graph ns) ->
  (exists pre v post, ns = pre ++ u :: v :: post /\ a = [(v, 1)])
  \/ (exists pre, ns = pre ++ [u] /\ a = []).
Proof.
  induction ns as [| n [| n' rest] IH]; intros Hin.
  - contradiction.
  - destruct Hin as [Heq | []]. inversion Heq; subst.
    right. exists []. split; reflexivity.
  - change (path_graph (n :: n' :: rest))
      with ((n, [(n', 1)]) :: path_graph (n' :: rest)) in Hin.
    destruct Hin as [Heq | Hin].
    + inversion Heq; subst. left. exists [], n', rest. split; reflexivity.
    + destruct (IH Hin) as [[pre [v [post [Hns Ha]]]] | [pre [Hns Ha]]].
      * left. exists (n :: pre), v, post. rewrite Hns. split;
          [reflexivity | exact Ha].
      * right. exists (n :: pre). rewrite Hns. split;
          [reflexivity | exact Ha].
Qed.

Lemma path_graph_wf (ns : list node) : NoDup ns -> wf (path_graph ns).
Proof.
  intros Hnd. split; [rewrite nodes_path_graph; exact Hnd |].
  intros u a Hin. rewrite nodes_path_graph.
  destruct (path_graph_entries _ _ _ Hin)
    as [[pre [v [post [-> ->]]]] | [pre [-> ->]]].
  - split; [repeat constructor; intros [] |].
    intros x [<- | []]. apply in_app_iff. right. right. left. reflexivity.
  - split; [constructor | intros x []].
Qed.

(** The edges of the path graph join a node to the next. *)
Lemma has_edge_path_graph (ns : list node) (u v : node) :
  NoDup ns ->
  (NX.has_edge (path_graph ns) u v = true
   <-> exists pre post, ns = pre ++ u :: v :: post).
Proof.
  intros Hnd. rewrite has_edge_In. split.
  - intros Hin.
    destruct (in_dec string_dec u ns) as [Hu | Hu].
    + rewrite <- nodes_path_graph in Hu. apply In_adj in Hu.
      destruct (path_graph_entries _ _ _ Hu)
        as [[pre [x [post [Hns Ha]]]] | [pre [Hns Ha]]];
        rewrite Ha in Hin; [| contradiction].
      destruct Hin as [<- | []]. exists pre, post. exact Hns.
    + rewrite adj_not_node in Hin
        by (rewrite nodes_path_graph; exact Hu).
      contradiction.
  - intros [pre [post ->]]. rewrite adj_path_graph_edge by exact Hnd.
    left. reflexivity.
Qed.

Lemma is_path_path_graph (pre ns : list node) :
  NoDup (pre ++ ns) -> is_path (path_graph (pre ++ ns)) ns = true.
Proof.
  revert pre. induction ns as [| u ns IH]; intros pre Hnd; [reflexivity |].
  cbn [is_path]. apply andb_true_iff. split.
  - apply has_node_In. rewrite nodes_path_graph.
    apply in_app_iff. right. left. reflexivity.
  - destruct ns as [| v ns]; [reflexivity |].
    apply andb_true_iff. split.
    + apply has_edge_path_graph; [exact Hnd |]. exists pre, ns. reflexivity.
    + specialize (IH (pre ++ [u])). rewrite <- app_assoc in IH.
      apply IH. exact Hnd.
Qed.

End PathGraph.

Section PathGraphSearch.

(** One round of the search for reachable nodes. *)
Let step (g : DiGraph) (seen : list node) : list node :=
  nodup string_dec (seen ++ flat_map (NX.successors g) seen).

Lemma last_default (l : list node) (d d' : node) :
  l <> [] -> last l d = last l d'.
Proof.
  induction l as [| x [| y l] IH]; intros Hne; [congruence | reflexivity |].
  change (last (x :: y :: l) d) with (last (y :: l) d).
  change (last (x :: y :: l) d') with (last (y :: l) d').
  apply IH. discriminate.
Qed.

Lemma last_In (l : list node) (d : node) : l <> [] -> In (last l d) l.
Proof.
  induction l as [| x [| y l] IH]; intros Hne; [congruence | |].
  - left. reflexivity.
  - change (last (x :: y :: l) d) with (last (y :: l) d).
    right. apply IH. discriminate.
Qed.

Lemma step_keeps (g : DiGraph) (seen : list node) (x : node) :
  In x seen -> In x (step g seen).
Proof. intros H. apply nodup_In, in_app_iff. left. exact H. Qed.

Lemma step_follows (g : DiGraph) (seen : list node) (x y : node) :
  In x seen -> In y (NX.successors g x) -> In y (step g seen).
Proof.
  intros Hx Hy. apply nodup_In, in_app_iff. right.
  apply in_flat_map. exists x. tauto.
Qed.

Lemma reach_keeps (g : DiGraph) (fuel : nat) :
  forall seen x, In x seen -> In x (NX.reach fuel g seen).
Proof.
  induction fuel as [| f IH]; intros seen x Hx; [exact Hx |].
  cbn [NX.reach]. apply IH. apply (step_keeps g). exact Hx.
Qed.

(** The end of a walk is reached, with one round per edge of the walk. *)
Lemma reach_walk (g : DiGraph) (walk : list node) :
  forall (s : node) (seen : list node) (fuel : nat),
    is_path g (s :: walk) = true ->
    In s seen ->
    (List.length walk <= fuel)%nat ->
    In (last (s :: walk) s) (NX.reach fuel g seen).
Proof.
  induction walk as [| v walk IH]; intros s seen fuel Hp Hs Hfuel.
  - apply reach_keeps. exact Hs.
  - destruct fuel as [| f]; [cbn in Hfuel; lia |].
    cbn [is_path] in Hp. apply andb_true_iff in Hp. destruct Hp as [_ Hp].
    apply andb_true_iff in Hp. destruct Hp as [He Hp].
    cbn [NX.reach].
    change (last (s :: v :: walk) s) with (last (v :: walk) s).
    rewrite (@last_default (v :: walk) s v) by discriminate.
    apply IH.
    + exact Hp.
    + apply (step_follows g seen s v Hs). apply has_edge_In in He.
      exact He.
    + cbn in Hfuel. lia.
Qed.

(** From a node of the path graph, the enumeration yields the one path
    that goes on to the last node. *)
Lemma dfs_path_graph (post : list node) :
  forall (pre : list node) (u : node),
    post <> [] ->
    NoDup (pre ++ u :: post) ->
    NX.dfs (List.length post) (path_graph (pre ++ u :: post))
           (last post u) (pre ++ [u]) u
    = [pre ++ u :: post].
Proof.
  induction post as [| v post IH]; intros pre u Hne Hnd; [congruence |].
  cbn [List.length NX.dfs]. unfold NX.successors.
  rewrite adj_path_graph_edge by exact Hnd. cbn [map fst flat_map].
  assert (Hsplit : pre ++ u :: v :: post = (pre ++ [u]) ++ v :: post)
    by (rewrite <- app_assoc; reflexivity).
  assert (Hnd' : NoDup ((pre ++ [u]) ++ v :: post))
    by (rewrite <- Hsplit; exact Hnd).
  apply NoDup_remove_2 in Hnd'.
  assert (Hv : NX.mem v (pre ++ [u]) = false).
  { apply mem_false. intros Hin. apply Hnd'. apply in_app_iff. tauto. }
  rewrite Hv, app_nil_r.
  destruct post as [| w post].
  - cbn [last]. rewrite String.eqb_refl, Hsplit. reflexivity.
  - assert (Hlast : last (v :: w :: post) u = last (w :: post) v).
    { change (last (v :: w :: post) u) with (last (w :: post) u).
      apply last_default. discriminate. }
    rewrite Hlast.
    assert (Hneq : String.eqb v (last (w :: post) v) = false).
    { apply String.eqb_neq. intros Heq. apply Hnd'.
      apply in_app_iff. right. rewrite Heq. apply last_In. discriminate. }
    rewrite Hneq, Hsplit.
    apply IH; [discriminate |]. rewrite <- Hsplit. exact Hnd.
Qed.

End PathGraphSearch.

Section PathGraphEnds.

Lemma length_path_graph (ns : list node) :
  List.length (path_graph ns) = List.length ns.
Proof.
  rewrite <- (nodes_path_graph ns) at 2. unfold NX.nodes.
  rewrite length_map. reflexivity.
Qed.

(** The one node of the path graph that no edge enters is the first. *)
Lemma starting_nodes_path_graph (n0 : node) (rest : list node) :
  NoDup (n0 :: rest) ->
  get_starting_nodes (path_graph (n0 :: rest)) = [n0].
Proof.
  intros Hnd. unfold get_starting_nodes. rewrite nodes_path_graph.
  assert (Hnodes : NoDup (NX.nodes (path_graph (n0 :: rest))))
    by (rewrite nodes_path_graph; exact Hnd).
  cbn [filter].
  assert (H0 : (Py.len (NX.predecessors (path_graph (n0 :: rest)) n0) =? 0)
               = true).
  { apply len_zero. apply (@predecessors_nil _ n0 Hnodes). intros u.
    destruct (NX.has_edge (path_graph (n0 :: rest)) u n0) eqn:He;
      [| reflexivity].
    apply (@has_edge_path_graph _ u n0 Hnd) in He.
    destruct He as [pre [post Hns]]. exfalso.
    apply NoDup_cons_iff in Hnd. destruct Hnd as [Hn0 _]. apply Hn0.
    destruct pre as [| x pre]; cbn [app] in Hns; inversion Hns; subst.
    - left. reflexivity.
    - apply in_app_iff. right. right. left. reflexivity. }
  rewrite H0. f_equal. apply filter_nil. intros y Hy.
  destruct (Py.len (NX.predecessors (path_graph (n0 :: rest)) y) =? 0)
    eqn:Hkeep; [| reflexivity].
  exfalso. apply len_zero in Hkeep.
  pose proof (proj1 (@predecessors_nil _ y Hnodes) Hkeep) as Hnone.
  clear Hkeep H0 Hnodes. rename Hnone into Hkeep.
  apply in_split in Hy. destruct Hy as [l1 [l2 ->]].
  destruct (@exists_last _ (n0 :: l1) ltac:(discriminate)) as [pre [u Hu]].
  specialize (Hkeep u).
  assert (He : NX.has_edge (path_graph (n0 :: l1 ++ y :: l2)) u y = true).
  { apply (@has_edge_path_graph _ u y Hnd). exists pre, l2.
    change (n0 :: l1 ++ y :: l2) with ((n0 :: l1) ++ y :: l2).
    rewrite Hu, <- app_assoc. reflexivity. }
  congruence.
Qed.

(** The one node of the path graph that no edge leaves is the last. *)
Lemma sink_nodes_path_graph (pre : list node) (t : node) :
  NoDup (pre ++ [t]) ->
  get_sink_nodes (path_graph (pre ++ [t])) = [t].
Proof.
  intros Hnd. unfold get_sink_nodes. rewrite nodes_path_graph.
  rewrite filter_app. cbn [filter]. unfold NX.successors at 2.
  rewrite adj_path_graph_last by exact Hnd. cbn [map Py.len List.length].
  change (Z.of_nat 0 =? 0) with true. cbv iota.
  rewrite (proj2 (filter_nil _ pre)); [reflexivity |].
  intros x Hx. apply in_split in Hx. destruct Hx as [l1 [l2 Hpre]].
  subst pre. rewrite <- app_assoc in *. cbn [app] in *.
  apply Z.eqb_neq. unfold NX.successors.
  destruct (l2 ++ [t]) as [| v post] eqn:Hl2; [destruct l2; discriminate |].
  rewrite adj_path_graph_edge by exact Hnd. cbn. lia.
Qed.

(** On the path graph, from the first node to the last, [get_contigs]
    builds the contig of the one path. *)
Lemma get_contigs_path_graph (n0 : node) (post : list node) :
  post <> [] ->
  NoDup (n0 :: post) ->
  get_contigs (path_graph (n0 :: post)) [n0] [last post n0]
  = (contig <- contig_of_path (n0 :: post) ;;
     Ok [(contig, Py.len_str contig)]).
Proof.
  intros Hne Hnd. set (g := path_graph (n0 :: post)).
  set (t := last post n0).
  assert (Ht : In t post) by (apply last_In; exact Hne).
  assert (Hn0 : NX.has_node g n0 = true).
  { apply has_node_In. unfold g. rewrite nodes_path_graph. left.
    reflexivity. }
  assert (Hnt : NX.has_node g t = true).
  { apply has_node_In. unfold g. rewrite nodes_path_graph. right.
    exact Ht. }
  assert (Hdiff : String.eqb n0 t = false).
  { apply String.eqb_neq. intros Heq. apply NoDup_cons_iff in Hnd.
    apply (proj1 Hnd). rewrite Heq. exact Ht. }
  assert (Hreach : NX.has_path g n0 t = Ok true).
  { unfold NX.has_path. rewrite Hn0, Hnt. cbn [negb]. f_equal.
    apply mem_In.
    replace t with (last (n0 :: post) n0)
      by (unfold t; destruct post; [congruence | reflexivity]).
    apply reach_walk.
    - apply (is_path_path_graph [] (n0 :: post)). exact Hnd.
    - left. reflexivity.
    - unfold g. rewrite length_path_graph. cbn. lia. }
  assert (Hpaths : NX.all_simple_paths g n0 t = Ok [n0 :: post]).
  { unfold NX.all_simple_paths. rewrite Hn0, Hnt, Hdiff. cbn [negb].
    f_equal. unfold g. rewrite length_path_graph.
    replace (List.length (n0 :: post) - 1)%nat with (List.length post)
      by (cbn [List.length]; lia).
    apply (@dfs_path_graph post [] n0 Hne Hnd). }
  unfold get_contigs. cbn [contigs_loop contigs_from].
  rewrite Hreach. cbn [bind negb]. rewrite Hpaths.
  cbn [bind contigs_of_paths].
  destruct (contig_of_path (n0 :: post)); reflexivity.
Qed.

End PathGraphEnds.

Section SingleRead.

Lemma dict_pop_absent (d : list (string * Z)) (key : string) :
  ~ In key (map fst d) -> dict_pop d key = (None, d).
Proof.
  induction d as [| [k v] d IH]; intros Hkey; [reflexivity |].
  cbn [dict_pop]. cbn [map fst In] in Hkey.
  destruct (String.eqb_spec k key) as [-> | Hne]; [tauto |].
  rewrite IH by tauto. reflexivity.
Qed.

(** k-mers seen for the first time are added in their order, with count
    1. *)
Lemma fold_count_fresh (kmers : list string) :
  forall d,
    NoDup kmers ->
    (forall x, In x kmers -> ~ In x (map fst d)) ->
    fold_left count_kmer kmers d = d ++ map (fun kmer => (kmer, 1)) kmers.
Proof.
  induction kmers as [| kmer kmers IH]; intros d Hnd Hfresh;
    cbn [fold_left map].
  - rewrite app_nil_r. reflexivity.
  - apply NoDup_cons_iff in Hnd. destruct Hnd as [Hk Hnd].
    unfold count_kmer at 2.
    rewrite dict_pop_absent by (apply Hfresh; left; reflexivity).
    rewrite IH.
    + rewrite <- app_assoc. reflexivity.
    + exact Hnd.
    + intros x Hx Hin. rewrite map_app, in_app_iff in Hin.
      destruct Hin as [Hin | [Heq | []]].
      * apply (Hfresh x); [right; exact Hx | exact Hin].
      * cbn in Heq. subst x. contradiction.
Qed.

(** Adding the edge from the last node of a path graph to a new node
    makes the path one node longer. *)
Lemma add_edge_path_graph (pre : list node) (u v : node) :
  NoDup (pre ++ [u; v]) ->
  NX.add_edge (path_graph (pre ++ [u])) u v 1 = path_graph (pre ++ [u; v]).
Proof.
  intros Hnd. unfold NX.add_edge.
  assert (Hu : NX.has_node (path_graph (pre ++ [u])) u = true).
  { apply has_node_In. rewrite nodes_path_graph. apply in_app_iff.
    right. left. reflexivity. }
  assert (Hv : NX.has_node (path_graph (pre ++ [u])) v = false).
  { destruct (NX.has_node (path_graph (pre ++ [u])) v) eqn:H;
      [| reflexivity].
    apply has_node_In in H. rewrite nodes_path_graph in H.
    replace (pre ++ [u; v]) with ((pre ++ [u]) ++ [v]) in Hnd
      by (rewrite <- app_assoc; reflexivity).
    apply NoDup_remove_2 in Hnd. rewrite app_nil_r in Hnd. contradiction. }
  unfold NX.add_node at 2. rewrite Hu.
  unfold NX.add_node. rewrite Hv. clear Hu Hv.
  induction pre as [| x pre IH].
  - cbn. rewrite String.eqb_refl.
    destruct (String.eqb_spec v u) as [-> | _]; [| reflexivity].
    exfalso. cbn in Hnd. apply NoDup_cons_iff in Hnd. cbn in Hnd. tauto.
  - cbn [app] in *. apply NoDup_cons_iff in Hnd. destruct Hnd as [Hx Hnd].
    specialize (IH Hnd).
    assert (Hxu : String.eqb x u = false).
    { apply String.eqb_neq. intros ->. apply Hx. apply in_app_iff.
      right. left. reflexivity. }
    destruct pre as [| y pre]; cbn [app] in *.
    + cbn [path_graph app map fst snd]. rewrite Hxu. f_equal. exact IH.
    + change (path_graph (x :: y :: pre ++ [u]))
        with ((x, [(y, 1)]) :: path_graph (y :: pre ++ [u])).
      change (path_graph (x :: y :: pre ++ [u; v]))
        with ((x, [(y, 1)]) :: path_graph (y :: pre ++ [u; v])).
      cbn [app map fst snd]. rewrite Hxu. f_equal. exact IH.
Qed.

(** The first edge of a graph adds its source as if it were there. *)
Lemma add_edge_first (u v : node) (w : Z) :
  NX.add_edge [] u v w = NX.add_edge [(u, [])] u v w.
Proof.
  unfold NX.add_edge. f_equal. f_equal.
  unfold NX.add_node, NX.has_node, NX.nodes, NX.mem. cbn.
  rewrite String.eqb_refl. reflexivity.
Qed.

Variable read : string.
Variable k : nat.

Hypothesis k_positive : (2 <= k)%nat.
Hypothesis k_fits : (k <= String.length read)%nat.

(** The node and the k-mer at offset [i] of the read. *)
Let node_at (i : nat) : node := substring i (k - 1) read.
Let kmer_at (i : nat) : string := substring i k read.

(** The number of k-mers of the read. *)
Let count : nat := (String.length read - k + 1)%nat.

Hypothesis nodes_distinct : NoDup (map node_at (seq 0 (S count))).

Lemma kmer_at_prefix (i : nat) :
  (i < count)%nat -> kmer_prefix (kmer_at i) = node_at i.
Proof.
  intros Hi. unfold kmer_at, node_at, count in *. rewrite kmer_prefix_eq.
  rewrite substring_length by lia.
  rewrite substring_substring by lia. f_equal. lia.
Qed.

Lemma kmer_at_suffix (i : nat) :
  (i < count)%nat -> kmer_suffix (kmer_at i) = node_at (S i).
Proof.
  intros Hi. unfold kmer_at, node_at, count in *. rewrite kmer_suffix_eq.
  rewrite substring_length by lia.
  rewrite substring_substring by lia. f_equal. lia.
Qed.

Lemma nodes_distinct_upto (j : nat) :
  (j <= S count)%nat -> NoDup (map node_at (seq 0 j)).
Proof.
  intros Hj. replace (S count) with (j + (S count - j))%nat in nodes_distinct
    by lia.
  rewrite seq_app, map_app in nodes_distinct.
  apply NoDup_app_remove_r in nodes_distinct. exact nodes_distinct.
Qed.

Lemma kmers_distinct : NoDup (map kmer_at (seq 0 count)).
Proof.
  apply (NoDup_map_inv kmer_prefix). rewrite map_map.
  rewrite (map_ext_in _ node_at).
  - apply nodes_distinct_upto. lia.
  - intros i Hi. apply in_seq in Hi. apply kmer_at_prefix. lia.
Qed.

(** The graph built from the first [j] k-mers of the read is the path
    through its first [j + 1] nodes. *)
Lemma build_graph_pieces (j : nat) :
  (j < count)%nat ->
  build_graph (map (fun i => (kmer_at i, 1)) (seq 0 (S j)))
  = path_graph (map node_at (seq 0 (S (S j)))).
Proof.
  induction j as [| j IH]; intros Hj.
  - cbn [seq map]. unfold build_graph. cbn [fold_left fst snd].
    fold (kmer_prefix (kmer_at 0)). fold (kmer_suffix (kmer_at 0)).
    rewrite kmer_at_prefix, kmer_at_suffix by exact Hj.
    rewrite add_edge_first.
    change [(node_at 0, [])] with (path_graph ([] ++ [node_at 0])).
    rewrite add_edge_path_graph; [reflexivity |].
    apply (@nodes_distinct_upto 2%nat). lia.
  - rewrite (seq_S (S j)), map_app. cbn [map Nat.add].
    rewrite build_graph_snoc, IH by lia.
    rewrite kmer_at_prefix, kmer_at_suffix by exact Hj.
    rewrite (seq_S (S (S j))), map_app. cbn [map Nat.add].
    rewrite (seq_S (S j)), map_app. cbn [map Nat.add].
    rewrite <- app_assoc. cbn [app].
    apply add_edge_path_graph.
    pose proof (@nodes_distinct_upto (S (S (S j))) ltac:(lia)) as Hnd.
    rewrite (seq_S (S (S j))), map_app in Hnd. cbn [map Nat.add] in Hnd.
    rewrite (seq_S (S j)), map_app in Hnd. cbn [map Nat.add] in Hnd.
    rewrite <- app_assoc in Hnd. exact Hnd.
Qed.

End SingleRead.

(** X21.  Assembly of one read without repeat: when the pieces of [k - 1]
    characters of a read are all different, the graph built from the read
    is the one path through these pieces, its only starting node is the
    first piece, its only sink node the last, and [get_contigs], from the
    starting nodes to the sink nodes, returns one contig: the read, with
    its length. *)
Theorem assemble_single_read (read : string) (k : Z) :
  2 <= k <= Py.len_str read ->
  NoDup (cut_kmer read (k - 1)) ->
  let graph := build_graph (build_kmer_dict [read] k) in
  graph = path_graph (cut_kmer read (k - 1)) /\
  get_starting_nodes graph = [substring 0 (Z.to_nat (k - 1)) read] /\
  get_sink_nodes graph
  = [substring (String.length read - Z.to_nat k + 1)
               (Z.to_nat (k - 1)) read] /\
  get_contigs graph (get_starting_nodes graph) (get_sink_nodes graph)
  = Ok [(read, Py.len_str read)].
Proof.
  intros Hk Hnd graph.
  assert (Hlen : (2 <= Z.to_nat k <= String.length read)%nat)
    by (unfold Py.len_str in Hk; lia).
  set (kn := Z.to_nat k) in *.
  set (count := (String.length read - kn + 1)%nat).
  pose proof (@contig_of_pieces read (k - 1)
                ltac:(unfold Py.len_str in *; lia)) as Hcontig.
  rewrite cut_kmer_pieces in Hnd, Hcontig |- *
    by (unfold Py.len_str in *; lia).
  replace (Z.to_nat (k - 1)) with (kn - 1)%nat in * by lia.
  replace (String.length read - (kn - 1) + 1)%nat with (S count) in *
    by (unfold count; lia).
  set (node_at := fun i => substring i (kn - 1) read) in *.
  assert (Hgraph : graph = path_graph (map node_at (seq 0 (S count)))).
  { unfold graph, build_kmer_dict. cbn [fold_left].
    rewrite cut_kmer_pieces by (unfold Py.len_str in *; lia).
    fold kn. fold count.
    rewrite fold_count_fresh.
    - cbn [app]. rewrite map_map.
      replace count with (S (count - 1)) at 1 by (unfold count; lia).
      rewrite (@build_graph_pieces read kn (proj1 Hlen) (proj2 Hlen));
        fold count.
      + replace (S (S (count - 1))) with (S count) by (unfold count; lia).
        reflexivity.
      + exact Hnd.
      + unfold count. lia.
    - apply (@kmers_distinct read kn (proj1 Hlen) (proj2 Hlen)).
      exact Hnd.
    - intros x _ []. }
  split; [exact Hgraph |]. rewrite Hgraph.
  assert (Hsplit : map node_at (seq 0 (S count))
                   = map node_at (seq 0 count) ++ [node_at count])
    by (rewrite seq_S, map_app; reflexivity).
  assert (Hcons : map node_at (seq 0 (S count))
                  = node_at 0%nat :: map node_at (seq 1 count))
    by reflexivity.
  assert (Hpost : map node_at (seq 1 count) <> []).
  { unfold count. destruct (String.length read - kn + 1)%nat eqn:E;
      [lia | discriminate]. }
  assert (Hstart : get_starting_nodes
                     (path_graph (map node_at (seq 0 (S count))))
                   = [node_at 0%nat]).
  { rewrite Hcons. apply starting_nodes_path_graph. exact Hnd. }
  assert (Hsink : get_sink_nodes
                    (path_graph (map node_at (seq 0 (S count))))
                  = [node_at count]).
  { rewrite Hsplit. apply sink_nodes_path_graph.
    pose proof Hnd as Hnd'. rewrite Hsplit in Hnd'. exact Hnd'. }
  split; [exact Hstart |]. split; [exact Hsink |].
  rewrite Hstart, Hsink.
  assert (Hlast : node_at count
                  = last (map node_at (seq 1 count)) (node_at 0%nat)).
  { pose proof (eq_trans (eq_sym Hcons) Hsplit) as Hboth.
    destruct (map node_at (seq 1 count)) as [| y l]; [congruence |].
    change (last (y :: l) (node_at 0%nat))
      with (last (node_at 0%nat :: y :: l) (node_at 0%nat)).
    rewrite Hboth, last_last. reflexivity. }
  rewrite Hlast.
  refine (eq_trans (@get_contigs_path_graph
                      (node_at 0%nat) (map node_at (seq 1 count))
                      Hpost Hnd) _).
  change ((contig <- contig_of_path (map node_at (seq 0 (S count))) ;;
           Ok [(contig, Py.len_str contig)])
          = Ok [(read, Py.len_str read)]).
  rewrite Hcontig. reflexivity.
Qed.

Lemma assemble_single_read_witness :
  let graph := build_graph (build_kmer_dict ["TACGAT"] 3) in
  graph = path_graph (cut_kmer "TACGAT" (3 - 1)) /\
  get_starting_nodes graph = [substring 0 (Z.to_nat (3 - 1)) "TACGAT"] /\
  get_sink_nodes graph
  = [substring (String.length "TACGAT" - Z.to_nat 3 + 1)
               (Z.to_nat (3 - 1)) "TACGAT"] /\
  get_contigs graph (get_starting_nodes graph) (get_sink_nodes graph)
  = Ok [("TACGAT", Py.len_str "TACGAT")].
Proof.
  apply (@assemble_single_read "TACGAT" 3).
  - vm_compute. split; discriminate.
  - vm_compute. repeat constructor; cbn; intuition discriminate.
Defined.

(** ** Edge values of the k-mer size *)

Section EdgeSizes.

Lemma map_all_empty {A : Type} (f : A -> string) (l : list A) :
  (forall x, In x l -> f x = EmptyString) ->
  map f l = repeat EmptyString (List.length l).
Proof.
  induction l as [| x l IH]; intros H; [reflexivity |].
  cbn [map List.length repeat]. rewrite (H x) by (left; reflexivity).
  f_equal. apply IH. intros y Hy. apply H. right. exact Hy.
Qed.

Lemma one_char_ends (kmer : string) :
  String.length kmer = 1%nat ->
  kmer_prefix kmer = EmptyString /\ kmer_suffix kmer = EmptyString.
Proof.
  destruct kmer as [| c [| c' s]]; cbn; intros H; try discriminate.
  split; reflexivity.
Qed.

End EdgeSizes.

(** X22.  A k-mer size of 0 is not refused: [cut_kmer] then yields the
    empty string once per offset of the read and once more,
    [len(read) + 1] times. *)
Theorem cut_kmer_size_zero (read : string) :
  cut_kmer read 0 = repeat EmptyString (S (String.length read)).
Proof.
  unfold cut_kmer, Py.range, Py.len_str. rewrite map_map.
  replace (Z.to_nat (Z.of_nat (String.length read) - 0 + 1 - 0))
    with (S (String.length read)) by lia.
  rewrite map_all_empty; [rewrite length_seq; reflexivity |].
  intros i Hi. apply in_seq in Hi.
  rewrite str_slice_from by (unfold Py.len_str; lia).
  apply substring_zero.
Qed.

Lemma build_graph_one_char (kmer_dict : list (string * Z)) :
  forall (kmer : string) (count : Z),
    (forall km c, In (km, c) (kmer_dict ++ [(kmer, count)]) ->
                  Py.len_str km = 1) ->
    build_graph (kmer_dict ++ [(kmer, count)])
    = [(EmptyString, [(EmptyString, count)])].
Proof.
  induction kmer_dict as [| [km c] d IH] using rev_ind;
    intros kmer count Hlen.
  - cbn [app]. unfold build_graph. cbn [fold_left fst snd].
    fold (kmer_prefix kmer). fold (kmer_suffix kmer).
    destruct (@one_char_ends kmer) as [-> ->]; [| reflexivity].
    specialize (Hlen kmer count (or_introl eq_refl)).
    unfold Py.len_str in Hlen. lia.
  - rewrite build_graph_snoc, IH.
    + destruct (@one_char_ends kmer) as [-> ->]; [| reflexivity].
      specialize (Hlen kmer count).
      rewrite in_app_iff in Hlen. cbn in Hlen.
      specialize (Hlen (or_intror (or_introl eq_refl))).
      unfold Py.len_str in Hlen. lia.
    + intros km' c' Hin. apply (Hlen km' c').
      apply in_app_iff. left. exact Hin.
Qed.

(** X23.  With k-mers of one character every k-mer gives the same edge,
    from the empty string to itself: the built graph is that one node with
    its loop, weighted by the count of the last k-mer of the table; it has
    no starting node and no sink node, and [get_contigs] between them
    returns no contig. *)
Theorem build_graph_size_one (kmer_dict : list (string * Z)) (kmer : string)
        (count : Z) :
  (forall km c, In (km, c) (kmer_dict ++ [(kmer, count)]) ->
                Py.len_str km = 1) ->
  let graph := build_graph (kmer_dict ++ [(kmer, count)]) in
  graph = [(EmptyString, [(EmptyString, count)])] /\
  get_starting_nodes graph = [] /\
  get_sink_nodes graph = [] /\
  get_contigs graph (get_starting_nodes graph) (get_sink_nodes graph)
  = Ok [].
Proof.
  intros Hlen graph. unfold graph.
  rewrite (@build_graph_one_char kmer_dict kmer count Hlen).
  repeat split; reflexivity.
Qed.

Lemma build_graph_size_one_witness :
  let graph := build_graph ([("A", 3); ("C", 1)] ++ [("G", 2)]) in
  graph = [(EmptyString, [(EmptyString, 2)])] /\
  get_starting_nodes graph = [] /\
  get_sink_nodes graph = [] /\
  get_contigs graph (get_starting_nodes graph) (get_sink_nodes graph)
  = Ok [].
Proof.
  apply (@build_graph_size_one [("A", 3); ("C", 1)] "G" 2).
  intros km c [H | [H | [H | []]]]; inversion H; reflexivity.
Defined.
